(** * PwC hybrid automation: the Node.js side

    A shallow embedding of [node/discover_api.js], [node/login.js] and
    [node/scheduler.js], and what the specification says about them.

    Conventions.
    - A JavaScript string is a Rocq [string], one [ascii] per code unit.
      URLs, paths, query strings and HTTP methods are ASCII, so nothing
      is lost on them.  In mail and page text a code unit above 127
      stands for some unit outside ASCII: it is no digit and no word
      character to a pattern without the flag [u], and [toLowerCase]
      here leaves it alone (JavaScript lowers two such units into
      ASCII, U+212A to [k] and U+0130 to [i] followed by U+0307;
      neither can complete the keywords [login] and [sign in], the only
      ones looked for in lowered page text).
    - An object used as a dictionary is a [gmap string _]; a [Set] of
      strings is the list of its members in insertion order.
    - A [throw], and the rejection of a promise, is the [Err] summand of
      [Result], carrying the message of the [Error].
    - What the browser, Gmail, the file system and the network answer
      is an argument of the function that asks.
    - A module whose text has an early error is never evaluated.  For
      a function of such a module the error is the outcome of every
      call, before any effect. *)

From Stdlib Require Import Ascii String ZArith List Bool Lia Sorted.
From stdpp Require Import base option list gmap strings.
Import ListNotations.

Local Open Scope nat_scope.
#[local] Arguments String.append : simpl nomatch.

(** ** Results *)

Inductive Result (A : Type) : Type :=
| Ok (a : A)
| Err (message : string).
Arguments Ok {A} a.
Arguments Err {A} message.

Definition bindR {A B} (r : Result A) (k : A -> Result B) : Result B :=
  match r with
  | Ok a => k a
  | Err e => Err e
  end.

(** ** Strings *)

Module Str.

Definition code (c : ascii) : nat := nat_of_ascii c.

Definition is_upper (c : ascii) : bool := (65 <=? code c) && (code c <=? 90).
Definition is_lower (c : ascii) : bool := (97 <=? code c) && (code c <=? 122).
Definition is_digit (c : ascii) : bool := (48 <=? code c) && (code c <=? 57).

(** The class [\w] of a regular expression without the [u] flag. *)
Definition is_word (c : ascii) : bool :=
  is_upper c || is_lower c || is_digit c || (code c =? 95).

Definition lower_char (c : ascii) : ascii :=
  if is_upper c then ascii_of_nat (code c + 32) else c.

Definition upper_char (c : ascii) : ascii :=
  if is_lower c then ascii_of_nat (code c - 32) else c.

(** [String.prototype.toLowerCase]. *)
Fixpoint toLowerCase (s : string) : string :=
  match s with
  | EmptyString => EmptyString
  | String c s' => String (lower_char c) (toLowerCase s')
  end.

(** [s.startsWith(w)]. *)
Fixpoint startsWith (w s : string) : bool :=
  match w, s with
  | EmptyString, _ => true
  | String a w', String b s' => if ascii_dec a b then startsWith w' s' else false
  | String _ _, EmptyString => false
  end.

(** [s.includes(w)]. *)
Fixpoint includes (w s : string) : bool :=
  startsWith w s ||
  match s with
  | EmptyString => false
  | String _ s' => includes w s'
  end.

(** [s.endsWith(w)]. *)
Fixpoint endsWith (w s : string) : bool :=
  if string_dec s w then true
  else match s with
       | EmptyString => false
       | String _ s' => endsWith w s'
       end.

Fixpoint take (n : nat) (s : string) : string :=
  match n, s with
  | S n', String c s' => String c (take n' s')
  | _, _ => EmptyString
  end.

Fixpoint drop (n : nat) (s : string) : string :=
  match n, s with
  | S n', String _ s' => drop n' s'
  | _, _ => s
  end.

Definition head (s : string) : option ascii :=
  match s with
  | EmptyString => None
  | String c _ => Some c
  end.

(** [parts.join(sep)]. *)
Fixpoint join (sep : string) (parts : list string) : string :=
  match parts with
  | [] => EmptyString
  | [p] => p
  | p :: ps => p +:+ sep +:+ join sep ps
  end.

Fixpoint all (p : ascii -> bool) (s : string) : bool :=
  match s with
  | EmptyString => true
  | String c s' => p c && all p s'
  end.

(** The word [w] occurs in [s] at offset [i]. *)
Definition occurs_at (w s : string) (i : nat) : Prop :=
  exists pre post, s = pre +:+ w +:+ post /\ String.length pre = i.

End Str.

(** ** Paths

    [path.join] and [path.normalize] of Node on POSIX.  A path is cut
    at its slashes; an empty segment and [.] are dropped, [..] takes
    the segment before it away (or stays, in a relative path with
    nothing left to take); a trailing slash is kept, and a path that
    comes out empty is [.], or [/] when it was absolute. *)

Module Path.

Definition is_slash (c : ascii) : bool := Ascii.eqb c "/".

(** The segments of a path: the texts between its slashes. *)
Fixpoint split (path : string) : list string :=
  match path with
  | EmptyString => [EmptyString]
  | String c rest =>
      if is_slash c then EmptyString :: split rest
      else match split rest with
           | segment :: segments => String c segment :: segments
           | [] => [String c EmptyString]
           end
  end.

(** One segment more; the result so far has its last segment first. *)
Definition step (allowAboveRoot : bool) (res : list string) (segment : string)
    : list string :=
  if bool_decide (segment = EmptyString \/ segment = ".") then res
  else if bool_decide (segment = "..") then
    match res with
    | last :: before =>
        if bool_decide (last = "..")
        then (if allowAboveRoot then ".." :: res else res)
        else before
    | [] => if allowAboveRoot then [".."] else []
    end
  else segment :: res.

Definition normalizeString (path : string) (allowAboveRoot : bool) : string :=
  Str.join "/" (rev (fold_left (step allowAboveRoot) (split path) [])).

(** [path.normalize(path)]. *)
Definition normalize (path : string) : string :=
  if bool_decide (path = EmptyString) then "."
  else
    let isAbsolute := Str.startsWith "/" path in
    let trailingSeparator := Str.endsWith "/" path in
    let res := normalizeString path (negb isAbsolute) in
    if bool_decide (res = EmptyString) then
      if isAbsolute then "/" else if trailingSeparator then "./" else "."
    else
      (if isAbsolute then "/" else EmptyString) +:+ res +:+
      (if trailingSeparator then "/" else EmptyString).

(** [path.join(...args)]: the arguments that are not empty, put
    together with slashes and normalized. *)
Definition join (args : list string) : string :=
  match List.filter (fun arg => negb (String.eqb arg EmptyString)) args with
  | [] => "."
  | parts => normalize (Str.join "/" parts)
  end.

End Path.

(** ** Regular expressions

    The fragment of ECMAScript patterns that the two literals of the
    code are written in, with the backtracking matcher of the language:
    alternatives are tried left to right, a match is searched for at
    offset 0, then 1, and so on ([RegExp.prototype.exec] without the
    flags [g] and [y]). *)

Module Regex.

Inductive regex : Type :=
| Chr (c : ascii)            (* a pattern character *)
| Digit                      (* \d *)
| WordBoundary               (* \b *)
| Eps                        (* the empty pattern *)
| Seq (r1 r2 : regex)
| Alt (r1 r2 : regex)        (* r1|r2 *)
| Group (r : regex).         (* a capturing group *)

(** Where the matcher stands: the code unit before the current
    position, the input still to read, the captures closed so far. *)
Record cursor : Type := Cursor {
  before : option ascii;
  ahead : string;
  captures : list string
}.

Definition wordy (o : option ascii) : bool :=
  match o with
  | Some c => Str.is_word c
  | None => false
  end.

(** Two code units are the same to the matcher; with the flag [i]
    both are canonicalised (upper-cased) first. *)
Definition same (icase : bool) (c d : ascii) : bool :=
  if icase then bool_decide (Str.upper_char c = Str.upper_char d)
  else bool_decide (c = d).

Fixpoint run (icase : bool) (r : regex) (cur : cursor)
    (k : cursor -> option cursor) : option cursor :=
  match r with
  | Chr c =>
      match ahead cur with
      | String d s' =>
          if same icase c d then k (Cursor (Some d) s' (captures cur)) else None
      | EmptyString => None
      end
  | Digit =>
      match ahead cur with
      | String d s' =>
          if Str.is_digit d then k (Cursor (Some d) s' (captures cur)) else None
      | EmptyString => None
      end
  | WordBoundary =>
      if xorb (wordy (before cur)) (wordy (Str.head (ahead cur))) then k cur else None
  | Eps => k cur
  | Seq r1 r2 => run icase r1 cur (fun cur' => run icase r2 cur' k)
  | Alt r1 r2 =>
      match run icase r1 cur k with
      | Some out => Some out
      | None => run icase r2 cur k
      end
  | Group r1 =>
      run icase r1 cur (fun cur' =>
        let text := Str.take (String.length (ahead cur) - String.length (ahead cur')) (ahead cur) in
        k (Cursor (before cur') (ahead cur') (captures cur' ++ [text])))
  end.

(** The array [exec] returns: [index], element 0 and the groups. *)
Record found : Type := Found {
  index : nat;
  whole : string;
  groups : list string
}.

Fixpoint search (icase : bool) (r : regex) (prev : option ascii) (s : string)
    (i : nat) : option found :=
  match run icase r (Cursor prev s []) Some with
  | Some cur' =>
      Some (Found i (Str.take (String.length s - String.length (ahead cur')) s) (captures cur'))
  | None =>
      match s with
      | EmptyString => None
      | String c s' => search icase r (Some c) s' (S i)
      end
  end.

(** [s.match(re)] for a pattern without the flag [g]. *)
Definition exec (icase : bool) (r : regex) (s : string) : option found :=
  search icase r None s 0.

(** A word as a pattern, and [w1|w2|...|wn]. *)
Fixpoint word (w : string) : regex :=
  match w with
  | EmptyString => Eps
  | String c w' => Seq (Chr c) (word w')
  end.

Fixpoint any_of (ws : list string) : regex :=
  match ws with
  | [] => Eps
  | [w] => word w
  | w :: ws' => Alt (word w) (any_of ws')
  end.

Fixpoint times (n : nat) (r : regex) : regex :=
  match n with
  | 0 => Eps
  | S n' => Seq r (times n' r)
  end.

End Regex.

(** ** JSON, as far as the collector uses it

    [JSON.stringify] of an object whose four members are strings, and
    [JSON.parse] of an object whose members are strings (the only texts
    the collector ever parses are those it serialised itself). *)

Module JSON.

Definition dquote : ascii := ascii_of_nat 34.
Definition backslash : ascii := ascii_of_nat 92.

Definition hex_digit (n : nat) : ascii :=
  if n <? 10 then ascii_of_nat (48 + n) else ascii_of_nat (87 + n).

Definition hex_value (c : ascii) : option nat :=
  let n := Str.code c in
  if Str.is_digit c then Some (n - 48)
  else if (97 <=? n) && (n <=? 102) then Some (n - 87)
  else if (65 <=? n) && (n <=? 70) then Some (n - 55)
  else None.

(** The single-character escapes of [QuoteJSONString]. *)
Definition short_escape (c : ascii) : option ascii :=
  let n := Str.code c in
  if n =? 8 then Some "b"%char
  else if n =? 9 then Some "t"%char
  else if n =? 10 then Some "n"%char
  else if n =? 12 then Some "f"%char
  else if n =? 13 then Some "r"%char
  else if n =? 34 then Some dquote
  else if n =? 92 then Some backslash
  else None.

Definition short_unescape (e : ascii) : option ascii :=
  let n := Str.code e in
  if n =? 98 then Some (ascii_of_nat 8)
  else if n =? 116 then Some (ascii_of_nat 9)
  else if n =? 110 then Some (ascii_of_nat 10)
  else if n =? 102 then Some (ascii_of_nat 12)
  else if n =? 114 then Some (ascii_of_nat 13)
  else if n =? 34 then Some dquote
  else if n =? 92 then Some backslash
  else if n =? 47 then Some "/"%char
  else None.

Definition escape (c : ascii) : string :=
  match short_escape c with
  | Some e => String backslash (String e EmptyString)
  | None =>
      if Str.code c <? 32 then
        String backslash (String "u" (String "0" (String "0"
          (String (hex_digit (Str.code c / 16))
             (String (hex_digit (Str.code c mod 16)) EmptyString)))))
      else String c EmptyString
  end.

Fixpoint escape_all (s : string) : string :=
  match s with
  | EmptyString => EmptyString
  | String c s' => escape c +:+ escape_all s'
  end.

(** [QuoteJSONString]. *)
Definition quote (s : string) : string :=
  String dquote (escape_all s +:+ String dquote EmptyString).

(** Reads a string literal whose opening quote has been consumed;
    gives its value and the text after the closing quote.  An escape
    [\uXXXX] above 00ff has no code unit in this model and is
    refused. *)
Fixpoint unquote (s : string) : option (string * string) :=
  match s with
  | EmptyString => None
  | String c s' =>
      if bool_decide (c = dquote) then Some (EmptyString, s')
      else if bool_decide (c = backslash) then
        match s' with
        | EmptyString => None
        | String e s'' =>
            if bool_decide (e = "u"%char) then
              match s'' with
              | String h1 (String h2 (String h3 (String h4 r))) =>
                  match hex_value h1, hex_value h2, hex_value h3, hex_value h4 with
                  | Some 0, Some 0, Some a, Some b =>
                      match unquote r with
                      | Some (v, rest) => Some (String (ascii_of_nat (16 * a + b)) v, rest)
                      | None => None
                      end
                  | _, _, _, _ => None
                  end
              | _ => None
              end
            else
              match short_unescape e with
              | Some d =>
                  match unquote s'' with
                  | Some (v, rest) => Some (String d v, rest)
                  | None => None
                  end
              | None => None
              end
        end
      else if Str.code c <? 32 then None
      else
        match unquote s' with
        | Some (v, rest) => Some (String c v, rest)
        | None => None
        end
  end.

(** The members of an object, after its opening brace. *)
Fixpoint members (fuel : nat) (s : string) : option (list (string * string)) :=
  match fuel with
  | 0 => None
  | S fuel' =>
      match s with
      | String q s1 =>
          if bool_decide (q = dquote) then
            match unquote s1 with
            | Some (key, String colon (String q' s2)) =>
                if bool_decide (colon = ":"%char) && bool_decide (q' = dquote) then
                  match unquote s2 with
                  | Some (value, String sep s3) =>
                      if bool_decide (sep = "}"%char) then
                        match s3 with
                        | EmptyString => Some [(key, value)]
                        | String _ _ => None
                        end
                      else if bool_decide (sep = ","%char) then
                        match members fuel' s3 with
                        | Some ms => Some ((key, value) :: ms)
                        | None => None
                        end
                      else None
                  | _ => None
                  end
                else None
            | _ => None
            end
          else None
      | EmptyString => None
      end
  end.

(** [JSON.parse] on an object of strings; [None] is a [SyntaxError]. *)
Definition parse_object (s : string) : option (list (string * string)) :=
  match s with
  | String b s' =>
      if bool_decide (b = "{"%char) then
        match s' with
        | String e EmptyString =>
            if bool_decide (e = "}"%char) then Some [] else None
        | _ => members (String.length s') s'
        end
      else None
  | EmptyString => None
  end.

Definition member (key value : string) : string :=
  quote key +:+ ":" +:+ quote value.

(** A property read [o.key]; a later member of the same name wins. *)
Fixpoint get (key : string) (ms : list (string * string)) : option string :=
  match ms with
  | [] => None
  | (k, v) :: ms' =>
      match get key ms' with
      | Some v' => Some v'
      | None => if bool_decide (k = key) then Some v else None
      end
  end.

End JSON.

(** ** node/discover_api.js *)

Module DiscoverApi.

(** The record [info] built for a request. *)
Record EndpointInfo : Type := Info {
  url : string;
  method : string;
  path : string;
  query : string
}.

#[global] Instance EndpointInfo_eq_dec : EqDecision EndpointInfo.
Proof. solve_decision. Defined.

Record ApiMap : Type := {
  endpoints : list EndpointInfo;
  exportEndpoints : gmap string EndpointInfo;
  candidateEndpoints : gmap string EndpointInfo;
  documentEndpoints : gmap string EndpointInfo;
  timestamp : string;
  session_id : string
}.

(** The closure of [attachApiDiscovery]: the [Set] and the object. *)
Record Collector : Type := {
  apiRequests : list string;
  apiMap : ApiMap
}.

(** What the handler asks of a Playwright request. *)
Record Request : Type := {
  request_url : string;
  request_method : string
}.

(** What the handler reads of [new URL(url)]. *)
Record Location : Type := {
  pathname : string;
  search : string
}.

Definition JSON_stringify (info : EndpointInfo) : string :=
  "{" +:+ JSON.member "url" (url info) +:+ "," +:+ JSON.member "method" (method info)
      +:+ "," +:+ JSON.member "path" (path info) +:+ "," +:+ JSON.member "query" (query info)
      +:+ "}".

Definition JSON_parse (s : string) : option EndpointInfo :=
  match JSON.parse_object s with
  | Some ms =>
      match JSON.get "url" ms, JSON.get "method" ms, JSON.get "path" ms, JSON.get "query" ms with
      | Some u, Some m, Some p, Some q => Some (Info u m p q)
      | _, _, _, _ => None
      end
  | None => None
  end.

(** [set.add(s)]: a member keeps its place, a new one goes last. *)
Definition Set_add (s : string) (set : list string) : list string :=
  if bool_decide (s ∈ set) then set else set ++ [s].

Definition tabs : list string :=
  ["todays"; "notstarted"; "draft"; "rejected"; "submitted";
   "workinprogress"; "bgvclosed"; "inprogress"].

(** [/(todays|notstarted|draft|rejected|submitted|workinprogress|bgvclosed|inprogress)/i] *)
Definition tab_pattern : Regex.regex := Regex.Group (Regex.any_of tabs).

Definition is_api (url : string) : bool :=
  Str.includes "/api/" url || Str.includes "/Api/" url || Str.includes "/API/" url.

Definition is_export (lower : string) : bool :=
  Str.includes "export" lower || Str.includes "download" lower || Str.includes "excel" lower.

Definition is_candidate (lower : string) : bool :=
  Str.includes "candidate" lower || Str.includes "candidat" lower.

Definition is_document (lower : string) : bool :=
  Str.includes "document" lower || Str.includes "doc" lower.

Definition with_requests (c : Collector) (set : list string) : Collector :=
  {| apiRequests := set; apiMap := apiMap c |}.

Definition with_export (c : Collector) (key : string) (info : EndpointInfo) : Collector :=
  let m := apiMap c in
  {| apiRequests := apiRequests c;
     apiMap := {| endpoints := endpoints m;
                  exportEndpoints := <[key := info]> (exportEndpoints m);
                  candidateEndpoints := candidateEndpoints m;
                  documentEndpoints := documentEndpoints m;
                  timestamp := timestamp m;
                  session_id := session_id m |} |}.

Definition with_candidate (c : Collector) (key : string) (info : EndpointInfo) : Collector :=
  let m := apiMap c in
  {| apiRequests := apiRequests c;
     apiMap := {| endpoints := endpoints m;
                  exportEndpoints := exportEndpoints m;
                  candidateEndpoints := <[key := info]> (candidateEndpoints m);
                  documentEndpoints := documentEndpoints m;
                  timestamp := timestamp m;
                  session_id := session_id m |} |}.

Definition with_document (c : Collector) (key : string) (info : EndpointInfo) : Collector :=
  let m := apiMap c in
  {| apiRequests := apiRequests c;
     apiMap := {| endpoints := endpoints m;
                  exportEndpoints := exportEndpoints m;
                  candidateEndpoints := candidateEndpoints m;
                  documentEndpoints := <[key := info]> (documentEndpoints m);
                  timestamp := timestamp m;
                  session_id := session_id m |} |}.

Definition with_endpoints (m : ApiMap) (es : list EndpointInfo) : ApiMap :=
  {| endpoints := es;
     exportEndpoints := exportEndpoints m;
     candidateEndpoints := candidateEndpoints m;
     documentEndpoints := documentEndpoints m;
     timestamp := timestamp m;
     session_id := session_id m |}.

(** The state [attachApiDiscovery] starts from; [now] is
    [new Date().toISOString()]. *)
Definition attach (sessionId now : string) : Collector :=
  {| apiRequests := [];
     apiMap := {| endpoints := [];
                  exportEndpoints := ∅;
                  candidateEndpoints := ∅;
                  documentEndpoints := ∅;
                  timestamp := now;
                  session_id := sessionId |} |}.

(** Lines 696-708: where the record goes.  The key of an export
    record is the text the tab pattern matched in the lowered path,
    and the path when it matched nothing.  ([obj[key] = info] is a
    plain insertion for every key but [__proto__], which no branch can
    produce: a tab word is not it, and a path that reaches a branch
    contains [export], [download], [excel], [candidat] or [doc].) *)
Definition export_key (info : EndpointInfo) : string :=
  match Regex.exec true tab_pattern (Str.toLowerCase (path info)) with
  | Some tabMatch => Regex.whole tabMatch
  | None => path info
  end.

Definition classify (c : Collector) (info : EndpointInfo) : Collector :=
  let lower := Str.toLowerCase (path info) in
  if is_export lower then with_export c (export_key info) info
  else if is_candidate lower then with_candidate c (path info) info
  else if is_document lower then with_document c (path info) info
  else c.

Section Observer.

(** [new URL(url)]: the platform's parser; [None] is its [TypeError]. *)
Variable URL : string -> option Location.

(** Lines 685-694: the record [info], when the handler gets that
    far.  An empty URL returns, a URL without marker is skipped, and
    the [TypeError] of [new URL] is swallowed by the [catch]; the
    collector is untouched in all three cases. *)
Definition info_of (request : Request) : option EndpointInfo :=
  let url := request_url request in
  if bool_decide (url = EmptyString) then None
  else if is_api url then
    match URL url with
    | Some u => Some (Info url (request_method request) (pathname u) (search u))
    | None => None
    end
  else None.

(** The body of [page.on('request', ...)]. *)
Definition on_request (c : Collector) (request : Request) : Collector :=
  match info_of request with
  | None => c
  | Some info =>
      classify (with_requests c (Set_add (JSON_stringify info) (apiRequests c))) info
  end.

(** The requests of a session, in the order the page issued them. *)
Definition observe (c : Collector) (requests : list Request) : Collector :=
  fold_left on_request requests c.

End Observer.

(** [path.join(outDir, `pwc_api_map_${sessionId}.json`)]. *)
Definition api_map_path (outDir sessionId : string) : string :=
  Path.join [outDir; "pwc_api_map_" +:+ sessionId +:+ ".json"].

Section Saving.

(** [fs.writeFile(path, JSON.stringify(apiMap, null, 2), 'utf-8')]:
    whether the platform writes the document to the path, or the
    error it rejects with (a directory that is missing, a disk that
    is full). *)
Variable writeFile : string -> ApiMap -> Result unit.

(** [saveApiMap]: the collector afterwards, and the path the promise
    resolves to or the error it rejects with.  A [SyntaxError] of
    [JSON.parse] rejects before [apiMap.endpoints] is assigned; a
    rejection of [writeFile] comes after the assignment. *)
Definition saveApiMap (outDir : string) (c : Collector) : Collector * Result string :=
  match mapM JSON_parse (apiRequests c) with
  | None => (c, Err "SyntaxError")
  | Some es =>
      let c' := {| apiRequests := apiRequests c;
                   apiMap := with_endpoints (apiMap c) es |} in
      let apiMapPath := api_map_path outDir (session_id (apiMap c)) in
      (c', bindR (writeFile apiMapPath (apiMap c')) (fun _ => Ok apiMapPath))
  end.

End Saving.

(** One value the parameter [URL] can take, for the examples: it
    reads a URL with an authority that is already serialised, as the
    browser reports the [http] and [https] requests of a page,
    [scheme://authority/path?query#fragment].  It is not the
    platform's parser: a URL without [://] ([data:], [blob:],
    [about:]) is beyond it and gets [None] here, whatever [new URL]
    makes of it; what is proved is proved for every [URL]. *)
Fixpoint after_scheme (s : string) : option string :=
  match s with
  | EmptyString => None
  | String c s' =>
      if Str.startsWith "://" s then Some (Str.drop 3 s) else after_scheme s'
  end.

Fixpoint until (stop : ascii -> bool) (s : string) : string * string :=
  match s with
  | EmptyString => (EmptyString, EmptyString)
  | String c s' =>
      if stop c then (EmptyString, s)
      else let '(a, b) := until stop s' in (String c a, b)
  end.

Definition is_one_of (cs : string) (c : ascii) : bool :=
  Str.includes (String c EmptyString) cs.

Definition serialised_URL (url : string) : option Location :=
  match after_scheme url with
  | None => None
  | Some rest =>
      let '(_, from_path) := until (is_one_of "/?#") rest in
      let '(p, from_query) := until (is_one_of "?#") from_path in
      let '(q, _) := until (is_one_of "#") from_query in
      Some {| pathname := if bool_decide (p = EmptyString) then "/" else p;
              search := if bool_decide (q = "?") then EmptyString else q |}
  end.

End DiscoverApi.

(** ** node/login.js *)

Module Login.

(** *** getGmailOtp *)

(** A part of a Gmail message payload: the text [body.data] decodes
    to (absent or empty data is [None]) and its [parts]. *)
#[local] Unset Elimination Schemes.
Inductive MessagePart : Type :=
| Part (body_data : option string) (parts : list MessagePart).
#[local] Set Elimination Schemes.

Record Message : Type := {
  snippet : option string;
  payload : option MessagePart
}.

(** What one call of [getGmailOtp] finds: whether the three OAuth
    variables are set, the answer to [messages.list] (its [messages]
    may be missing) and to [messages.get]. *)
Record Mailbox : Type := {
  credentials : bool;
  listed : Result (option (list string));
  fetched : string -> Result Message
}.

Definition newline : string := String (ascii_of_nat 10) EmptyString.

(** [/\b(\d{6})\b/] *)
Definition otp_pattern : Regex.regex :=
  Regex.Seq Regex.WordBoundary
    (Regex.Seq (Regex.Group (Regex.times 6 Regex.Digit)) Regex.WordBoundary).

(** The [while (stack.length)] loop.  The top of the stack is the head
    of the list; [stack.push(...p.parts)] leaves the last part on top. *)
Fixpoint walk (fuel : nat) (stack : list (option MessagePart)) (parts : list string)
    : option (list string) :=
  match fuel with
  | 0 => None
  | S fuel' =>
      match stack with
      | [] => Some parts
      | None :: below => walk fuel' below parts
      | Some (Part data kids) :: below =>
          let parts' := match data with Some t => parts ++ [t] | None => parts end in
          walk fuel' (rev (map Some kids) ++ below) parts'
      end
  end.

Fixpoint weight (p : MessagePart) : nat :=
  match p with
  | Part _ kids => S (list_sum (map weight kids))
  end.

Definition weight_of (o : option MessagePart) : nat :=
  match o with
  | Some p => weight p
  | None => 1
  end.

(** The texts of a part in the order the loop meets them. *)
Fixpoint texts (p : MessagePart) : list string :=
  match p with
  | Part data kids =>
      match data with Some t => [t] | None => [] end ++ concat (rev (map texts kids))
  end.

Definition texts_of (o : option MessagePart) : list string :=
  match o with
  | Some p => texts p
  | None => []
  end.

(** Lines 302-318: the text the pattern is run on.  The fuel is enough
    for the loop to end on any payload, so the result is never [None]. *)
Definition message_text (full : Message) : option string :=
  match walk (S (weight_of (payload full))) [payload full] [default EmptyString (snippet full)] with
  | Some parts => Some (Str.join newline parts)
  | None => None
  end.

(** Lines 320-326. *)
Definition extract_otp (text : string) : Result string :=
  match Regex.exec false otp_pattern text with
  | None => Err "OTP code not found in email body (expected 6-digit code)"
  | Some m => Ok (nth 0 (Regex.groups m) EmptyString)
  end.

Definition getGmailOtp (box : Mailbox) : Result string :=
  if negb (credentials box) then
    Err "Missing Gmail API credentials (GMAIL_CLIENT_ID, GMAIL_CLIENT_SECRET, GMAIL_REFRESH_TOKEN)"
  else
    bindR (listed box) (fun messages =>
      match messages with
      | None | Some [] => Err "No OTP email found in last 10 minutes"
      | Some (id :: _) =>
          bindR (fetched box id) (fun full =>
            match message_text full with
            | Some text => extract_otp text
            | None => Err "unreachable"
            end)
      end).

(** *** loginAndDiscover *)

(** The text of the function.  The statement list of the [try] block
    of [loginAndDiscover] (lines 345-655) declares the name
    [submitted] twice: with [const] in line 383 and with [let] in line
    513, both standing directly in the block.  That is an early error
    of ECMAScript (the lexically declared names of a statement list
    hold no duplicates): [login.js] is rejected with a [SyntaxError]
    when it is loaded, and no statement of [loginAndDiscover] ever
    runs.

    The names declared with [const] or [let] by the statements that
    stand directly in the [try] block, in order, with their lines.
    The block holds no [var], [function] or [class] declaration; the
    blocks and loop heads inside it are scopes of their own. *)
Definition try_block_declarations : list (string * nat) :=
  [ ("emailFilled", 350); ("passFilled", 369); ("submitted", 383);
    ("found", 467); ("otp", 479); ("submitSelectors", 503);
    ("submitted", 513); ("currentUrl", 550); ("pageTitle", 551);
    ("cookies", 552); ("loginSuccess", 554); ("successIndicators", 555);
    ("selectorsToTry", 561); ("storageState", 646); ("apiMapPath", 651) ].

(** The first declaration of a name that the list declared already. *)
Fixpoint redeclared (seen : list string) (declarations : list (string * nat))
    : option (string * nat) :=
  match declarations with
  | [] => None
  | (name, line) :: rest =>
      if bool_decide (name ∈ seen) then Some (name, line)
      else redeclared (name :: seen) rest
  end.

Definition early_error : option string :=
  match redeclared [] try_block_declarations with
  | Some (name, _) =>
      Some ("SyntaxError: Identifier '" +:+ name +:+ "' has already been declared")
  | None => None
  end.

(** The statements of the function as they are written follow, down
    to [as_written].  They say what the function is meant to do; as
    shipped they are behind the early error.

    What is logged of a login: the calls to Gmail and the waits between
    them, the code typed in, the screenshot of a login that could not be
    verified, the closing of the browser. *)
Inductive Event : Type :=
| GmailCall (attempt : nat)      (* a call of getGmailOtp *)
| Sleep (ms : nat)               (* a timer awaited *)
| Fill (otp : string)            (* found.locator.fill(otp) *)
| Screenshot                     (* page.screenshot(...) *)
| Close.                         (* browser.close() *)

(** A computation logs its events and returns or throws. *)
Definition M (A : Type) : Type := list Event -> Result A * list Event.

Definition ret {A} (a : A) : M A := fun log => (Ok a, log).
Definition throw {A} (message : string) : M A := fun log => (Err message, log).
Definition emit (e : Event) : M unit := fun log => (Ok tt, log ++ [e]).
Definition lift {A} (r : Result A) : M A := fun log => (r, log).

Definition bind {A B} (m : M A) (k : A -> M B) : M B :=
  fun log =>
    match m log with
    | (Ok a, log') => k a log'
    | (Err e, log') => (Err e, log')
    end.

(** [try { body } finally { cleanup }] for a cleanup that cannot throw. *)
Definition finally {A} (body : M A) (cleanup : M unit) : M A :=
  fun log =>
    let '(r, log') := body log in
    let '(_, log'') := cleanup log' in
    (r, log'').

#[global] Instance M_ret : MRet M := @ret.
#[global] Instance M_bind : MBind M := fun A B k m => bind m k.

Record Cookie : Type := {
  cookie_name : string;
  cookie_domain : string
}.

Record LoginInfo : Type := {
  sessionId : string;
  sessionPath : string;
  apiMapPath : string
}.

(** What the browser and Gmail show during one attempt. *)
Record Browser : Type := {
  (* lines 330-343, before the [try]: the two credentials are set, the
     browser is launched, a context and a page are opened, the
     directory is made *)
  before_try : Result unit;
  (* lines 346-476, up to the OTP field being located *)
  reach_otp_field : Result unit;
  (* what Gmail holds at the n-th call of getGmailOtp *)
  mailbox : nat -> Mailbox;
  (* found.locator.fill *)
  fill_otp : Result unit;
  (* lines 502-547, submitting the code and waiting for the page *)
  submit_otp : Result unit;
  currentUrl : string;
  cookies : list Cookie;
  (* page.waitForSelector(sel, { timeout: 3000 }) resolves *)
  selector_found : string -> bool;
  (* page.textContent('body'); null, and '' after a rejection, are None *)
  bodyText : option string;
  (* lines 607-654, discovery and the two files *)
  discover_and_save : Result LoginInfo
}.

(** Lines 479-493, from the test of [attempt < 3] on; [left] is
    [3 - attempt]. *)
Fixpoint otp_attempts (b : Browser) (attempt left : nat) : M (option string) :=
  match left with
  | 0 => ret None
  | S left' =>
      emit (GmailCall attempt);;
      match getGmailOtp (mailbox b attempt) with
      | Ok otp => ret (Some otp)
      | Err e =>
          if attempt <? 2 then
            emit (Sleep 5000);; otp_attempts b (S attempt) left'
          else
            throw ("Failed to fetch OTP from Gmail after 3 attempts: " +:+ e)
      end
  end.

(** Lines 479-500, as written. *)
Definition fetch_and_fill_otp (b : Browser) : M string :=
  otp ← otp_attempts b 0 3;
  match otp with
  | None | Some EmptyString => throw "OTP not retrieved from Gmail"
  | Some code =>
      emit (Fill code);;
      lift (fill_otp b);;
      ret code
  end.

Definition url_matches (currentUrl : string) : bool :=
  Str.includes "compliancenomination" currentUrl || Str.includes "pwc.com" currentUrl.

Definition quoted (s : string) : string :=
  String JSON.dquote (s +:+ String JSON.dquote EmptyString).

Definition selectorsToTry : list (string * string) :=
  [ ("table", "table element");
    ("#dashboard", "dashboard element");
    ("text=" +:+ quoted "Background Verification", "Background Verification text");
    ("body", "page body") ].

(** Lines 568-579: [loginSuccess] and [successIndicators] after the loop. *)
Fixpoint try_selectors (seen : string -> bool) (sels : list (string * string))
    (indicators : list string) : bool * list string :=
  match sels with
  | [] => (false, indicators)
  | (sel, name) :: rest =>
      if seen sel then
        let indicators' := indicators ++ ["Found " +:+ name] in
        if bool_decide (sel ≠ "body") then (true, indicators')
        else try_selectors seen rest indicators'
      else try_selectors seen rest indicators
  end.

Definition hasAuthCookie (cs : list Cookie) : bool :=
  existsb (fun c =>
    Str.includes "session" (cookie_name c) ||
    Str.includes "token" (cookie_name c) ||
    Str.includes "auth" (cookie_name c) ||
    Str.includes "pwc.com" (cookie_domain c)) cs.

Definition looks_logged_in (bodyText : option string) : bool :=
  match bodyText with
  | None | Some EmptyString => false
  | Some text =>
      (100 <? String.length text) &&
      negb (Str.includes "sign in" (Str.toLowerCase text)) &&
      negb (Str.includes "login" (Str.toLowerCase text))
  end.

(** Lines 554-600: the value of [loginSuccess] and of
    [successIndicators] when line 602 is reached. *)
Definition login_success (b : Browser) : bool * list string :=
  let ind0 :=
    if url_matches (currentUrl b) then ["URL matches PwC domain"] else [] in
  let '(s1, ind1) := try_selectors (selector_found b) selectorsToTry ind0 in
  let '(s2, ind2) :=
    if negb s1 && (0 <? length (cookies b)) then
      if hasAuthCookie (cookies b) then (true, ind1 ++ ["Auth cookies present"])
      else (s1, ind1)
    else (s1, ind1) in
  if negb s2 && (Str.includes "pwc.com" (currentUrl b) ||
                 Str.includes "compliancenomination" (currentUrl b)) then
    if looks_logged_in (bodyText b)
    then (true, ind2 ++ ["Page content suggests logged-in state"])
    else (s2, ind2)
  else (s2, ind2).

(** Lines 549-605, as written. *)
Definition verify_login (b : Browser) : M unit :=
  if fst (login_success b) then ret tt
  else emit Screenshot;; throw "Login incomplete - could not verify success".

(** The statements of the function as written: lines 330-343, where
    a throw leaves the browser open or never launched, then the [try]
    of line 345 with its [finally]. *)
Definition as_written (b : Browser) : M LoginInfo :=
  lift (before_try b);;
  finally
    (lift (reach_otp_field b);;
     fetch_and_fill_otp b;;
     lift (submit_otp b);;
     verify_login b;;
     lift (discover_and_save b))
    (emit Close).

(** The function as shipped. *)
Definition loginAndDiscover (b : Browser) : M LoginInfo :=
  match early_error with
  | Some e => throw e
  | None => as_written b
  end.

(** [ensureTmpDir]: the first of the two directories that can be made
    and entered. *)
Definition ensureTmpDir (usable : string -> bool) (cwd : string) : Result string :=
  let dirsToTry := ["/tmp/pwc"; cwd +:+ "/tmp/pwc"] in
  match filter (fun d => Is_true (usable d)) dirsToTry with
  | dir :: _ => Ok dir
  | [] => Err "Could not create or access tmp directory"
  end.

(** [getSessionPath] inside the directory [ensureTmpDir] gave, for
    the session ids the code makes: [uuidv4()] is the only source of
    them, and for an id without a slash [path.join(baseDir,
    `${sessionId}.json`)] is this text (see [getSessionPath_is_join]). *)
Definition getSessionPath (baseDir sessionId : string) : string :=
  baseDir +:+ "/" +:+ sessionId +:+ ".json".

End Login.

(** ** node/scheduler.js *)

Module Scheduler.

(** *** The files rotateSessions works on *)

Inductive Node : Type :=
| File (mtimeMs : Z)
| Dir (mtimeMs : Z).

(** A file system: what is found at each absolute path. *)
Abbreviation FileSystem := (gmap string Node).

Definition mtime (n : Node) : Z :=
  match n with
  | File t => t
  | Dir t => t
  end.

(** [path.join(dir, f)] for a normal [dir] and a plain name [f]. *)
Definition join (dir f : string) : string := dir +:+ "/" +:+ f.

(** The name of [p] inside [dir], when [p] is an entry of [dir]. *)
Definition entry_of (dir p : string) : option string :=
  if Str.startsWith (dir +:+ "/") p then
    let name := Str.drop (String.length dir + 1) p in
    if bool_decide (name = EmptyString) || Str.includes "/" name then None
    else Some name
  else None.

(** [fs.readdir(dir)]: the names of the entries of [dir], not of what
    lies deeper. *)
Definition readdir (fs : FileSystem) (dir : string) : Result (list string) :=
  match fs !! dir with
  | Some (Dir _) => Ok (omap (fun kv => entry_of dir (fst kv)) (map_to_list fs))
  | Some (File _) => Err "ENOTDIR"
  | None => Err "ENOENT"
  end.

(** [(await fs.stat(p)).mtimeMs] *)
Definition stat (fs : FileSystem) (p : string) : Result Z :=
  match fs !! p with
  | Some n => Ok (mtime n)
  | None => Err "ENOENT"
  end.

(** [fs.unlink(p)] *)
Definition unlink (fs : FileSystem) (p : string) : Result FileSystem :=
  match fs !! p with
  | Some (File _) => Ok (delete p fs)
  | Some (Dir _) => Err "EISDIR"
  | None => Err "ENOENT"
  end.

(** [Array.prototype.sort] with a comparator: a stable sort. *)
Fixpoint insert_sorted {A} (cmp : A -> A -> Z) (x : A) (l : list A) : list A :=
  match l with
  | [] => [x]
  | y :: l' =>
      if (cmp y x <=? 0)%Z then y :: insert_sorted cmp x l'
      else x :: l
  end.

Definition sort {A} (cmp : A -> A -> Z) (l : list A) : list A :=
  fold_left (fun acc x => insert_sorted cmp x acc) l [].

(** [Promise.all(files.map(async f => ({ f, t: ... })))] *)
Fixpoint stat_all (fs : FileSystem) (tmp : string) (files : list string)
    : Result (list (string * Z)) :=
  match files with
  | [] => Ok []
  | f :: files' =>
      bindR (stat fs (join tmp f)) (fun t =>
      bindR (stat_all fs tmp files') (fun rest => Ok ((f, t) :: rest)))
  end.

(** The loop of lines 25-27; a failed [unlink] is ignored. *)
Definition unlink_each (fs : FileSystem) (tmp : string) (doomed : list (string * Z))
    : FileSystem :=
  fold_left (fun fs' ft =>
    match unlink fs' (join tmp (fst ft)) with
    | Ok fs'' => fs''
    | Err _ => fs'
    end) doomed fs.

(** [rotateSessions]: the names kept (as logged) and the files left. *)
Definition rotateSessions (fs : FileSystem) : Result (list string) * FileSystem :=
  let tmp := "/tmp" in
  let files :=
    filter (fun f => Is_true (Str.endsWith ".json" f))
      match readdir fs tmp with Ok names => names | Err _ => [] end in
  match stat_all fs tmp files with
  | Err e => (Err e, fs)
  | Ok stats =>
      let sorted := sort (fun a b => (snd b - snd a)%Z) stats in
      let keep := map fst (firstn 3 sorted) in
      (Ok keep, unlink_each fs tmp (skipn 3 sorted))
  end.

(** *** doRun

    The process is single-threaded: code runs from one [await] to the
    next without interruption.  A call of [doRun] runs to its first
    [await]; each later step resumes one suspended call with the
    outcome of what it awaited and runs it to its next [await] or to
    its [return]. *)

Inductive Source : Type := Startup | Interval | Manual.

(** The [await]s of [doRun], all inside its [try]. *)
Inductive Await : Type :=
| AwaitRotate                (* await rotateSessions() *)
| AwaitLogin                 (* await loginAndDiscover() *)
| AwaitReadMap               (* await fs.readFile(apiMapPath) *)
| AwaitHealth                (* await fetch(.../health).catch(...) *)
| AwaitTrigger               (* await fetch(.../trigger-fetch) *)
| AwaitJson (res_ok : bool). (* await res.json().catch(...) *)

(** How an awaited promise settles; a resolved [fetch] carries [res.ok]. *)
Inductive Settled : Type :=
| Resolved (res_ok : bool)
| Rejected (message : string).

(** The object [doRun] returns, without its payload. *)
Record Reply : Type := {
  ok : bool;
  message : string
}.

Record Process : Type := {
  runLock : bool;
  (* the calls of doRun that are suspended, and where *)
  suspended : list (nat * Await);
  (* the number of calls of doRun so far; the next one gets this id *)
  calls : nat;
  (* how often loginAndDiscover was called *)
  logins : nat;
  (* what each finished call returned *)
  replies : list (nat * Reply)
}.

Definition boot : Process :=
  {| runLock := false; suspended := []; calls := 0; logins := 0; replies := [] |}.

(** A call [doRun(source)], up to its first [await] or its [return]. *)
Definition doRun (p : Process) (source : Source) : Process :=
  let id := calls p in
  if runLock p then
    {| runLock := runLock p;
       suspended := suspended p;
       calls := S id;
       logins := logins p;
       replies := replies p ++ [(id, {| ok := false; message := "Run in progress" |})] |}
  else
    {| runLock := true;
       suspended := suspended p ++ [(id, AwaitRotate)];
       calls := S id;
       logins := logins p;
       replies := replies p |}.

Definition drop_call (id : nat) (l : list (nat * Await)) : list (nat * Await) :=
  filter (fun ia => fst ia ≠ id) l.

Definition move_call (id : nat) (a : Await) (l : list (nat * Await)) : list (nat * Await) :=
  map (fun ia => if bool_decide (fst ia = id) then (id, a) else ia) l.

(** The call goes on to its next [await]. *)
Definition proceed (p : Process) (id : nat) (a : Await) (login : bool) : Process :=
  {| runLock := runLock p;
     suspended := move_call id a (suspended p);
     calls := calls p;
     logins := if login then S (logins p) else logins p;
     replies := replies p |}.

(** The call returns [r]; its [finally] runs on the way out. *)
Definition finish (p : Process) (id : nat) (r : Reply) : Process :=
  {| runLock := false;
     suspended := drop_call id (suspended p);
     calls := calls p;
     logins := logins p;
     replies := replies p ++ [(id, r)] |}.

(** The code between the [await] the call is suspended at and the
    next one. *)
Definition continue (p : Process) (id : nat) (at_ : Await) (s : Settled) : Process :=
  match at_, s with
  | AwaitRotate, Resolved _ => proceed p id AwaitLogin true
  | AwaitLogin, Resolved _ => proceed p id AwaitReadMap false
  | AwaitReadMap, _ => proceed p id AwaitHealth false       (* try { ... } catch {} *)
  | AwaitHealth, _ => proceed p id AwaitTrigger false       (* .catch(() => null) *)
  | AwaitTrigger, Resolved res_ok => proceed p id (AwaitJson res_ok) false
  | AwaitJson res_ok, _ =>                                   (* .catch(() => ({})) *)
      if negb res_ok
      then finish p id {| ok := false; message := "Export trigger failed" |}
      else finish p id {| ok := true; message := "Run started" |}
  | AwaitRotate, Rejected e
  | AwaitLogin, Rejected e
  | AwaitTrigger, Rejected e => finish p id {| ok := false; message := e |}
  end.

Definition where_is (p : Process) (id : nat) : option Await :=
  snd <$> find (fun ia => bool_decide (fst ia = id)) (suspended p).

(** A promise awaited by call [id] settles. *)
Definition resume (p : Process) (id : nat) (s : Settled) : Process :=
  match where_is p id with
  | Some at_ => continue p id at_ s
  | None => p
  end.

(** What the event loop delivers. *)
Inductive Tick : Type :=
| Call (source : Source)         (* the timer, the start-up, a POST *)
| Settle (id : nat) (s : Settled).

Definition tick (p : Process) (t : Tick) : Process :=
  match t with
  | Call source => doRun p source
  | Settle id s => resume p id s
  end.

Definition run (ticks : list Tick) : Process := fold_left tick ticks boot.

(** The status of [POST /login-and-run]. *)
Definition status (r : Reply) : nat := if ok r then 200 else 500.

End Scheduler.

(** ** Vocabulary of the statements *)

(** Every code unit, for properties checked unit by unit. *)
Definition all_ascii : list ascii := map ascii_of_nat (seq 0 256).

(** A text without capital letters, as [toLowerCase] returns. *)
Definition no_capital (s : string) : bool := Str.all (fun c => negb (Str.is_upper c)) s.

(** The cursor once the word [w] has been read off the input. *)
Fixpoint advance (icase : bool) (w : string) (cur : Regex.cursor) : option Regex.cursor :=
  match w with
  | EmptyString => Some cur
  | String c w' =>
      match Regex.ahead cur with
      | String d s' =>
          if Regex.same icase c d
          then advance icase w' (Regex.Cursor (Some d) s' (Regex.captures cur))
          else None
      | EmptyString => None
      end
  end.

(** The cursor after the first of the words [ws] that can be read. *)
Fixpoint first_advance (icase : bool) (ws : list string) (cur : Regex.cursor)
    : option Regex.cursor :=
  match ws with
  | [] => None
  | w :: ws' =>
      match advance icase w cur with
      | Some cur' => Some cur'
      | None => first_advance icase ws' cur
      end
  end.

(** [w] is the report-tab word met first when [lower] is read from the
    left: it stands at some offset, and no word of the vocabulary
    stands at a smaller one. *)
Definition leftmost_tab (lower w : string) : Prop :=
  w ∈ DiscoverApi.tabs /\
  exists i, Str.occurs_at w lower i /\
    forall j w', j < i -> w' ∈ DiscoverApi.tabs -> ~ Str.occurs_at w' lower j.

(** Some word of the vocabulary stands somewhere in [lower]. *)
Definition has_tab (lower : string) : Prop :=
  exists w, w ∈ DiscoverApi.tabs /\ Str.includes w lower = true.

(** No record of the candidate group has an export keyword in its
    lowered path. *)
Definition candidates_clean (c : DiscoverApi.Collector) : Prop :=
  forall k v,
    DiscoverApi.candidateEndpoints (DiscoverApi.apiMap c) !! k = Some v ->
    DiscoverApi.is_export (Str.toLowerCase (DiscoverApi.path v)) = false.

(** The records of the requests that the handler gets to record. *)
Definition records (URL : string -> option DiscoverApi.Location)
    (requests : list DiscoverApi.Request) : list DiscoverApi.EndpointInfo :=
  omap (DiscoverApi.info_of URL) requests.

(** A list without its repetitions, each element where it came first. *)
Definition add_new {A} `{EqDecision A} (acc : list A) (x : A) : list A :=
  if bool_decide (x ∈ acc) then acc else acc ++ [x].

Definition first_seen {A} `{EqDecision A} (l : list A) : list A :=
  fold_left add_new l [].

(** The three groups of a map. *)
Definition groups_of (m : DiscoverApi.ApiMap)
    : gmap string DiscoverApi.EndpointInfo * gmap string DiscoverApi.EndpointInfo
      * gmap string DiscoverApi.EndpointInfo :=
  (DiscoverApi.exportEndpoints m, DiscoverApi.candidateEndpoints m,
   DiscoverApi.documentEndpoints m).

(** The record is held by one of the three groups. *)
Definition in_a_group (m : DiscoverApi.ApiMap) (info : DiscoverApi.EndpointInfo) : Prop :=
  exists k,
    DiscoverApi.exportEndpoints m !! k = Some info \/
    DiscoverApi.candidateEndpoints m !! k = Some info \/
    DiscoverApi.documentEndpoints m !! k = Some info.

(** The code unit before the end of [pre], or [prev] when [pre] is empty. *)
Fixpoint last_or (prev : option ascii) (pre : string) : option ascii :=
  match pre with
  | EmptyString => prev
  | String c pre' => last_or (Some c) pre'
  end.

(** [d] is a six-digit number standing at offset [i] of a text that
    follows the code unit [prev]: six digits with no word character
    right before or right after them. *)
Definition otp_at_from (prev : option ascii) (text d : string) (i : nat) : Prop :=
  exists pre post,
    text = pre +:+ d +:+ post /\ String.length pre = i /\
    String.length d = 6 /\ Str.all Str.is_digit d = true /\
    Regex.wordy (last_or prev pre) = false /\
    Regex.wordy (Str.head post) = false.

Definition otp_at (text d : string) (i : nat) : Prop := otp_at_from None text d i.

(** The same, decided at offset 0. *)
Definition six_digits_here (prev : option ascii) (s : string) : bool :=
  negb (Regex.wordy prev) &&
  (String.length (Str.take 6 s) =? 6) && Str.all Str.is_digit (Str.take 6 s) &&
  negb (Regex.wordy (Str.head (Str.drop 6 s))).

(** The size of what is on the stack of [Login.walk]. *)
Definition weights (stack : list (option Login.MessagePart)) : nat :=
  list_sum (map Login.weight_of stack).

(** A mailbox whose newest message has the given snippet and one body. *)
Definition mailbox_with (snippet_text body : string) : Login.Mailbox :=
  {| Login.credentials := true;
     Login.listed := Ok (Some ["m1"; "m0"]);
     Login.fetched := fun _ =>
       Ok {| Login.snippet := Some snippet_text;
             Login.payload := Some (Login.Part None [Login.Part (Some body) []]) |} |}.




(** The login page itself, right after a code was refused: its URL is on
    the expected domain, nothing else speaks for a login. *)
Definition still_on_login_page : Login.Browser :=
  {| Login.before_try := Ok tt;
     Login.reach_otp_field := Ok tt;
     Login.mailbox := fun _ => mailbox_with "" "Your code is 482913 today";
     Login.fill_otp := Ok tt;
     Login.submit_otp := Ok tt;
     Login.currentUrl := "https://login.pwc.com/login/";
     Login.cookies := [];
     Login.selector_found := fun sel => bool_decide (sel = "body");
     Login.bodyText := Some "Sign in";
     Login.discover_and_save :=
       Ok {| Login.sessionId := "s1"; Login.sessionPath := "/tmp/pwc/s1.json";
             Login.apiMapPath := "/tmp/pwc/pwc_api_map_s1.json" |} |}.

(** Gmail answers with a code at the third call only. *)
Definition slow_mail : Login.Browser :=
  {| Login.before_try := Ok tt;
     Login.reach_otp_field := Ok tt;
     Login.mailbox := fun n =>
       if n <? 2
       then {| Login.credentials := true; Login.listed := Ok None;
               Login.fetched := fun _ => Err "404" |}
       else mailbox_with "" "Your code is 482913 today";
     Login.fill_otp := Ok tt;
     Login.submit_otp := Ok tt;
     Login.currentUrl := "https://compliancenominationportal.in.pwc.com/BGVAdmin/BGVDashboard";
     Login.cookies := [];
     Login.selector_found := fun sel => bool_decide (sel = "table");
     Login.bodyText := None;
     Login.discover_and_save :=
       Ok {| Login.sessionId := "s1"; Login.sessionPath := "/tmp/pwc/s1.json";
             Login.apiMapPath := "/tmp/pwc/pwc_api_map_s1.json" |} |}.

(** Gmail never has a message. *)
Definition no_mail : Login.Browser :=
  {| Login.before_try := Ok tt;
     Login.reach_otp_field := Ok tt;
     Login.mailbox := fun _ =>
       {| Login.credentials := true; Login.listed := Ok None;
          Login.fetched := fun _ => Err "404" |};
     Login.fill_otp := Ok tt;
     Login.submit_otp := Ok tt;
     Login.currentUrl := "https://login.pwc.com/login/";
     Login.cookies := [];
     Login.selector_found := fun _ => false;
     Login.bodyText := None;
     Login.discover_and_save := Err "unreached" |}.

(** The lock is held exactly while one call of [doRun] is suspended
    inside its [try]; no second call ever is. *)
Definition lock_held_by_one (p : Scheduler.Process) : Prop :=
  (Scheduler.runLock p = true /\
   exists id at_, Scheduler.suspended p = [(id, at_)] /\ id < Scheduler.calls p) \/
  (Scheduler.runLock p = false /\ Scheduler.suspended p = []).

(** A run is in progress. *)
Definition run_in_progress (p : Scheduler.Process) : Prop :=
  Scheduler.suspended p <> [].

(** Five session files as [getSessionPath] names them, the newest last. *)
Definition five_sessions : gmap string Scheduler.Node :=
  list_to_map
    [ ("/tmp", Scheduler.Dir 6000%Z);
      ("/tmp/pwc", Scheduler.Dir 6000%Z);
      (Login.getSessionPath "/tmp/pwc" "s1", Scheduler.File 1000%Z);
      (Login.getSessionPath "/tmp/pwc" "s2", Scheduler.File 2000%Z);
      (Login.getSessionPath "/tmp/pwc" "s3", Scheduler.File 3000%Z);
      (Login.getSessionPath "/tmp/pwc" "s4", Scheduler.File 4000%Z);
      (Login.getSessionPath "/tmp/pwc" "s5", Scheduler.File 5000%Z) ].

(** Five files that [rotateSessions] does see. *)
Definition five_in_tmp : gmap string Scheduler.Node :=
  list_to_map
    [ ("/tmp", Scheduler.Dir 6000%Z);
      ("/tmp/c.json", Scheduler.File 3000%Z);
      ("/tmp/a.json", Scheduler.File 1000%Z);
      ("/tmp/e.json", Scheduler.File 5000%Z);
      ("/tmp/b.json", Scheduler.File 2000%Z);
      ("/tmp/d.json", Scheduler.File 4000%Z);
      ("/tmp/notes.txt", Scheduler.File 500%Z) ].

(** How many times [/] occurs in a path. *)
Fixpoint slashes (s : string) : nat :=
  match s with
  | EmptyString => 0
  | String c s' => (if bool_decide (c = "/"%char) then 1 else 0) + slashes s'
  end.

(** [a] comes before [b] when files are listed newest first. *)
Definition newer_first (a b : string * Z) : Prop := (snd b <= snd a)%Z.

(** ** More vocabulary: the groups of the endpoint map *)

(** The branch of lines 697-708 a record takes. *)
Inductive Group : Type := Export | Candidate | Document.

#[global] Instance Group_eq_dec : EqDecision Group.
Proof. solve_decision. Defined.

(** [None]: the record goes to no group. *)
Definition group_of (info : DiscoverApi.EndpointInfo) : option Group :=
  let lower := Str.toLowerCase (DiscoverApi.path info) in
  if DiscoverApi.is_export lower then Some Export
  else if DiscoverApi.is_candidate lower then Some Candidate
  else if DiscoverApi.is_document lower then Some Document
  else None.

(** The key a record is stored under in its group. *)
Definition key_of (info : DiscoverApi.EndpointInfo) : string :=
  match group_of info with
  | Some Export => DiscoverApi.export_key info
  | _ => DiscoverApi.path info
  end.

(** The dictionary of a group. *)
Definition entries (g : Group) (m : DiscoverApi.ApiMap) : gmap string DiscoverApi.EndpointInfo :=
  match g with
  | Export => DiscoverApi.exportEndpoints m
  | Candidate => DiscoverApi.candidateEndpoints m
  | Document => DiscoverApi.documentEndpoints m
  end.

(** The record goes to group [g] under key [k]. *)
Definition goes_to (g : Group) (k : string) (info : DiscoverApi.EndpointInfo) : bool :=
  bool_decide (group_of info = Some g) && bool_decide (key_of info = k).

(** The last element of a list that passes a test. *)
Definition later {A} (p : A -> bool) (acc : option A) (x : A) : option A :=
  if p x then Some x else acc.

Definition last_such {A} (p : A -> bool) (l : list A) : option A :=
  fold_left (later p) l None.

(** ** More vocabulary: the one-time code, part by part *)

(** The first six-digit number of a text that follows the code unit
    [prev], read off from left to right. *)
Fixpoint scan (prev : option ascii) (s : string) : option string :=
  if six_digits_here prev s then Some (Str.take 6 s)
  else match s with
       | EmptyString => None
       | String c s' => scan (Some c) s'
       end.

(** The code of the first text that has one. *)
Fixpoint first_code (parts : list string) : Result string :=
  match parts with
  | [] => Err "OTP code not found in email body (expected 6-digit code)"
  | p :: ps =>
      match Login.extract_otp p with
      | Ok d => Ok d
      | Err _ => first_code ps
      end
  end.

(** ** More vocabulary: file names in a directory *)

(** A segment that [path.join] takes as it is: not empty, no dot
    segment, no slash in it. *)
Definition file_name (segment : string) : Prop :=
  segment <> EmptyString /\ segment <> "." /\ segment <> ".." /\
  Str.includes "/" segment = false.

(** What [path.join] puts in front of a file name for a directory:
    the directory normalized, with its slash. *)
Definition in_directory (dir : string) : string :=
  let isAbsolute := Str.startsWith "/" dir in
  let res := fold_left (Path.step (negb isAbsolute)) (Path.split dir) [] in
  (if isAbsolute then "/" else EmptyString) +:+
  match res with
  | [] => EmptyString
  | _ => Str.join "/" (rev res) +:+ "/"
  end.

(** A directory written the normal way, other than the root and [.]. *)
Definition normal_directory (dir : string) : Prop :=
  Path.normalize dir = dir /\ dir <> "." /\ Str.endsWith "/" dir = false.

(** ** More vocabulary: trying selectors in turn *)

(** What the page answers inside [tryFill] and [tryClick]: whether
    [page.waitForSelector(sel, { timeout: 4000 })] resolves, and whether
    the [page.fill] or [page.click] that follows does. *)
Record Page : Type := {
  appears : string -> bool;
  accepts : string -> bool
}.

(** What was asked of the page. *)
Inductive Action : Type :=
| WaitFor (sel : string)
| FillIn (sel value : string)
| ClickOn (sel : string).

(** [tryFill(page, selectors, value)]: the value returned and the calls
    made; whatever a call throws sends the loop to the next selector. *)
Fixpoint tryFill (page : Page) (selectors : list string) (value : string)
    : bool * list Action :=
  match selectors with
  | [] => (false, [])
  | sel :: rest =>
      if appears page sel then
        if accepts page sel then (true, [WaitFor sel; FillIn sel value])
        else let '(r, acts) := tryFill page rest value in
             (r, WaitFor sel :: FillIn sel value :: acts)
      else let '(r, acts) := tryFill page rest value in (r, WaitFor sel :: acts)
  end.

(** [tryClick(page, selectors)] *)
Fixpoint tryClick (page : Page) (selectors : list string) : bool * list Action :=
  match selectors with
  | [] => (false, [])
  | sel :: rest =>
      if appears page sel then
        if accepts page sel then (true, [WaitFor sel; ClickOn sel])
        else let '(r, acts) := tryClick page rest in
             (r, WaitFor sel :: ClickOn sel :: acts)
      else let '(r, acts) := tryClick page rest in (r, WaitFor sel :: acts)
  end.

(** The selector works: it appears and takes the action. *)
Definition works (page : Page) (sel : string) : bool :=
  appears page sel && accepts page sel.

(** The selectors an action was completed on. *)
Definition completed (page : Page) (acts : list Action) : list string :=
  omap (fun a =>
    match a with
    | FillIn sel _ | ClickOn sel => if works page sel then Some sel else None
    | WaitFor _ => None
    end) acts.

(** ** More vocabulary: the files of [/tmp] *)

(** The entries of [/tmp] that [rotateSessions] looks at. *)
Definition json_entries (fs : gmap string Scheduler.Node) : list string :=
  filter (fun f => Is_true (Str.endsWith ".json" f))
    match Scheduler.readdir fs "/tmp" with Ok names => names | Err _ => [] end.

(** The modification time of the entry [f] of [/tmp]. *)
Definition mtime_of (fs : gmap string Scheduler.Node) (f : string) : Z :=
  default 0%Z (Scheduler.mtime <$> fs !! Scheduler.join "/tmp" f).

(** The entry is a regular file. *)
Definition regular (fs : gmap string Scheduler.Node) (f : string) : Prop :=
  exists t, fs !! Scheduler.join "/tmp" f = Some (Scheduler.File t).

(** Every call of [doRun] made so far, in the order of its number. *)
Definition accounted (p : Scheduler.Process) : list nat :=
  map fst (Scheduler.replies p) ++ map fst (Scheduler.suspended p).

(** The triggers among the ticks. *)
Definition is_trigger (t : Scheduler.Tick) : bool :=
  match t with Scheduler.Call _ => true | Scheduler.Settle _ _ => false end.

Definition triggers (ticks : list Scheduler.Tick) : nat :=
  length (List.filter is_trigger ticks).

(** How many awaited results a suspended call still needs at most. *)
Definition awaits_left (a : Scheduler.Await) : nat :=
  match a with
  | Scheduler.AwaitRotate => 6
  | Scheduler.AwaitLogin => 5
  | Scheduler.AwaitReadMap => 4
  | Scheduler.AwaitHealth => 3
  | Scheduler.AwaitTrigger => 2
  | Scheduler.AwaitJson _ => 1
  end.

(** Call [id] is given the results [results], one after the other. *)
Definition settle_all (p : Scheduler.Process) (id : nat) (results : list Scheduler.Settled)
    : Scheduler.Process :=
  fold_left (fun p s => Scheduler.resume p id s) results p.

(** A reply that says [ok] is the one of line 70. *)
Definition honest (r : Scheduler.Reply) : Prop :=
  Scheduler.ok r = true -> Scheduler.message r = "Run started".

(** ** chromiumLaunchOptions (login.js) *)

(** The white space [String.prototype.trim] removes, among the code
    units a [string] here can hold: TAB, LF, VT, FF, CR, SP and NBSP. *)
Definition is_space (c : ascii) : bool :=
  let n := Str.code c in
  ((9 <=? n) && (n <=? 13)) || (n =? 32) || (n =? 160).

Fixpoint trimStart (s : string) : string :=
  match s with
  | EmptyString => EmptyString
  | String c rest => if is_space c then trimStart rest else s
  end.

Fixpoint trimEnd (s : string) : string :=
  match s with
  | EmptyString => EmptyString
  | String c rest =>
      match trimEnd rest with
      | EmptyString => if is_space c then EmptyString else String c EmptyString
      | kept => String c kept
      end
  end.

Definition trim (s : string) : string := trimEnd (trimStart s).

(** [process.env]: a variable that is not set reads as [undefined]. *)
Abbreviation Env := (gmap string string).

(** A value of [process.env] in a condition: [undefined] and the empty
    string are falsy. *)
Definition truthy (v : option string) : bool :=
  match v with
  | Some (String _ _) => true
  | _ => false
  end.

Record LaunchOptions : Type := {
  headless : bool;
  args : list string;
  executablePath : option string
}.

Definition with_executablePath (o : LaunchOptions) (p : string) : LaunchOptions :=
  {| headless := headless o; args := args o; executablePath := Some p |}.

(** Lines 135-137: the path of the environment, when it is not blank. *)
Definition use_path (o : LaunchOptions) (env : Env) : LaunchOptions :=
  match env !! "CHROMIUM_PATH" with
  | Some v =>
      if truthy (Some v) && negb (String.eqb (trim v) EmptyString)
      then with_executablePath o (trim v)
      else o
  | None => o
  end.

(** [require] in [login.js].  The file is an ES module (it has
    [import] and [export] declarations, lines 105-111 and 329), and in
    the scope of an ES module Node binds no [require]: evaluating the
    name throws a [ReferenceError]. *)
Definition require (id : string) : Result unit :=
  Err "ReferenceError: require is not defined in ES module scope".

(** [chromiumLaunchOptions()].  [execSync] is what the shell command of
    line 127 would print, or the error it would throw, were it run:
    the function gets to it only when [CHROMIUM_PATH] is falsy and
    [require] has returned.  The result is the object returned and
    [process.env] afterwards. *)
Definition chromiumLaunchOptions (execSync : Result string) (env : Env)
    : LaunchOptions * Env :=
  let o := {| headless := true;
              args := ["--no-sandbox"; "--disable-setuid-sandbox"];
              executablePath := None |} in
  let env :=
    if negb (truthy (env !! "PLAYWRIGHT_SKIP_VALIDATE_HOST_REQUIREMENTS"))
    then <["PLAYWRIGHT_SKIP_VALIDATE_HOST_REQUIREMENTS" := "1"]> env
    else env in
  if negb (truthy (env !! "CHROMIUM_PATH")) then
    match require "child_process" with
    | Ok _ =>
        match execSync with
        | Ok out =>
            let found := trim out in
            let env :=
              if truthy (Some found) then <["CHROMIUM_PATH" := found]> env else env in
            (use_path o env, env)
        | Err _ => (o, env)                           (* catch (_) {} *)
        end
    | Err _ => (o, env)                               (* catch (_) {} *)
    end
  else (use_path o env, env).

Definition clean_env : Env := {[ "HOME" := "/root" ]}.

Definition configured_env : Env :=
  {[ "CHROMIUM_PATH" := " /usr/bin/chromium " ]}.

(** What the shell prints when it finds a browser. *)
Definition which_output : string :=
  "/usr/bin/chromium" +:+ String (ascii_of_nat 10) EmptyString.

(** * Properties *)

(** ** Code units, one by one *)

Lemma in_all_ascii (c : ascii) : In c all_ascii.
Proof.
  unfold all_ascii. rewrite <- (ascii_nat_embedding c).
  apply in_map, in_seq. pose proof (nat_ascii_bounded c). lia.
Qed.

Lemma for_all_ascii (p : ascii -> bool) :
  forallb p all_ascii = true -> forall c, p c = true.
Proof. intros H c. rewrite forallb_forall in H. apply H, in_all_ascii. Qed.

Ltac each_ascii :=
  match goal with
  | |- forall c : ascii, @?p c = true => apply (for_all_ascii p); vm_compute; reflexivity
  end.

Lemma for_all_ascii2 (p : ascii -> ascii -> bool) :
  forallb (fun c => forallb (p c) all_ascii) all_ascii = true ->
  forall c d, p c d = true.
Proof.
  intros H c d. apply (for_all_ascii (p c)).
  apply (for_all_ascii (fun c => forallb (p c) all_ascii) H).
Qed.

Lemma lower_char_not_upper (c : ascii) : Str.is_upper (Str.lower_char c) = false.
Proof.
  apply negb_true_iff.
  apply (for_all_ascii (fun c => negb (Str.is_upper (Str.lower_char c)))).
  vm_compute. reflexivity.
Qed.


(** Under the flag [i] a small letter of the pattern is matched, in a
    text without capitals, by itself only. *)
Lemma same_small_letter (c d : ascii) :
  Str.is_lower c = true -> Str.is_upper d = false ->
  Regex.same true c d = true -> c = d.
Proof.
  intros Hc Hd Hs.
  pose proof (for_all_ascii2
    (fun c d => implb (Str.is_lower c) (implb (negb (Str.is_upper d))
       (implb (Regex.same true c d) (bool_decide (c = d)))))) as H.
  specialize (H ltac:(vm_compute; reflexivity) c d). cbv beta in H.
  rewrite Hc, Hd, Hs in H. simpl in H. by apply bool_decide_eq_true in H.
Qed.

Lemma same_refl (icase : bool) (c : ascii) : Regex.same icase c c = true.
Proof. unfold Regex.same. destruct icase; by apply bool_decide_eq_true. Qed.

(** ** Strings *)


Lemma append_assoc (a b c : string) : (a +:+ b) +:+ c = a +:+ b +:+ c.
Proof. induction a; simpl; congruence. Qed.

Lemma length_append (a b : string) :
  String.length (a +:+ b) = String.length a + String.length b.
Proof. induction a; simpl; congruence. Qed.



Lemma toLowerCase_no_capital (s : string) : no_capital (Str.toLowerCase s) = true.
Proof.
  induction s; simpl; [done|].
  unfold no_capital in *. simpl. by rewrite lower_char_not_upper, IHs.
Qed.

Lemma startsWith_spec (w s : string) :
  Str.startsWith w s = true <-> exists post, s = w +:+ post.
Proof.
  revert s. induction w as [|a w IH]; intros s; simpl.
  - split; eauto.
  - destruct s as [|b s].
    + split; [done|]. by intros [post H].
    + destruct (ascii_dec a b) as [->|Hne].
      * rewrite IH. split; intros [post H]; exists post; simpl in *; congruence.
      * split; [done|]. intros [post H]. simpl in H. congruence.
Qed.

Lemma startsWith_take (w s : string) :
  Str.startsWith w s = true -> Str.take (String.length w) s = w.
Proof.
  revert s. induction w as [|a w IH]; intros s; simpl.
  - by destruct s.
  - destruct s as [|b s]; [done|].
    destruct (ascii_dec a b) as [->|]; [|done]. intros H. by rewrite IH.
Qed.

Lemma drop_append (pre s : string) : Str.drop (String.length pre) (pre +:+ s) = s.
Proof. induction pre; simpl; [by destruct s|done]. Qed.

Lemma take_drop (n : nat) (s : string) : Str.take n s +:+ Str.drop n s = s.
Proof.
  revert s. induction n as [|n IH]; intros s; simpl; [by destruct s|].
  destruct s; simpl; [done|]. by rewrite IH.
Qed.


Lemma occurs_at_0 (w s : string) :
  Str.occurs_at w s 0 <-> Str.startsWith w s = true.
Proof.
  rewrite startsWith_spec. split.
  - intros (pre & post & -> & Hl). destruct pre; [|done]. by exists post.
  - intros [post ->]. by exists EmptyString, post.
Qed.

Lemma occurs_at_S (w : string) (c : ascii) (s : string) (i : nat) :
  Str.occurs_at w (String c s) (S i) <-> Str.occurs_at w s i.
Proof.
  split.
  - intros (pre & post & H & Hl). destruct pre as [|a pre]; [done|].
    simpl in *. exists pre, post. split; congruence.
  - intros (pre & post & -> & Hl). exists (String c pre), post. simpl. by rewrite Hl.
Qed.

Lemma occurs_at_empty (w : string) (i : nat) :
  Str.occurs_at w EmptyString (S i) -> False.
Proof. intros (pre & post & H & Hl). by destruct pre. Qed.

Lemma includes_spec (w s : string) :
  Str.includes w s = true <-> exists i, Str.occurs_at w s i.
Proof.
  induction s as [|c s IH]; simpl.
  - rewrite orb_false_r, <- occurs_at_0. split; [eauto|].
    intros [[|i] H]; [done|]. by apply occurs_at_empty in H.
  - rewrite orb_true_iff, IH, <- occurs_at_0. split.
    + intros [H|[i H]]; [eauto|]. exists (S i). by apply occurs_at_S.
    + intros [[|i] H]; [by left|]. right. exists i. by apply occurs_at_S in H.
Qed.

Lemma includes_append (w pre post : string) :
  Str.includes w (pre +:+ w +:+ post) = true.
Proof. apply includes_spec. by exists (String.length pre), pre, post. Qed.

(** ** The matcher on words and alternatives *)

#[local] Arguments Regex.same : simpl never.

Lemma run_word (icase : bool) (w : string) (cur : Regex.cursor)
    (k : Regex.cursor -> option Regex.cursor) :
  Regex.run icase (Regex.word w) cur k = advance icase w cur ≫= k.
Proof.
  revert cur. induction w as [|c w IH]; intros cur; simpl; [done|].
  destruct (Regex.ahead cur) as [|d s']; [done|].
  destruct (Regex.same icase c d); [apply IH|done].
Qed.

Lemma run_any_of (icase : bool) (ws : list string) (cur : Regex.cursor)
    (k : Regex.cursor -> option Regex.cursor) :
  ws <> [] -> (forall c, is_Some (k c)) ->
  Regex.run icase (Regex.any_of ws) cur k = first_advance icase ws cur ≫= k.
Proof.
  intros Hne Hk. induction ws as [|w ws IH]; [done|].
  destruct ws as [|w2 ws].
  - simpl. rewrite run_word. by destruct (advance icase w cur).
  - change (Regex.any_of (w :: w2 :: ws))
      with (Regex.Alt (Regex.word w) (Regex.any_of (w2 :: ws))).
    simpl Regex.run. rewrite run_word. simpl first_advance.
    destruct (advance icase w cur) as [cur'|]; simpl.
    + by destruct (Hk cur') as [out ->].
    + by apply IH.
Qed.

Lemma advance_small (w : string) (cur : Regex.cursor) :
  Str.all Str.is_lower w = true -> no_capital (Regex.ahead cur) = true ->
  if Str.startsWith w (Regex.ahead cur)
  then exists cur', advance true w cur = Some cur' /\
         Regex.ahead cur' = Str.drop (String.length w) (Regex.ahead cur) /\
         Regex.captures cur' = Regex.captures cur
  else advance true w cur = None.
Proof.
  revert cur. induction w as [|c w IH]; intros [prev s caps] Hw Hs; simpl in *.
  - exists (Regex.Cursor prev s caps). by destruct s.
  - apply andb_true_iff in Hw as [Hc Hw].
    destruct s as [|d s]; [done|].
    unfold no_capital in Hs. simpl in Hs.
    apply andb_true_iff in Hs as [Hd Hs]. apply negb_true_iff in Hd.
    destruct (ascii_dec c d) as [->|Hne].
    + rewrite same_refl. apply (IH (Regex.Cursor (Some d) s caps) Hw Hs).
    + destruct (Regex.same true c d) eqn:Hsame; [|done].
      by apply same_small_letter in Hsame.
Qed.

Lemma first_advance_small (ws : list string) (cur : Regex.cursor) :
  Forall (fun w => Str.all Str.is_lower w = true) ws ->
  no_capital (Regex.ahead cur) = true ->
  match find (fun w => Str.startsWith w (Regex.ahead cur)) ws with
  | Some w => exists cur', first_advance true ws cur = Some cur' /\
                Regex.ahead cur' = Str.drop (String.length w) (Regex.ahead cur) /\
                Regex.captures cur' = Regex.captures cur
  | None => first_advance true ws cur = None
  end.
Proof.
  intros Hws Hs. induction Hws as [|w ws Hw Hws IH]; simpl; [done|].
  pose proof (advance_small w cur Hw Hs) as H.
  destruct (Str.startsWith w (Regex.ahead cur)).
  - destruct H as (cur' & -> & H). by exists cur'.
  - by rewrite H.
Qed.

Lemma tabs_small : Forall (fun w => Str.all Str.is_lower w = true) DiscoverApi.tabs.
Proof. repeat constructor. Qed.

(** What the tab pattern does at one offset. *)
Lemma tab_pattern_here (prev : option ascii) (s : string) :
  no_capital s = true ->
  match find (fun w => Str.startsWith w s) DiscoverApi.tabs with
  | Some w => exists cur',
      Regex.run true DiscoverApi.tab_pattern (Regex.Cursor prev s []) Some = Some cur' /\
      Regex.ahead cur' = Str.drop (String.length w) s
  | None => Regex.run true DiscoverApi.tab_pattern (Regex.Cursor prev s []) Some = None
  end.
Proof.
  intros Hs. unfold DiscoverApi.tab_pattern. cbn [Regex.run].
  rewrite run_any_of; [|done|by eauto].
  pose proof (first_advance_small DiscoverApi.tabs (Regex.Cursor prev s []) tabs_small Hs) as H.
  simpl Regex.ahead in H.
  destruct (find _ DiscoverApi.tabs) as [w|].
  - destruct H as (cur' & -> & Ha & _). simpl. eexists. split; [done|]. by simpl.
  - by rewrite H.
Qed.

Lemma drop_length (n : nat) (s : string) :
  String.length (Str.drop n s) = String.length s - n.
Proof.
  revert s. induction n as [|n IH]; intros s; simpl; [by destruct s; simpl; lia|].
  destruct s; simpl; [done|]. by rewrite IH.
Qed.

Lemma startsWith_length (w s : string) :
  Str.startsWith w s = true -> String.length w <= String.length s.
Proof. intros [post ->]%startsWith_spec. rewrite length_append. lia. Qed.

(** What [exec] returns for the tab pattern on a text without capitals:
    the word standing at the smallest offset. *)
Lemma tab_search (s : string) (prev : option ascii) (i : nat) :
  no_capital s = true ->
  match Regex.search true DiscoverApi.tab_pattern prev s i with
  | Some m => exists j,
      Regex.index m = i + j /\ Regex.whole m ∈ DiscoverApi.tabs /\
      Str.occurs_at (Regex.whole m) s j /\
      forall j' w', j' < j -> w' ∈ DiscoverApi.tabs -> ~ Str.occurs_at w' s j'
  | None => forall j w, w ∈ DiscoverApi.tabs -> ~ Str.occurs_at w s j
  end.
Proof.
  revert prev i. induction s as [|c s IH]; intros prev i Hs.
  - pose proof (tab_pattern_here prev EmptyString Hs) as H.
    unfold Regex.search.
    destruct (find _ DiscoverApi.tabs) as [w|] eqn:Hfind.
    + apply find_some in Hfind as [Hin Hst]. by repeat destruct Hin as [<-|Hin].
    + rewrite H. intros [|j] w Hw Ho; [|by apply occurs_at_empty in Ho].
      apply occurs_at_0 in Ho. apply list_elem_of_In in Hw.
      pose proof (find_none _ _ Hfind w Hw) as Hn. simpl in Hn. congruence.
  - pose proof (tab_pattern_here prev (String c s) Hs) as H.
    cbn [Regex.search].
    destruct (find _ DiscoverApi.tabs) as [w|] eqn:Hfind.
    + destruct H as (cur' & -> & Ha). apply find_some in Hfind as [Hin Hst].
      exists 0. cbn [Regex.index Regex.whole]. rewrite Ha, drop_length.
      pose proof (startsWith_length _ _ Hst) as Hlen.
      replace (String.length (String c s) - (String.length (String c s) - String.length w))
        with (String.length w) by lia.
      rewrite (startsWith_take _ _ Hst).
      split; [lia|]. split; [by apply list_elem_of_In|].
      split; [by apply occurs_at_0|]. intros; lia.
    + rewrite H.
      assert (no_capital s = true) as Hs'.
      { unfold no_capital in *. simpl in Hs. by apply andb_true_iff in Hs as [_ ?]. }
      specialize (IH (Some c) (S i) Hs').
      assert (forall w, w ∈ DiscoverApi.tabs -> ~ Str.occurs_at w (String c s) 0) as H0.
      { intros w Hw Ho. apply occurs_at_0 in Ho. apply list_elem_of_In in Hw.
        pose proof (find_none _ _ Hfind w Hw) as Hn. simpl in Hn. congruence. }
      destruct (Regex.search true DiscoverApi.tab_pattern (Some c) s (S i)) as [m|].
      * destruct IH as (j & Hi & Hin & Ho & Hmin). exists (S j).
        split; [lia|]. split; [done|]. split; [by apply occurs_at_S|].
        intros [|j'] w' Hlt Hw' Ho'; [by apply (H0 w')|].
        apply occurs_at_S in Ho'. apply (Hmin j' w'); [lia|done..].
      * intros [|j] w Hw Ho; [by apply (H0 w)|].
        apply occurs_at_S in Ho. by apply (IH j w).
Qed.

Lemma startsWith_both (a b s : string) :
  Str.startsWith a s = true -> Str.startsWith b s = true ->
  Str.startsWith a b = true \/ Str.startsWith b a = true.
Proof.
  revert b s. induction a as [|x a IH]; intros b s Ha Hb; [by left|].
  destruct b as [|y b]; [by right|].
  destruct s as [|z s]; [done|]. simpl in *.
  destruct (ascii_dec x z) as [->|]; [|done].
  destruct (ascii_dec y z) as [->|]; [|done].
  destruct (ascii_dec z z); [|done]. by apply (IH b s).
Qed.

(** No word of the vocabulary begins another one. *)
Lemma tabs_prefix_free (w1 w2 : string) :
  w1 ∈ DiscoverApi.tabs -> w2 ∈ DiscoverApi.tabs ->
  Str.startsWith w1 w2 = true -> w1 = w2.
Proof.
  intros H1%list_elem_of_In H2%list_elem_of_In.
  repeat destruct H1 as [<-|H1]; try done;
    repeat destruct H2 as [<-|H2]; try done; vm_compute; congruence.
Qed.

Lemma leftmost_tab_unique (lower w1 w2 : string) :
  leftmost_tab lower w1 -> leftmost_tab lower w2 -> w1 = w2.
Proof.
  intros (Hw1 & i1 & Ho1 & Hm1) (Hw2 & i2 & Ho2 & Hm2).
  destruct (lt_eq_lt_dec i1 i2) as [[Hlt| ->]|Hlt].
  - by destruct (Hm2 i1 w1 Hlt Hw1).
  - destruct Ho1 as (pre1 & post1 & E1 & L1), Ho2 as (pre2 & post2 & E2 & L2).
    assert (Str.startsWith w1 (Str.drop i2 lower) = true) as S1.
    { rewrite E1, <- L1, drop_append. apply startsWith_spec. eauto. }
    assert (Str.startsWith w2 (Str.drop i2 lower) = true) as S2.
    { rewrite E2, <- L2, drop_append. apply startsWith_spec. eauto. }
    destruct (startsWith_both _ _ _ S1 S2) as [H|H].
    + by apply tabs_prefix_free.
    + symmetry. by apply tabs_prefix_free.
  - by destruct (Hm1 i2 w2 Hlt Hw2).
Qed.

(** ** JSON: what is serialised reads back *)

Lemma short_escape_inverse (c : ascii) :
  match JSON.short_escape c with
  | Some e => e <> "u"%char /\ JSON.short_unescape e = Some c
  | None => c <> JSON.dquote /\ c <> JSON.backslash
  end.
Proof.
  assert (forall c,
    match JSON.short_escape c with
    | Some e => negb (bool_decide (e = "u"%char)) &&
                bool_decide (JSON.short_unescape e = Some c)
    | None => negb (bool_decide (c = JSON.dquote)) && negb (bool_decide (c = JSON.backslash))
    end = true) as H by each_ascii.
  specialize (H c). destruct (JSON.short_escape c) as [e|].
  - apply andb_true_iff in H as [H1%negb_true_iff%bool_decide_eq_false H2%bool_decide_eq_true].
    done.
  - apply andb_true_iff in H as [H1%negb_true_iff%bool_decide_eq_false
                                  H2%negb_true_iff%bool_decide_eq_false]. done.
Qed.

Lemma hex_inverse (c : ascii) :
  Str.code c < 32 ->
  JSON.hex_value (JSON.hex_digit (Str.code c / 16)) = Some (Str.code c / 16) /\
  JSON.hex_value (JSON.hex_digit (Str.code c mod 16)) = Some (Str.code c mod 16).
Proof.
  intros Hlt.
  assert (forall c,
    implb (Str.code c <? 32)
      (bool_decide (JSON.hex_value (JSON.hex_digit (Str.code c / 16)) = Some (Str.code c / 16)) &&
       bool_decide (JSON.hex_value (JSON.hex_digit (Str.code c mod 16)) = Some (Str.code c mod 16)))
    = true) as H by each_ascii.
  specialize (H c). apply Nat.ltb_lt in Hlt. rewrite Hlt in H. simpl in H.
  by apply andb_true_iff in H as [H1%bool_decide_eq_true H2%bool_decide_eq_true].
Qed.

Lemma backslash_not_dquote : JSON.backslash <> JSON.dquote.
Proof. done. Qed.

(** One escaped code unit reads back as that code unit. *)
Lemma unquote_escape (c : ascii) (rest v r : string) :
  JSON.unquote rest = Some (v, r) ->
  JSON.unquote (JSON.escape c +:+ rest) = Some (String c v, r).
Proof.
  intros Hrest. unfold JSON.escape.
  pose proof (short_escape_inverse c) as Hs.
  destruct (JSON.short_escape c) as [e|].
  - destruct Hs as (Hu & Hinv). cbn [String.append JSON.unquote].
    rewrite (bool_decide_eq_false_2 _ backslash_not_dquote).
    rewrite (bool_decide_eq_true_2 (JSON.backslash = JSON.backslash) eq_refl).
    rewrite (bool_decide_eq_false_2 _ Hu), Hinv. fold JSON.unquote. by rewrite Hrest.
  - destruct Hs as (Hq & Hb). destruct (Str.code c <? 32) eqn:Hlt.
    + apply Nat.ltb_lt in Hlt. destruct (hex_inverse c Hlt) as [H3 H4].
      cbn [String.append JSON.unquote].
      rewrite (bool_decide_eq_false_2 _ backslash_not_dquote).
      rewrite (bool_decide_eq_true_2 (JSON.backslash = JSON.backslash) eq_refl).
      rewrite (bool_decide_eq_true_2 ("u"%char = "u"%char) eq_refl).
      rewrite H3, H4. change (JSON.hex_value "0") with (Some 0).
      fold JSON.unquote. rewrite Hrest.
      rewrite <- (Nat.div_mod_eq (Str.code c) 16).
      unfold Str.code. by rewrite ascii_nat_embedding.
    + cbn [String.append JSON.unquote].
      rewrite (bool_decide_eq_false_2 _ Hq), (bool_decide_eq_false_2 _ Hb), Hlt.
      fold JSON.unquote. by rewrite Hrest.
Qed.

Lemma unquote_escape_all (s rest : string) :
  JSON.unquote (JSON.escape_all s +:+ String JSON.dquote rest) = Some (s, rest).
Proof.
  induction s as [|c s IH]; [done|].
  cbn [JSON.escape_all]. rewrite append_assoc. by apply unquote_escape.
Qed.

Lemma member_shape (k v rest : string) :
  JSON.member k v +:+ rest =
  String JSON.dquote (JSON.escape_all k +:+ String JSON.dquote
    (String ":" (String JSON.dquote (JSON.escape_all v +:+ String JSON.dquote rest)))).
Proof.
  unfold JSON.member, JSON.quote. cbn [String.append].
  by rewrite !append_assoc; cbn [String.append]; rewrite !append_assoc.
Qed.

Lemma members_last (fuel : nat) (k v : string) :
  JSON.members (S fuel) (JSON.member k v +:+ "}") = Some [(k, v)].
Proof.
  rewrite member_shape. cbn [JSON.members].
  rewrite (bool_decide_eq_true_2 (JSON.dquote = JSON.dquote) eq_refl).
  rewrite unquote_escape_all. cbn. by rewrite unquote_escape_all.
Qed.

Lemma members_more (fuel : nat) (k v rest : string) :
  JSON.members (S fuel) (JSON.member k v +:+ "," +:+ rest) =
  match JSON.members fuel rest with
  | Some ms => Some ((k, v) :: ms)
  | None => None
  end.
Proof.
  rewrite member_shape. cbn [JSON.members].
  rewrite (bool_decide_eq_true_2 (JSON.dquote = JSON.dquote) eq_refl).
  rewrite unquote_escape_all. cbn. by rewrite unquote_escape_all.
Qed.

(** [JSON.parse(JSON.stringify(info))] is [info] again. *)
Lemma JSON_round_trip (info : DiscoverApi.EndpointInfo) :
  DiscoverApi.JSON_parse (DiscoverApi.JSON_stringify info) = Some info.
Proof.
  destruct info as [u m p q]. unfold DiscoverApi.JSON_parse, DiscoverApi.JSON_stringify.
  cbn [DiscoverApi.url DiscoverApi.method DiscoverApi.path DiscoverApi.query].
  set (body := JSON.member "url" u +:+ "," +:+ JSON.member "method" m +:+ "," +:+
               JSON.member "path" p +:+ "," +:+ JSON.member "query" q +:+ "}").
  change ("{" +:+ body) with (String "{" body). unfold JSON.parse_object.
  rewrite (bool_decide_eq_true_2 ("{"%char = "{"%char) eq_refl).
  assert (exists n, String.length body = S (S (S (S n)))) as [n Hn].
  { unfold body. rewrite (member_shape "url" u). cbn [String.length JSON.escape_all JSON.escape].
    cbn. eexists. reflexivity. }
  assert (JSON.members (String.length body) body
          = Some [("url", u); ("method", m); ("path", p); ("query", q)]) as Hm.
  { rewrite Hn. unfold body.
    rewrite !members_more, members_last. reflexivity. }
  assert (match body with
          | String e EmptyString => if bool_decide (e = "}"%char) then Some [] else None
          | _ => JSON.members (String.length body) body
          end = JSON.members (String.length body) body) as ->.
  { unfold body at 1. rewrite (member_shape "url" u). cbn. reflexivity. }
  rewrite Hm. reflexivity.
Qed.

Lemma JSON_stringify_inj (a b : DiscoverApi.EndpointInfo) :
  DiscoverApi.JSON_stringify a = DiscoverApi.JSON_stringify b -> a = b.
Proof.
  intros H. apply (f_equal DiscoverApi.JSON_parse) in H.
  rewrite !JSON_round_trip in H. congruence.
Qed.

Example JSON_stringify_ex :
  DiscoverApi.JSON_stringify (DiscoverApi.Info "https://h/api/x?a=1" "GET" "/api/x" "?a=1")
  = "{" +:+ Login.quoted "url" +:+ ":" +:+ Login.quoted "https://h/api/x?a=1" +:+ ","
        +:+ Login.quoted "method" +:+ ":" +:+ Login.quoted "GET" +:+ ","
        +:+ Login.quoted "path" +:+ ":" +:+ Login.quoted "/api/x" +:+ ","
        +:+ Login.quoted "query" +:+ ":" +:+ Login.quoted "?a=1" +:+ "}".
Proof. vm_compute. reflexivity. Qed.

(** ** The traffic observer *)

Import DiscoverApi.

Lemma is_api_nonempty (url : string) : is_api url = true -> url <> EmptyString.
Proof. by intros H ->. Qed.

Lemma info_of_api (URL : string -> option Location) (request : Request) (u : Location) :
  is_api (request_url request) = true ->
  URL (request_url request) = Some u ->
  info_of URL request =
    Some (Info (request_url request) (request_method request) (pathname u) (search u)).
Proof.
  intros Hapi Hu. unfold info_of. rewrite Hapi, Hu.
  rewrite bool_decide_eq_false_2; [done|by apply is_api_nonempty].
Qed.

Lemma export_key_spec (info : EndpointInfo) :
  let lower := Str.toLowerCase (path info) in
  (has_tab lower -> leftmost_tab lower (export_key info)) /\
  (~ has_tab lower -> export_key info = path info).
Proof.
  intros lower. unfold export_key. fold lower.
  pose proof (tab_search lower None 0 (toLowerCase_no_capital _)) as H.
  unfold Regex.exec.
  destruct (Regex.search true tab_pattern None lower 0) as [m|].
  - destruct H as (j & _ & Hin & Ho & Hmin). split.
    + intros _. split; [done|]. by exists j.
    + intros Hno. destruct Hno. exists (Regex.whole m). split; [done|].
      apply includes_spec. by exists j.
  - split; [|done]. intros (w & Hw & [i Hi]%includes_spec). by destruct (H i w).
Qed.

(** C1. An observed request whose URL carries an API marker and whose
    lowered path contains [export], [download] or [excel] is stored in
    [exportEndpoints], under the report-tab word standing leftmost in
    the lowered path when there is one and under the raw path
    otherwise; the two other groups are left as they were. *)
Theorem C1_export_record_and_key
    (URL : string -> option Location) (c : Collector) (request : Request) (u : Location) :
  is_api (request_url request) = true ->
  URL (request_url request) = Some u ->
  is_export (Str.toLowerCase (pathname u)) = true ->
  let info := Info (request_url request) (request_method request) (pathname u) (search u) in
  let lower := Str.toLowerCase (pathname u) in
  let before := apiMap c in
  let after := apiMap (on_request URL c request) in
  exists key,
    exportEndpoints after = <[key := info]> (exportEndpoints before) /\
    exportEndpoints after !! key = Some info /\
    candidateEndpoints after = candidateEndpoints before /\
    documentEndpoints after = documentEndpoints before /\
    (has_tab lower -> leftmost_tab lower key) /\
    (~ has_tab lower -> key = pathname u).
Proof.
  intros Hapi Hu Hex info lower before after.
  exists (export_key info). subst after. unfold on_request.
  rewrite (info_of_api URL request u Hapi Hu). fold info.
  unfold classify. change (path info) with (pathname u). rewrite Hex.
  cbn [with_export apiMap exportEndpoints candidateEndpoints documentEndpoints with_requests].
  split; [done|]. split; [by rewrite lookup_insert_eq|]. split; [done|]. split; [done|].
  apply (export_key_spec info).
Qed.

Lemma C1_export_record_and_key_witness :
  let request := {| request_url := "https://portal.example/Api/Reports/Export/Rejected/draft?page=2";
                    request_method := "GET" |} in
  let info := Info (request_url request) "GET" "/Api/Reports/Export/Rejected/draft" "?page=2" in
  exists key,
    exportEndpoints (apiMap (on_request serialised_URL (attach "s1" "t0") request))
      = <[key := info]> ∅ /\
    leftmost_tab "/api/reports/export/rejected/draft" key.
Proof.
  intros request info.
  destruct (C1_export_record_and_key serialised_URL (attach "s1" "t0") request
              {| pathname := "/Api/Reports/Export/Rejected/draft"; search := "?page=2" |})
    as (key & H1 & _ & _ & _ & H5 & _).
  - vm_compute; reflexivity.
  - vm_compute; reflexivity.
  - vm_compute; reflexivity.
  - exists key. split; [exact H1|]. apply H5.
    exists "draft". split; [|vm_compute; reflexivity].
    apply list_elem_of_In. simpl. tauto.
Defined.

(** The word found is the one on the left, whatever its rank in the
    vocabulary: here [rejected], although [draft] is listed before it. *)
Example export_key_leftmost :
  export_key (Info "https://portal.example/Api/Reports/Export/Rejected/draft" "GET"
                "/Api/Reports/Export/Rejected/draft" "") = "rejected".
Proof. vm_compute. reflexivity. Qed.

Example export_key_workinprogress :
  export_key (Info "https://portal.example/api/export/WorkInProgress" "GET"
                "/api/export/WorkInProgress" "") = "workinprogress".
Proof. vm_compute. reflexivity. Qed.

Example export_key_raw_path :
  export_key (Info "https://portal.example/api/Excel/All" "GET" "/api/Excel/All" "")
  = "/api/Excel/All".
Proof. vm_compute. reflexivity. Qed.

(** *** Precedence of the export group *)

Lemma classify_clean (c : Collector) (info : EndpointInfo) :
  candidates_clean c -> candidates_clean (classify c info).
Proof.
  intros Hc. unfold classify.
  destruct (is_export _) eqn:Hex; [exact Hc|].
  destruct (is_candidate _); [|by destruct (is_document _)].
  intros k v. cbn [with_candidate apiMap candidateEndpoints].
  rewrite lookup_insert. case_decide as Hk.
  - intros [= <-]. exact Hex.
  - apply Hc.
Qed.

Lemma on_request_clean (URL : string -> option Location) (c : Collector) (request : Request) :
  candidates_clean c -> candidates_clean (on_request URL c request).
Proof.
  intros Hc. unfold on_request. destruct (info_of URL request); [|done].
  by apply classify_clean.
Qed.

Lemma observe_clean (URL : string -> option Location) (c : Collector) (requests : list Request) :
  candidates_clean c -> candidates_clean (observe URL c requests).
Proof.
  revert c. induction requests as [|r rs IH]; intros c Hc; [done|].
  apply IH. by apply on_request_clean.
Qed.

Lemma attach_clean (sessionId now : string) : candidates_clean (attach sessionId now).
Proof. intros k v. simpl. by rewrite lookup_empty. Qed.

(** C2. Export wins over candidate.  Whatever was observed before, a
    request whose lowered path contains an export keyword and also
    [candidate] is stored in the export group under its key; the
    candidate group is not written, and holds that record under no key. *)
Theorem C2_export_takes_precedence
    (URL : string -> option Location) (sessionId now : string)
    (earlier : list Request) (request : Request) (u : Location) :
  is_api (request_url request) = true ->
  URL (request_url request) = Some u ->
  is_export (Str.toLowerCase (pathname u)) = true ->
  Str.includes "candidate" (Str.toLowerCase (pathname u)) = true ->
  let info := Info (request_url request) (request_method request) (pathname u) (search u) in
  let c := observe URL (attach sessionId now) earlier in
  let c' := on_request URL c request in
  exportEndpoints (apiMap c') !! export_key info = Some info /\
  candidateEndpoints (apiMap c') = candidateEndpoints (apiMap c) /\
  forall k, candidateEndpoints (apiMap c') !! k <> Some info.
Proof.
  intros Hapi Hu Hex _ info c c'.
  assert (candidates_clean c') as Hclean.
  { apply on_request_clean, observe_clean, attach_clean. }
  subst c'. unfold on_request in *.
  rewrite (info_of_api URL request u Hapi Hu) in *. fold info in Hclean |- *.
  unfold classify in *. change (path info) with (pathname u) in *. rewrite Hex in *.
  cbn [with_export apiMap exportEndpoints candidateEndpoints with_requests] in *.
  split; [by rewrite lookup_insert_eq|]. split; [done|].
  intros k Hk. apply Hclean in Hk. simpl in Hk. congruence.
Qed.

Lemma C2_export_takes_precedence_witness :
  let request := {| request_url := "https://portal.example/api/candidate/123/export";
                    request_method := "GET" |} in
  let info := Info "https://portal.example/api/candidate/123/export" "GET"
                "/api/candidate/123/export" "" in
  let earlier := [ {| request_url := "https://portal.example/api/candidate/123";
                      request_method := "GET" |} ] in
  let c := observe serialised_URL (attach "s1" "t0") earlier in
  let c' := on_request serialised_URL c request in
  exportEndpoints (apiMap c') !! "/api/candidate/123/export" = Some info /\
  candidateEndpoints (apiMap c') = candidateEndpoints (apiMap c) /\
  forall k, candidateEndpoints (apiMap c') !! k <> Some info.
Proof.
  intros request info earlier.
  apply (C2_export_takes_precedence serialised_URL "s1" "t0" earlier request
           {| pathname := "/api/candidate/123/export"; search := "" |});
    vm_compute; reflexivity.
Defined.

(** *** The list of endpoints *)

#[local] Instance JSON_stringify_Inj : Inj (=) (=) JSON_stringify.
Proof. intros a b. apply JSON_stringify_inj. Qed.

Lemma add_new_elem {A} `{EqDecision A} (acc : list A) (x y : A) :
  y ∈ add_new acc x <-> y ∈ acc \/ y = x.
Proof.
  unfold add_new. case_bool_decide as Hx.
  - split; [by left|]. by intros [?| ->].
  - by rewrite elem_of_app, list_elem_of_singleton.
Qed.

Lemma add_new_NoDup {A} `{EqDecision A} (acc : list A) (x : A) :
  NoDup acc -> NoDup (add_new acc x).
Proof.
  intros Hnd. unfold add_new. case_bool_decide as Hx; [done|].
  apply NoDup_app. split; [done|]. split; [|apply NoDup_singleton].
  intros y Hy ->%list_elem_of_singleton. done.
Qed.

Lemma fold_add_new_elem {A} `{EqDecision A} (l acc : list A) (y : A) :
  y ∈ fold_left add_new l acc <-> y ∈ acc \/ y ∈ l.
Proof.
  revert acc. induction l as [|x l IH]; intros acc; simpl.
  - rewrite elem_of_nil. tauto.
  - rewrite IH, add_new_elem, elem_of_cons. tauto.
Qed.

Lemma fold_add_new_NoDup {A} `{EqDecision A} (l acc : list A) :
  NoDup acc -> NoDup (fold_left add_new l acc).
Proof.
  revert acc. induction l as [|x l IH]; intros acc Hnd; simpl; [done|].
  by apply IH, add_new_NoDup.
Qed.

Lemma first_seen_elem {A} `{EqDecision A} (l : list A) (y : A) :
  y ∈ first_seen l <-> y ∈ l.
Proof. unfold first_seen. rewrite fold_add_new_elem, elem_of_nil. tauto. Qed.

Lemma first_seen_NoDup {A} `{EqDecision A} (l : list A) : NoDup (first_seen l).
Proof. apply fold_add_new_NoDup, NoDup_nil_2. Qed.

(** Meeting again what is already there changes nothing. *)
Lemma add_new_again {A} `{EqDecision A} (acc : list A) (x : A) (n : nat) :
  fold_left add_new (replicate n x) (add_new acc x) = add_new acc x.
Proof.
  assert (add_new (add_new acc x) x = add_new acc x) as Hagain.
  { unfold add_new at 1. rewrite bool_decide_eq_true_2; [done|].
    apply add_new_elem. by right. }
  induction n as [|n IH]; simpl; [done|]. by rewrite Hagain.
Qed.

Lemma first_seen_repeated {A} `{EqDecision A} (before after : list A) (x : A) (n : nat) :
  first_seen (before ++ replicate (S n) x ++ after) = first_seen (before ++ x :: after).
Proof.
  unfold first_seen. rewrite !fold_left_app. simpl. by rewrite add_new_again.
Qed.

Lemma Set_add_stringify (acc : list EndpointInfo) (info : EndpointInfo) :
  Set_add (JSON_stringify info) (JSON_stringify <$> acc) = JSON_stringify <$> add_new acc info.
Proof.
  unfold Set_add, add_new. rewrite (bool_decide_ext _ (info ∈ acc)).
  - case_bool_decide; [done|]. by rewrite fmap_app.
  - apply list_elem_of_fmap_inj, _.
Qed.

Lemma classify_requests (c : Collector) (info : EndpointInfo) :
  apiRequests (classify c info) = apiRequests c.
Proof.
  unfold classify. destruct (is_export _); [done|].
  destruct (is_candidate _); [done|]. by destruct (is_document _).
Qed.

Lemma classify_session (c : Collector) (info : EndpointInfo) :
  session_id (apiMap (classify c info)) = session_id (apiMap c).
Proof.
  unfold classify. destruct (is_export _); [done|].
  destruct (is_candidate _); [done|]. by destruct (is_document _).
Qed.

Lemma observe_session (URL : string -> option Location) (c : Collector)
    (requests : list Request) :
  session_id (apiMap (observe URL c requests)) = session_id (apiMap c).
Proof.
  revert c. induction requests as [|r rs IH]; intros c; [done|].
  change (observe URL c (r :: rs)) with (observe URL (on_request URL c r) rs).
  rewrite IH. unfold on_request.
  destruct (info_of URL r); [|done]. by rewrite classify_session.
Qed.

(** The [Set] holds the serialised records, each where it came first. *)
Lemma observe_requests (URL : string -> option Location) (c : Collector)
    (requests : list Request) (acc : list EndpointInfo) :
  apiRequests c = JSON_stringify <$> acc ->
  apiRequests (observe URL c requests)
  = JSON_stringify <$> fold_left add_new (records URL requests) acc.
Proof.
  revert c acc. induction requests as [|r rs IH]; intros c acc Hc; [done|].
  change (observe URL c (r :: rs)) with (observe URL (on_request URL c r) rs).
  unfold records in *. cbn [omap list_omap]. unfold on_request.
  destruct (info_of URL r) as [info|]; cbn [fold_left].
  - apply IH. rewrite classify_requests. cbn [with_requests apiRequests].
    rewrite Hc. apply Set_add_stringify.
  - by apply IH.
Qed.

(** What [saveApiMap] does after a session: the JSON texts of the
    [Set] all parse back, the document handed to [writeFile] has the
    records in the order in which each was first seen, and the promise
    settles as [writeFile] does. *)
Lemma saveApiMap_observe (URL : string -> option Location)
    (writeFile : string -> ApiMap -> Result unit) (outDir sessionId now : string)
    (requests : list Request) :
  let c := observe URL (attach sessionId now) requests in
  let m := with_endpoints (apiMap c) (first_seen (records URL requests)) in
  saveApiMap writeFile outDir c
  = ({| apiRequests := apiRequests c; apiMap := m |},
     bindR (writeFile (api_map_path outDir sessionId) m)
           (fun _ => Ok (api_map_path outDir sessionId))).
Proof.
  intros c m. subst c m. unfold saveApiMap.
  rewrite (observe_requests URL (attach sessionId now) requests []); [|done].
  rewrite (mapM_fmap_Some JSON_parse JSON_stringify _ JSON_round_trip).
  by rewrite observe_session.
Qed.

Lemma classify_unmatched (c : Collector) (info : EndpointInfo) :
  is_export (Str.toLowerCase (path info)) = false ->
  is_candidate (Str.toLowerCase (path info)) = false ->
  is_document (Str.toLowerCase (path info)) = false ->
  classify c info = c.
Proof. intros H1 H2 H3. unfold classify. by rewrite H1, H2, H3. Qed.

(** A text that holds a word holds every beginning of it. *)
Lemma includes_beginning (w rest s : string) :
  Str.includes w s = false -> Str.includes (w +:+ rest) s = false.
Proof.
  intros Hw. destruct (Str.includes (w +:+ rest) s) eqn:H; [|done].
  apply includes_spec in H as (i & pre & post & -> & _).
  rewrite append_assoc in Hw. by rewrite includes_append in Hw.
Qed.

(** The two tests of line 704 are one, and so are those of line 706:
    [candidate] begins with [candidat] and [document] with [doc]. *)
Lemma is_candidate_candidat (lower : string) :
  is_candidate lower = Str.includes "candidat" lower.
Proof.
  unfold is_candidate. destruct (Str.includes "candidat" lower) eqn:H.
  - apply orb_true_r.
  - pose proof (includes_beginning "candidat" "e" lower H) as H'.
    change ("candidat" +:+ "e") with "candidate" in H'. by rewrite H'.
Qed.

Lemma is_document_doc (lower : string) :
  is_document lower = Str.includes "doc" lower.
Proof.
  unfold is_document. destruct (Str.includes "doc" lower) eqn:H.
  - apply orb_true_r.
  - pose proof (includes_beginning "doc" "ument" lower H) as H'.
    change ("doc" +:+ "ument") with "document" in H'. by rewrite H'.
Qed.

Lemma classify_matched (c : Collector) (info : EndpointInfo) :
  let lower := Str.toLowerCase (path info) in
  is_export lower || Str.includes "candidat" lower || Str.includes "doc" lower = true ->
  in_a_group (apiMap (classify c info)) info.
Proof.
  intros lower H. subst lower. unfold classify, in_a_group.
  rewrite <- is_candidate_candidat, <- is_document_doc in H.
  destruct (is_export _).
  - exists (export_key info). left. cbn. apply lookup_insert_eq.
  - destruct (is_candidate _).
    + exists (path info). right. left. cbn. apply lookup_insert_eq.
    + destruct (is_document _); [|done].
      exists (path info). right. right. cbn. apply lookup_insert_eq.
Qed.

(** C3, as the code has it.  [saveApiMap] hands to [writeFile] a
    document whose [endpoints] list holds the record of every observed
    API request, each once, whether or not a keyword put it in a group
    as well, and its promise settles as that of [writeFile] does.  A
    request whose lowered path contains none of the words [export],
    [download], [excel], [candidat] and [doc] is recorded in that list
    only: the three groups are left as they were.  A request whose
    lowered path contains one of them is recorded in the list and held
    by a group. *)
Theorem C3_endpoints_hold_every_api_request
    (URL : string -> option Location) (writeFile : string -> ApiMap -> Result unit)
    (outDir sessionId now : string) (requests : list Request) :
  let saved := saveApiMap writeFile outDir (observe URL (attach sessionId now) requests) in
  let m := apiMap (fst saved) in
  snd saved = bindR (writeFile (api_map_path outDir sessionId) m)
                    (fun _ => Ok (api_map_path outDir sessionId)) /\
  (forall info,
     info ∈ endpoints m <->
     exists request, request ∈ requests /\ info_of URL request = Some info) /\
  NoDup (endpoints m) /\
  (forall c request info,
     info_of URL request = Some info ->
     let lower := Str.toLowerCase (path info) in
     (Str.includes "export" lower = false ->
      Str.includes "download" lower = false ->
      Str.includes "excel" lower = false ->
      Str.includes "candidat" lower = false ->
      Str.includes "doc" lower = false ->
      groups_of (apiMap (on_request URL c request)) = groups_of (apiMap c) /\
      JSON_stringify info ∈ apiRequests (on_request URL c request)) /\
     (Str.includes "export" lower || Str.includes "download" lower ||
      Str.includes "excel" lower || Str.includes "candidat" lower ||
      Str.includes "doc" lower = true ->
      in_a_group (apiMap (on_request URL c request)) info /\
      JSON_stringify info ∈ apiRequests (on_request URL c request))).
Proof.
  intros saved m. subst saved m. rewrite saveApiMap_observe. cbn [fst snd apiMap].
  split; [done|]. split; [|split].
  - intros info. cbn [with_endpoints endpoints].
    rewrite first_seen_elem. unfold records. apply list_elem_of_omap.
  - apply first_seen_NoDup.
  - intros c request info Hinfo. cbv zeta. set (lower := Str.toLowerCase (path info)).
    assert (JSON_stringify info ∈ Set_add (JSON_stringify info) (apiRequests c)) as Hset.
    { unfold Set_add. case_bool_decide as Hin; [done|].
      apply elem_of_app. right. by apply list_elem_of_singleton. }
    unfold on_request. rewrite Hinfo. rewrite !classify_requests.
    cbn [with_requests apiRequests]. split.
    + intros H1 H2 H3 H4 H5. split; [|done]. rewrite classify_unmatched; [done|..].
      * unfold is_export. fold lower. by rewrite H1, H2, H3.
      * rewrite is_candidate_candidat. exact H4.
      * rewrite is_document_doc. exact H5.
    + intros H. split; [|done]. apply classify_matched.
      unfold is_export. fold lower. by rewrite <- !orb_assoc in *.
Qed.

Lemma C3_endpoints_hold_every_api_request_witness :
  let unmatched := {| request_url := "https://portal.example/api/users/me";
                      request_method := "GET" |} in
  let info := Info "https://portal.example/api/users/me" "GET" "/api/users/me" "" in
  let c := attach "s1" "t0" in
  groups_of (apiMap (on_request serialised_URL c unmatched)) = groups_of (apiMap c) /\
  JSON_stringify info ∈ apiRequests (on_request serialised_URL c unmatched).
Proof.
  intros unmatched info c.
  destruct (C3_endpoints_hold_every_api_request serialised_URL (fun _ _ => Ok tt)
              "/tmp/pwc" "s1" "t0" [])
    as (_ & _ & _ & H).
  destruct (H c unmatched info eq_refl) as [H' _].
  apply H'; vm_compute; reflexivity.
Defined.

(** The claim as first stated fails: an export request, stored in
    [exportEndpoints], is in the [endpoints] list as well. *)
Lemma C3_grouped_record_is_listed_too :
  let request := {| request_url := "https://portal.example/api/export";
                    request_method := "GET" |} in
  let m := apiMap (fst (saveApiMap (fun _ _ => Ok tt) "/tmp/pwc"
                          (observe serialised_URL (attach "s1" "t0") [request]))) in
  ~ (forall info, in_a_group m info -> info ∉ endpoints m).
Proof.
  intros request m H.
  specialize (H (Info "https://portal.example/api/export" "GET" "/api/export" "")).
  subst m. rewrite saveApiMap_observe in H. cbn [fst apiMap] in H.
  apply H.
  - exists "/api/export". left. vm_compute. reflexivity.
  - cbn [with_endpoints endpoints]. apply first_seen_elem. vm_compute. left.
Qed.

(** The test of line 704 is for [candidat]: a path with [candidats],
    which does not hold the word [candidate], is a candidate path. *)
Example candidats_is_a_candidate_path :
  let request := {| request_url := "https://portal.example/api/candidats/1";
                    request_method := "GET" |} in
  let info := Info "https://portal.example/api/candidats/1" "GET" "/api/candidats/1" "" in
  Str.includes "candidate" (path info) = false /\
  candidateEndpoints (apiMap (on_request serialised_URL (attach "s1" "t0") request))
    !! "/api/candidats/1" = Some info.
Proof. vm_compute. done. Qed.

Lemma records_app (URL : string -> option Location) (a b : list Request) :
  records URL (a ++ b) = records URL a ++ records URL b.
Proof. apply omap_app. Qed.

Lemma records_replicate (URL : string -> option Location) (request : Request)
    (info : EndpointInfo) (n : nat) :
  info_of URL request = Some info ->
  records URL (replicate n request) = replicate n info.
Proof.
  intros Hinfo. unfold records. induction n as [|n IH]; [done|].
  cbn [replicate omap list_omap]. by rewrite Hinfo, IH.
Qed.

Lemma records_skipped (URL : string -> option Location) (request : Request) (n : nat) :
  info_of URL request = None -> records URL (replicate n request) = [].
Proof.
  intros Hinfo. unfold records. induction n as [|n IH]; [done|].
  cbn [replicate omap list_omap]. by rewrite Hinfo, IH.
Qed.

Lemma first_seen_known {A} `{EqDecision A} (before after : list A) (x : A) :
  x ∈ before -> first_seen (before ++ x :: after) = first_seen (before ++ after).
Proof.
  intros Hx. unfold first_seen. rewrite !fold_left_app. cbn [fold_left].
  unfold add_new at 2. rewrite bool_decide_eq_true_2; [done|].
  apply fold_add_new_elem. by right.
Qed.

(** One observation more adds the record at the end of the list, or
    nothing when the list has the very record already. *)
Lemma first_seen_snoc {A} `{EqDecision A} (l : list A) (x : A) :
  first_seen (l ++ [x])
  = if bool_decide (x ∈ first_seen l) then first_seen l else first_seen l ++ [x].
Proof. unfold first_seen. by rewrite fold_left_app. Qed.

(** C9. The collector removes repetitions by whole-record equality.
    The [endpoints] list of the document [saveApiMap] hands to
    [writeFile] holds the record of every API request observed and
    nothing else, and no record twice.  One request more adds its
    record at the end, unless the list holds already a record equal to
    it in url, method, path and query, in which case the list stays as
    it is.  So observing a request several times in a row gives the
    same list as observing it once, and observing again, at any later
    point of the session, a request that was observed already changes
    nothing.  The promise of [saveApiMap] settles as that of
    [writeFile] does. *)
Theorem C9_recording_is_idempotent
    (URL : string -> option Location) (writeFile : string -> ApiMap -> Result unit)
    (outDir sessionId now : string)
    (before after : list Request) (request : Request) (n : nat) :
  let saved requests :=
    saveApiMap writeFile outDir (observe URL (attach sessionId now) requests) in
  let persisted requests := endpoints (apiMap (fst (saved requests))) in
  (forall requests info,
     info ∈ persisted requests <->
     exists r, r ∈ requests /\ info_of URL r = Some info) /\
  (forall requests, NoDup (persisted requests)) /\
  (forall info,
     info_of URL request = Some info ->
     persisted (before ++ [request])
     = if bool_decide (info ∈ persisted before) then persisted before
       else persisted before ++ [info]) /\
  (info_of URL request = None -> persisted (before ++ [request]) = persisted before) /\
  persisted (before ++ replicate (S n) request ++ after)
  = persisted (before ++ request :: after) /\
  (request ∈ before ->
   persisted (before ++ request :: after) = persisted (before ++ after)) /\
  (forall requests,
     snd (saved requests)
     = bindR (writeFile (api_map_path outDir sessionId) (apiMap (fst (saved requests))))
             (fun _ => Ok (api_map_path outDir sessionId))).
Proof.
  intros saved persisted.
  assert (forall requests, persisted requests = first_seen (records URL requests)) as Hp.
  { intros requests. subst persisted saved. cbv beta. by rewrite saveApiMap_observe. }
  split; [|split; [|split; [|split; [|split; [|split]]]]].
  - intros requests info. rewrite Hp, first_seen_elem. unfold records. apply list_elem_of_omap.
  - intros requests. rewrite Hp. apply first_seen_NoDup.
  - intros info Hinfo. rewrite !Hp, records_app.
    change [request] with (replicate 1 request).
    rewrite (records_replicate URL request info 1 Hinfo). apply first_seen_snoc.
  - intros Hinfo. rewrite !Hp, records_app.
    change [request] with (replicate 1 request).
    by rewrite (records_skipped URL request 1 Hinfo), app_nil_r.
  - rewrite !Hp.
    change (request :: after) with (replicate 1 request ++ after).
    rewrite !records_app.
    destruct (info_of URL request) as [info|] eqn:Hinfo.
    + rewrite !(records_replicate URL request info _ Hinfo).
      apply first_seen_repeated.
    + by rewrite !(records_skipped URL request _ Hinfo).
  - intros Hin. rewrite !Hp.
    change (request :: after) with (replicate 1 request ++ after).
    rewrite !records_app.
    destruct (info_of URL request) as [info|] eqn:Hinfo.
    + rewrite (records_replicate URL request info _ Hinfo). cbn [replicate app].
      apply first_seen_known. apply list_elem_of_omap. eauto.
    + by rewrite (records_skipped URL request _ Hinfo).
  - intros requests. subst saved. cbv beta. by rewrite saveApiMap_observe.
Qed.

Lemma C9_recording_is_idempotent_witness :
  let r1 := {| request_url := "https://portal.example/api/rows?page=1"; request_method := "GET" |} in
  let r2 := {| request_url := "https://portal.example/api/export/draft"; request_method := "POST" |} in
  let persisted requests :=
    endpoints (apiMap (fst (saveApiMap (fun _ _ => Ok tt) "/tmp/pwc"
                              (observe serialised_URL (attach "s1" "t0") requests)))) in
  persisted ([r1; r2] ++ r1 :: [r2]) = persisted ([r1; r2] ++ [r2]).
Proof.
  intros r1 r2 persisted.
  destruct (C9_recording_is_idempotent serialised_URL (fun _ _ => Ok tt) "/tmp/pwc" "s1" "t0"
              [r1; r2] [r2] r1 2)
    as (_ & _ & _ & _ & _ & H & _).
  apply H. left.
Defined.

(** The same url with another method is another record: it is added. *)
Example same_url_other_method_is_added :
  let get := {| request_url := "https://portal.example/api/rows?page=1"; request_method := "GET" |} in
  let post := {| request_url := "https://portal.example/api/rows?page=1"; request_method := "POST" |} in
  endpoints (apiMap (fst (saveApiMap (fun _ _ => Ok tt) "/tmp/pwc"
                            (observe serialised_URL (attach "s1" "t0") [get; post; get]))))
  = [ Info "https://portal.example/api/rows?page=1" "GET" "/api/rows" "?page=1";
      Info "https://portal.example/api/rows?page=1" "POST" "/api/rows" "?page=1" ].
Proof. vm_compute. reflexivity. Qed.

(** A write that fails rejects the promise; the document was complete. *)
Example write_to_a_missing_directory :
  let get := {| request_url := "https://portal.example/api/rows?page=1"; request_method := "GET" |} in
  let saved := saveApiMap (fun _ _ => Err "ENOENT: no such file or directory") "/no/such/dir"
                 (observe serialised_URL (attach "s1" "t0") [get]) in
  snd saved = Err "ENOENT: no such file or directory" /\
  length (endpoints (apiMap (fst saved))) = 1.
Proof. vm_compute. done. Qed.

(** Two records are one entry only when all four fields agree. *)
Example endpoints_by_record_equality :
  let get := {| request_url := "https://portal.example/api/rows?page=1"; request_method := "GET" |} in
  let post := {| request_url := "https://portal.example/api/rows?page=1"; request_method := "POST" |} in
  first_seen (records serialised_URL [get; post; get; post; get])
  = [ Info "https://portal.example/api/rows?page=1" "GET" "/api/rows" "?page=1";
      Info "https://portal.example/api/rows?page=1" "POST" "/api/rows" "?page=1" ].
Proof. vm_compute. reflexivity. Qed.

(** ** The one-time code *)

Import Login.

Lemma digit_is_word (c : ascii) : Str.is_digit c = true -> Str.is_word c = true.
Proof. intros H. unfold Str.is_word. rewrite H. by rewrite orb_true_r. Qed.

(** What the pattern [/\b(\d{6})\b/] does at one offset. *)
Lemma otp_pattern_here (prev : option ascii) (s : string) :
  Regex.run false otp_pattern (Regex.Cursor prev s []) Some =
  if six_digits_here prev s
  then Some (Regex.Cursor (last_or prev (Str.take 6 s)) (Str.drop 6 s) [Str.take 6 s])
  else None.
Proof.
  unfold otp_pattern, six_digits_here.
  destruct s as [|c1 [|c2 [|c3 [|c4 [|c5 [|c6 rest]]]]]];
    cbn -[Str.is_digit Str.is_word];
    repeat match goal with
           | |- context [Str.is_digit ?c] =>
               let H := fresh "D" in
               destruct (Str.is_digit c) eqn:H;
               [try rewrite (digit_is_word c H)|];
               cbn -[Str.is_digit Str.is_word]
           | |- context [Regex.wordy ?o] =>
               destruct (Regex.wordy o); cbn -[Str.is_digit Str.is_word]
           | |- context [Str.is_word ?c] =>
               destruct (Str.is_word c); cbn -[Str.is_digit Str.is_word]
           end;
    try reflexivity.
  all: replace (S (S (S (S (S (S (String.length rest)))))) - String.length rest)
         with 6 by lia; reflexivity.
Qed.

Lemma take_length_min (n : nat) (s : string) :
  String.length (Str.take n s) = Nat.min n (String.length s).
Proof.
  revert s. induction n as [|n IH]; intros s; simpl; [by destruct s|].
  destruct s; simpl; [done|]. by rewrite IH.
Qed.

Lemma take_append (d post : string) : Str.take (String.length d) (d +:+ post) = d.
Proof. induction d; simpl; [by destruct post|congruence]. Qed.

Lemma otp_at_from_0 (prev : option ascii) (s d : string) :
  otp_at_from prev s d 0 <-> six_digits_here prev s = true /\ d = Str.take 6 s.
Proof.
  unfold six_digits_here. split.
  - intros (pre & post & -> & Hpre & Hlen & Hd & Hb & Ha).
    destruct pre; [|done]. cbn [String.append last_or] in *.
    assert (Str.take 6 (d +:+ post) = d) as -> by (rewrite <- Hlen; apply take_append).
    assert (Str.drop 6 (d +:+ post) = post) as -> by (rewrite <- Hlen; apply drop_append).
    by rewrite Hlen, Hd, Hb, Ha.
  - intros (H & ->).
    apply andb_true_iff in H as [H Ha]. apply andb_true_iff in H as [H Hd].
    apply andb_true_iff in H as [Hb Hlen].
    apply negb_true_iff in Hb, Ha. apply Nat.eqb_eq in Hlen.
    exists EmptyString, (Str.drop 6 s).
    cbn [String.append last_or String.length]. by rewrite take_drop.
Qed.

Lemma otp_at_from_S (prev : option ascii) (c : ascii) (s d : string) (j : nat) :
  otp_at_from prev (String c s) d (S j) <-> otp_at_from (Some c) s d j.
Proof.
  split.
  - intros (pre & post & E & Hpre & H). destruct pre as [|a pre]; [done|].
    simpl in E, Hpre, H. injection E as -> E. exists pre, post.
    split; [done|]. split; [lia|done].
  - intros (pre & post & -> & Hpre & H). exists (String c pre), post.
    simpl. split; [done|]. split; [lia|done].
Qed.

Lemma otp_at_from_empty (prev : option ascii) (d : string) (j : nat) :
  ~ otp_at_from prev EmptyString d j.
Proof.
  intros (pre & post & E & _ & Hlen & _).
  destruct pre; [|done]. destruct d; done.
Qed.

(** What [exec] returns for the code pattern: the six-digit number at
    the smallest offset, as element 0 and as group 1. *)
Lemma otp_search (s : string) (prev : option ascii) (i : nat) :
  match Regex.search false otp_pattern prev s i with
  | Some m => exists j,
      Regex.index m = i + j /\ Regex.groups m = [Regex.whole m] /\
      otp_at_from prev s (Regex.whole m) j /\
      forall j' d', j' < j -> ~ otp_at_from prev s d' j'
  | None => forall j d, ~ otp_at_from prev s d j
  end.
Proof.
  revert prev i. induction s as [|c s IH]; intros prev i.
  - cbn [Regex.search]. rewrite otp_pattern_here.
    destruct (six_digits_here prev EmptyString) eqn:H.
    + unfold six_digits_here in H. simpl in H. by rewrite andb_false_r in H.
    + intros j d. apply otp_at_from_empty.
  - cbn [Regex.search]. rewrite otp_pattern_here.
    destruct (six_digits_here prev (String c s)) eqn:H.
    + exists 0. cbn [Regex.index Regex.whole Regex.groups Regex.ahead Regex.captures].
      assert (6 <= String.length (String c s)) as Hlen.
      { unfold six_digits_here in H.
        apply andb_true_iff in H as [H _]. apply andb_true_iff in H as [H _].
        apply andb_true_iff in H as [_ H%Nat.eqb_eq].
        rewrite take_length_min in H. lia. }
      rewrite drop_length.
      replace (String.length (String c s) - (String.length (String c s) - 6)) with 6 by lia.
      split; [lia|]. split; [done|]. split; [by apply otp_at_from_0|]. intros; lia.
    + specialize (IH (Some c) (S i)).
      assert (forall d, ~ otp_at_from prev (String c s) d 0) as H0.
      { intros d [Hd _]%otp_at_from_0. congruence. }
      destruct (Regex.search false otp_pattern (Some c) s (S i)) as [m|].
      * destruct IH as (j & Hi & Hg & Ho & Hmin). exists (S j).
        split; [lia|]. split; [done|]. split; [by apply otp_at_from_S|].
        intros [|j'] d' Hlt Ho'; [by apply (H0 d')|].
        apply otp_at_from_S in Ho'. apply (Hmin j' d'); [lia|done].
      * intros [|j] d Ho; [by apply (H0 d)|].
        apply otp_at_from_S in Ho. by apply (IH j d).
Qed.

(** At one offset there is at most one six-digit number. *)
Lemma otp_at_unique (text d1 d2 : string) (i : nat) :
  otp_at text d1 i -> otp_at text d2 i -> d1 = d2.
Proof.
  intros (pre1 & post1 & E1 & L1 & N1 & _) (pre2 & post2 & E2 & L2 & N2 & _).
  assert (Str.take 6 (Str.drop i text) = d1) as <-.
  { rewrite E1, <- L1, drop_append, <- N1. apply take_append. }
  rewrite E2, <- L2, drop_append, <- N2. apply take_append.
Qed.

(** Lines 320-326 on any text. *)
Lemma extract_otp_spec (text : string) :
  (forall d i, otp_at text d i -> (forall j d', j < i -> ~ otp_at text d' j) ->
               extract_otp text = Ok d) /\
  ((forall d i, ~ otp_at text d i) ->
   extract_otp text = Err "OTP code not found in email body (expected 6-digit code)").
Proof.
  pose proof (otp_search text None 0) as H.
  unfold extract_otp, Regex.exec.
  destruct (Regex.search false otp_pattern None text 0) as [m|].
  - destruct H as (j & _ & Hg & Ho & Hmin). split.
    + intros d i Hd Hfirst. rewrite Hg. cbn [nth]. f_equal.
      destruct (lt_eq_lt_dec i j) as [[Hlt| ->]|Hlt].
      * by destruct (Hmin i d Hlt).
      * by apply (otp_at_unique text _ _ j).
      * by destruct (Hfirst j (Regex.whole m) Hlt).
    + intros Hnone. by destruct (Hnone (Regex.whole m) j).
  - split; [|done]. intros d i Hd _. by destruct (H i d).
Qed.

(** Nothing stands before what [exec] finds. *)
Lemma nothing_before_match (text : string) (m : Regex.found) :
  Regex.exec false otp_pattern text = Some m ->
  forall j d, j < Regex.index m -> ~ otp_at text d j.
Proof.
  intros E j d Hlt. pose proof (otp_search text None 0) as H.
  unfold Regex.exec in E. rewrite E in H.
  destruct H as (j0 & Hi & _ & _ & Hmin). apply Hmin. simpl in Hi. lia.
Qed.

(** *** Reading the message *)

Lemma list_sum_rev (l : list nat) : list_sum (rev l) = list_sum l.
Proof.
  induction l as [|x l IH]; [done|].
  simpl. rewrite list_sum_app, IH. simpl. lia.
Qed.

Lemma weights_push (kids : list MessagePart) (below : list (option MessagePart)) :
  weights (rev (map Some kids) ++ below) = list_sum (map weight kids) + weights below.
Proof.
  unfold weights. rewrite map_app, list_sum_app. f_equal.
  rewrite <- map_rev, map_map. change (fun x => weight_of (Some x)) with weight.
  by rewrite map_rev, list_sum_rev.
Qed.

Lemma texts_push (kids : list MessagePart) (below : list (option MessagePart)) :
  concat (map texts_of (rev (map Some kids) ++ below))
  = concat (rev (map texts kids)) ++ concat (map texts_of below).
Proof.
  rewrite map_app, concat_app. f_equal.
  rewrite <- map_rev, map_map. change (fun x => texts_of (Some x)) with texts.
  by rewrite map_rev.
Qed.

(** The loop ends, with the texts in the order [texts] gives. *)
Lemma walk_enough (fuel : nat) (stack : list (option MessagePart)) (parts : list string) :
  weights stack < fuel ->
  walk fuel stack parts = Some (parts ++ concat (map texts_of stack)).
Proof.
  revert stack parts. induction fuel as [|fuel IH]; intros stack parts H; [lia|].
  destruct stack as [|[[data kids]|] below]; cbn [walk].
  - by rewrite app_nil_r.
  - rewrite IH.
    + rewrite texts_push. cbn [map texts_of texts concat].
      destruct data; by rewrite <- !app_assoc.
    + rewrite weights_push. unfold weights in *. simpl in H. lia.
  - rewrite IH; [done|]. unfold weights in *. simpl in H. lia.
Qed.

Lemma message_text_spec (full : Message) :
  message_text full
  = Some (Str.join newline (default EmptyString (snippet full) :: texts_of (payload full))).
Proof.
  unfold message_text. rewrite walk_enough.
  - simpl. by rewrite app_nil_r.
  - unfold weights. simpl. lia.
Qed.

Lemma last_or_append (prev : option ascii) (a b : string) :
  last_or prev (a +:+ b) = last_or (last_or prev a) b.
Proof. revert prev. induction a as [|c a IH]; intros prev; simpl; [done|apply IH]. Qed.

(** The code of the sentence is a six-digit number wherever the
    sentence stands. *)
Lemma otp_at_your_code (pre post : string) :
  otp_at (pre +:+ "Your code is 482913 today" +:+ post) "482913" (String.length pre + 13).
Proof.
  exists (pre +:+ "Your code is "), (" today" +:+ post).
  split; [by rewrite !append_assoc|].
  split; [by rewrite length_append|].
  split; [done|]. split; [done|].
  split; [by rewrite last_or_append|done].
Qed.

(** C4. [getGmailOtp], once it holds the newest message, returns the
    six-digit number standing leftmost in the snippet and body texts
    joined by line feeds -- six digits with no word character next to
    them, the first match of [/\b(\d{6})\b/] -- so the first of two such
    numbers; for a text containing [Your code is 482913 today] with no
    such number before it, that is [482913]; and it throws when the text
    holds no such number. *)
Theorem C4_first_six_digit_number
    (box : Mailbox) (id : string) (ids : list string) (full : Message) :
  credentials box = true ->
  listed box = Ok (Some (id :: ids)) ->
  fetched box id = Ok full ->
  let text := Str.join newline (default EmptyString (snippet full) :: texts_of (payload full)) in
  (forall d i, otp_at text d i -> (forall j d', j < i -> ~ otp_at text d' j) ->
               getGmailOtp box = Ok d) /\
  (forall d1 d2 i1 i2, otp_at text d1 i1 -> otp_at text d2 i2 -> i1 < i2 ->
               (forall d i, otp_at text d i -> i = i1 \/ i = i2) ->
               getGmailOtp box = Ok d1) /\
  (forall pre post, text = pre +:+ "Your code is 482913 today" +:+ post ->
               (forall j d', j < String.length pre + 13 -> ~ otp_at text d' j) ->
               getGmailOtp box = Ok "482913") /\
  ((forall d i, ~ otp_at text d i) ->
   getGmailOtp box = Err "OTP code not found in email body (expected 6-digit code)").
Proof.
  intros Hc Hl Hf text.
  assert (getGmailOtp box = extract_otp text) as ->.
  { unfold getGmailOtp. rewrite Hc, Hl. simpl. rewrite Hf. simpl.
    by rewrite message_text_spec. }
  destruct (extract_otp_spec text) as [Hfirst Hnone].
  split; [exact Hfirst|]. split; [|split; [|exact Hnone]].
  - intros d1 d2 i1 i2 H1 H2 Hlt Honly. apply (Hfirst d1 i1 H1).
    intros j d' Hj Hd'. destruct (Honly d' j Hd'); lia.
  - intros pre post E Hbefore. apply (Hfirst _ (String.length pre + 13)); [|done].
    rewrite E. apply otp_at_your_code.
Qed.

Lemma C4_first_six_digit_number_witness :
  getGmailOtp (mailbox_with "" "Your code is 482913 today") = Ok "482913".
Proof.
  destruct (C4_first_six_digit_number (mailbox_with "" "Your code is 482913 today") "m1" ["m0"]
              {| snippet := Some EmptyString;
                 payload := Some (Part None [Part (Some "Your code is 482913 today") []]) |}
              eq_refl eq_refl eq_refl) as (_ & _ & H & _).
  apply (H newline EmptyString); [reflexivity|].
  apply (nothing_before_match _ (Regex.Found 14 "482913" ["482913"])).
  vm_compute. reflexivity.
Defined.

Example otp_your_code_is :
  getGmailOtp (mailbox_with "Your code is 482913 today" "Hello, Your code is 482913 today. Bye")
  = Ok "482913".
Proof. vm_compute. reflexivity. Qed.

(** Of two numbers the first is taken, also when it is not the code. *)
Example otp_first_of_two :
  getGmailOtp (mailbox_with "" "Call extension 555010 if needed. Your code is 482913 today")
  = Ok "555010".
Proof. vm_compute. reflexivity. Qed.

(** Seven digits in a row, or six digits glued to a letter or an
    underscore, are no six-digit number to the pattern. *)
Example otp_none :
  getGmailOtp (mailbox_with "ticket 1234567" "ref_482913 and A482913")
  = Err "OTP code not found in email body (expected 6-digit code)".
Proof. vm_compute. reflexivity. Qed.

Example otp_no_mail :
  getGmailOtp {| credentials := true; listed := Ok (Some []); fetched := fun _ => Err "404" |}
  = Err "No OTP email found in last 10 minutes".
Proof. reflexivity. Qed.


(** ** The login flow *)

Lemma getGmailOtp_six_digits (box : Mailbox) (otp : string) :
  getGmailOtp box = Ok otp ->
  String.length otp = 6 /\ Str.all Str.is_digit otp = true.
Proof.
  unfold getGmailOtp. destruct (credentials box); [|done]. simpl.
  destruct (listed box) as [[[|id ids]|]|]; try done. simpl.
  destruct (fetched box id) as [full|]; [|done]. simpl.
  rewrite message_text_spec. unfold extract_otp, Regex.exec.
  set (text := Str.join _ _). pose proof (otp_search text None 0) as H.
  destruct (Regex.search false otp_pattern None text 0) as [m|]; [|done].
  destruct H as (j & _ & Hg & (pre & post & _ & _ & Hlen & Hd & _) & _).
  rewrite Hg. cbn [nth]. by intros [= <-].
Qed.

(** What the loop of lines 479-500 says, as it is written.  The code
    is asked of Gmail at most three times, with a wait of 5000 ms after
    the first and the second failure and nothing else in between.  The
    first answer that is a code is the six-digit text passed to [fill];
    after three failures the flow throws the retrieval error without
    filling anything. *)
Lemma retry_budget_as_written (b : Browser) (log : list Event) :
  let failure e := "Failed to fetch OTP from Gmail after 3 attempts: " +:+ e in
  let filled otp := bindR (fill_otp b) (fun _ => Ok otp) in
  match getGmailOtp (mailbox b 0), getGmailOtp (mailbox b 1), getGmailOtp (mailbox b 2) with
  | Ok otp, _, _ =>
      String.length otp = 6 /\
      fetch_and_fill_otp b log = (filled otp, log ++ [GmailCall 0; Fill otp])
  | Err _, Ok otp, _ =>
      String.length otp = 6 /\
      fetch_and_fill_otp b log
      = (filled otp, log ++ [GmailCall 0; Sleep 5000; GmailCall 1; Fill otp])
  | Err _, Err _, Ok otp =>
      String.length otp = 6 /\
      fetch_and_fill_otp b log
      = (filled otp,
         log ++ [GmailCall 0; Sleep 5000; GmailCall 1; Sleep 5000; GmailCall 2; Fill otp])
  | Err _, Err _, Err e =>
      fetch_and_fill_otp b log
      = (Err (failure e),
         log ++ [GmailCall 0; Sleep 5000; GmailCall 1; Sleep 5000; GmailCall 2])
  end.
Proof.
  intros failure filled.
  assert (fetch_and_fill_otp b log =
          match otp_attempts b 0 3 log with
          | (Ok (Some (String c s)), l) =>
              (filled (String c s), l ++ [Fill (String c s)])
          | (Ok _, l) => (Err "OTP not retrieved from Gmail", l)
          | (Err e, l) => (Err e, l)
          end) as Hfetch.
  { unfold fetch_and_fill_otp. unfold mbind at 1, M_bind at 1, bind at 1.
    destruct (otp_attempts b 0 3 log) as [[[[|c s]|]|e] l]; try done.
    unfold filled, mbind, M_bind, bind, emit, lift, ret. by destruct (fill_otp b) as [[]|]. }
  cbn [otp_attempts] in Hfetch.
  unfold mbind, M_bind, bind, emit, ret, throw in Hfetch. cbn [Nat.ltb Nat.leb] in Hfetch.
  destruct (getGmailOtp (mailbox b 0)) as [otp|e0] eqn:E0.
  { destruct (getGmailOtp_six_digits _ _ E0) as [Hlen _]. split; [done|].
    rewrite Hfetch. destruct otp; [done|]. by rewrite <- List.app_assoc. }
  destruct (getGmailOtp (mailbox b 1)) as [otp|e1] eqn:E1.
  { destruct (getGmailOtp_six_digits _ _ E1) as [Hlen _]. split; [done|].
    rewrite Hfetch. destruct otp; [done|]. by rewrite <- !List.app_assoc. }
  destruct (getGmailOtp (mailbox b 2)) as [otp|e2] eqn:E2.
  { destruct (getGmailOtp_six_digits _ _ E2) as [Hlen _]. split; [done|].
    rewrite Hfetch. destruct otp; [done|]. by rewrite <- !List.app_assoc. }
  rewrite <- !List.app_assoc in Hfetch. cbn [app] in Hfetch. exact Hfetch.
Qed.

Example otp_at_third_call :
  fetch_and_fill_otp slow_mail []
  = (Ok "482913",
     [GmailCall 0; Sleep 5000; GmailCall 1; Sleep 5000; GmailCall 2; Fill "482913"]).
Proof. vm_compute. reflexivity. Qed.

(** *** The function as shipped *)

(** The second declaration of [submitted], in line 513, is the early
    error. *)
Lemma submitted_is_declared_twice :
  redeclared [] try_block_declarations = Some ("submitted", 513) /\
  ("submitted", 383) ∈ try_block_declarations.
Proof.
  split; [vm_compute; reflexivity|].
  apply list_elem_of_In. unfold try_block_declarations. simpl. tauto.
Qed.

(** C8, where the code departs from it.  As shipped,
    [loginAndDiscover] asks Gmail for no code at all, and types none
    in: for every state of the browser and of the mailbox the outcome
    is the [SyntaxError] of the second declaration of [submitted], with
    no call of [getGmailOtp], no wait and no [fill] before it.  So it
    is when Gmail has the code [482913] ready at the third call, within
    the budget of the claim. *)
Theorem C8_no_code_is_ever_fetched :
  (forall (b : Browser) (log : list Event),
     loginAndDiscover b log
     = (Err "SyntaxError: Identifier 'submitted' has already been declared", log)) /\
  getGmailOtp (mailbox slow_mail 2) = Ok "482913" /\
  loginAndDiscover slow_mail []
  = (Err "SyntaxError: Identifier 'submitted' has already been declared", []).
Proof.
  assert (early_error
          = Some "SyntaxError: Identifier 'submitted' has already been declared") as He.
  { unfold early_error. by rewrite (proj1 submitted_is_declared_twice). }
  assert (forall (b : Browser) (log : list Event),
     loginAndDiscover b log
     = (Err "SyntaxError: Identifier 'submitted' has already been declared", log)) as H.
  { intros b log. unfold loginAndDiscover. by rewrite He. }
  split; [exact H|]. split; [vm_compute; reflexivity|apply H].
Qed.

(** With the second declaration taken for the assignment it was meant
    to be, the statements as written fetch the code at the third call
    and type it in. *)
Example as_written_the_code_is_typed_in :
  as_written slow_mail []
  = (Ok {| sessionId := "s1"; sessionPath := "/tmp/pwc/s1.json";
           apiMapPath := "/tmp/pwc/pwc_api_map_s1.json" |},
     [GmailCall 0; Sleep 5000; GmailCall 1; Sleep 5000; GmailCall 2; Fill "482913"; Close]).
Proof. vm_compute. reflexivity. Qed.

(** *** Was the login a success? *)






(** Nor does a body that looks logged in, away from the expected domain. *)
Example body_alone_does_not_verify :
  let b := {| before_try := Ok tt;
              reach_otp_field := Ok tt;
              mailbox := fun _ => mailbox_with "" "";
              fill_otp := Ok tt;
              submit_otp := Ok tt;
              currentUrl := "https://portal.example/home";
              cookies := [];
              selector_found := fun _ => false;
              bodyText := Some ("Welcome back. Your dashboard is being prepared, " +:+
                                "please wait while the reports of today are loaded for you.");
              discover_and_save := Err "unreached" |} in
  looks_logged_in (bodyText b) = true /\ fst (login_success b) = false.
Proof. vm_compute. done. Qed.

Example url_is_recorded_only :
  login_success still_on_login_page = (false, ["URL matches PwC domain"; "Found page body"]).
Proof. vm_compute. reflexivity. Qed.

(** ** The scheduler *)

Import Scheduler.

(** *** One run at a time *)

Lemma boot_lock : lock_held_by_one boot.
Proof. by right. Qed.

Lemma doRun_lock (p : Process) (source : Source) :
  lock_held_by_one p -> lock_held_by_one (doRun p source).
Proof.
  intros [(Hl & id & a & Hs & Hid)|(Hl & Hs)]; unfold doRun; rewrite Hl; left; simpl.
  - split; [done|]. exists id, a. split; [done|lia].
  - split; [done|]. exists (calls p), AwaitRotate. rewrite Hs. split; [done|lia].
Qed.

Lemma where_is_one (p : Process) (id0 : nat) (a : Await) (id : nat) :
  suspended p = [(id0, a)] ->
  where_is p id = if bool_decide (id0 = id) then Some a else None.
Proof. intros Hs. unfold where_is. rewrite Hs. simpl. by case_bool_decide. Qed.

(** A step of the only suspended call either moves it to its next
    [await], the lock staying held, or ends it and releases the lock. *)
Lemma continue_one (p : Process) (id : nat) (a : Await) (s : Settled) :
  suspended p = [(id, a)] -> runLock p = true ->
  let p' := continue p id a s in
  (runLock p' = true /\ exists a', suspended p' = [(id, a')]) \/
  (runLock p' = false /\ suspended p' = [] /\
   exists r, replies p' = replies p ++ [(id, r)]).
Proof.
  intros Hs Hl p'. subst p'.
  destruct a, s; cbn [continue]; try destruct (negb res_ok);
    unfold proceed, finish; cbn [runLock suspended replies];
    rewrite Hs, ?Hl; unfold move_call, drop_call; cbn;
    rewrite ?bool_decide_eq_true_2 by done;
    try (left; split; [done|]; eexists; reflexivity);
    try (right; split; [done|]; split; [by rewrite decide_False by (by intros [])|];
         eexists; reflexivity).
Qed.

Lemma continue_calls (p : Process) (id : nat) (a : Await) (s : Settled) :
  calls (continue p id a s) = calls p.
Proof. destruct a, s; cbn [continue]; try destruct (negb res_ok); done. Qed.

Lemma resume_lock (p : Process) (id : nat) (s : Settled) :
  lock_held_by_one p -> lock_held_by_one (resume p id s).
Proof.
  intros [(Hl & id0 & a & Hs & Hid)|(Hl & Hs)]; unfold resume.
  - rewrite (where_is_one p id0 a id Hs). case_bool_decide as Heq; [subst id0|by left; eauto].
    destruct (continue_one p id a s Hs Hl) as [(Hl' & a' & Hs')|(Hl' & Hs' & _)].
    + left. split; [done|]. exists id, a'. by rewrite continue_calls.
    + by right.
  - unfold where_is. rewrite Hs. simpl. by right.
Qed.

Lemma tick_lock (p : Process) (t : Tick) :
  lock_held_by_one p -> lock_held_by_one (tick p t).
Proof. destruct t; [apply doRun_lock|apply resume_lock]. Qed.

Lemma run_lock (ticks : list Tick) : lock_held_by_one (run ticks).
Proof.
  unfold run. generalize boot_lock. generalize boot.
  induction ticks as [|t ticks IH]; intros p Hp; [done|].
  simpl. by apply IH, tick_lock.
Qed.

(** C6. Whatever happened since the process started, at most one call
    of [doRun] is inside its [try]; and a trigger that arrives while one
    is (from the timer, the start-up or [POST /login-and-run]) returns
    the reply "Run in progress" -- status 500 for the POST -- at once:
    it calls neither [rotateSessions] nor [loginAndDiscover], suspends
    nothing and leaves nothing behind that would run it later. *)
Theorem C6_one_run_at_a_time (ticks : list Tick) (source : Source) :
  let p := run ticks in
  length (suspended p) <= 1 /\
  (run_in_progress p ->
   let rejection := {| ok := false; message := "Run in progress" |} in
   doRun p source =
     {| runLock := true;
        suspended := suspended p;
        calls := S (calls p);
        logins := logins p;
        replies := replies p ++ [(calls p, rejection)] |} /\
   status rejection = 500 /\
   where_is (doRun p source) (calls p) = None).
Proof.
  intros p. pose proof (run_lock ticks) as Hinv. fold p in Hinv.
  destruct Hinv as [(Hl & id & a & Hs & Hid)|(Hl & Hs)].
  - split; [rewrite Hs; simpl; lia|]. intros _ rejection.
    unfold doRun. rewrite Hl. split; [done|]. split; [done|].
    unfold where_is. cbn [suspended]. rewrite Hs. simpl.
    rewrite bool_decide_eq_false_2; [done|lia].
  - split; [rewrite Hs; simpl; lia|]. intros Hrun. by destruct Hrun.
Qed.

Lemma C6_one_run_at_a_time_witness :
  let p := run [Call Startup; Settle 0 (Resolved true)] in
  doRun p Manual =
    {| runLock := true;
       suspended := [(0, AwaitLogin)];
       calls := 2;
       logins := 1;
       replies := [(1, {| ok := false; message := "Run in progress" |})] |}.
Proof.
  intros p.
  destruct (C6_one_run_at_a_time [Call Startup; Settle 0 (Resolved true)] Manual) as [_ H].
  destruct H as (H & _ & _); [vm_compute; discriminate|exact H].
Defined.

(** C10. The lock is held exactly while a run is in progress.  Every
    way a run ends -- the reply "Run started", the reply "Export trigger
    failed", an error thrown by [rotateSessions], by [loginAndDiscover]
    or by the POST to the export service -- goes through the [finally]:
    once the call has returned, [runLock] is [false] and nothing is
    suspended, so the next trigger starts a run.  (A trigger refused by
    the guard of line 32 starts no run: it returns before the [try] and
    leaves the lock with the run in progress.) *)
Theorem C10_lock_released_when_run_ends (ticks : list Tick) :
  let p := run ticks in
  (runLock p = true <-> run_in_progress p) /\
  (forall id at_ s,
     where_is p id = Some at_ ->
     let p' := resume p id s in
     where_is p' id = None ->
     runLock p' = false /\ suspended p' = [] /\
     (exists r, replies p' = replies p ++ [(id, r)]) /\
     forall source, where_is (doRun p' source) (calls p') = Some AwaitRotate) /\
  (forall id at_ e,
     where_is p id = Some at_ -> at_ = AwaitRotate \/ at_ = AwaitLogin \/ at_ = AwaitTrigger ->
     let p' := resume p id (Rejected e) in
     runLock p' = false /\ replies p' = replies p ++ [(id, {| ok := false; message := e |})]) /\
  (forall id res_ok s,
     where_is p id = Some (AwaitJson res_ok) ->
     let p' := resume p id s in
     runLock p' = false /\
     replies p' = replies p ++
       [(id, if res_ok then {| ok := true; message := "Run started" |}
             else {| ok := false; message := "Export trigger failed" |})]).
Proof.
  intros p. pose proof (run_lock ticks) as Hinv. fold p in Hinv. unfold run_in_progress.
  destruct Hinv as [(Hl & id0 & a & Hs & Hid)|(Hl & Hs)].
  - split; [rewrite Hl, Hs; by split|].
    split; [|split].
    + intros id at_ s Hw Hended. unfold resume in *. rewrite Hw in *.
      rewrite (where_is_one p id0 a id Hs) in Hw.
      case_bool_decide as Heq; [|done]. injection Hw as <-. subst id0.
      destruct (continue_one p id a s Hs Hl) as [(Hl' & a' & Hs')|(Hl' & Hs' & Hr)].
      * rewrite (where_is_one _ id a' id Hs') in Hended.
        by rewrite bool_decide_eq_true_2 in Hended.
      * split; [done|]. split; [done|]. split; [done|].
        intros source. unfold doRun. rewrite Hl'. unfold where_is. cbn [suspended].
        rewrite Hs'. simpl. by rewrite bool_decide_eq_true_2.
    + intros id at_ e Hw Hat. unfold resume. rewrite Hw.
      by destruct Hat as [-> |[-> | ->]].
    + intros id res_ok s Hw. unfold resume. rewrite Hw.
      by destruct res_ok, s.
  - split; [rewrite Hl, Hs; by split|].
    unfold where_is. rewrite Hs. simpl. by repeat split.
Qed.

Lemma C10_lock_released_when_run_ends_witness :
  let p := run [Call Interval; Settle 0 (Resolved true); Call Manual] in
  let p' := resume p 0 (Rejected "Email field not found") in
  runLock p' = false /\ suspended p' = [] /\
  (exists r, replies p' = replies p ++ [(0, r)]) /\
  forall source, where_is (doRun p' source) (calls p') = Some AwaitRotate.
Proof.
  intros p p'.
  destruct (C10_lock_released_when_run_ends
              [Call Interval; Settle 0 (Resolved true); Call Manual]) as (_ & H & _).
  apply (H 0 AwaitLogin (Rejected "Email field not found")); vm_compute; reflexivity.
Defined.

(** A whole run, with a trigger refused in the middle of it. *)
Example run_to_the_end :
  run [Call Startup; Settle 0 (Resolved true); Settle 0 (Resolved true);
       Call Interval;
       Settle 0 (Rejected "ENOENT"); Settle 0 (Rejected "ECONNREFUSED");
       Settle 0 (Resolved true); Settle 0 (Resolved true); Call Manual]
  = {| runLock := true;
       suspended := [(2, AwaitRotate)];
       calls := 3;
       logins := 1;
       replies := [(1, {| ok := false; message := "Run in progress" |});
                   (0, {| ok := true; message := "Run started" |})] |}.
Proof. vm_compute. reflexivity. Qed.

(** A refused call leaves the lock with the run that holds it. *)
Example refused_call_keeps_lock :
  runLock (run [Call Startup; Call Manual]) = true.
Proof. reflexivity. Qed.

(** *** Rotation of the session files *)

Lemma entry_of_plain (dir p f : string) :
  entry_of dir p = Some f -> Str.includes "/" f = false.
Proof.
  unfold entry_of. destruct (Str.startsWith _ p); [|done].
  destruct (bool_decide _); [done|]. simpl.
  destruct (Str.includes "/" _) eqn:H; [done|]. by intros [= <-].
Qed.

Lemma readdir_plain (fs : FileSystem) (dir : string) (names : list string) (f : string) :
  readdir fs dir = Ok names -> f ∈ names -> Str.includes "/" f = false.
Proof.
  unfold readdir. destruct (fs !! dir) as [[]|]; try done.
  intros [= <-] (kv & _ & H)%list_elem_of_omap. by apply entry_of_plain in H.
Qed.

Lemma stat_all_names (fs : FileSystem) (tmp : string) (files : list string)
    (stats : list (string * Z)) :
  stat_all fs tmp files = Ok stats -> map fst stats = files.
Proof.
  revert stats. induction files as [|f files IH]; intros stats; simpl.
  - by intros [= <-].
  - destruct (stat fs (join tmp f)); [|done]. simpl.
    destruct (stat_all fs tmp files) as [rest|]; [|done]. simpl.
    intros [= <-]. simpl. by rewrite (IH rest).
Qed.

Lemma In_insert_sorted {A} (cmp : A -> A -> Z) (x y : A) (l : list A) :
  In x (insert_sorted cmp y l) <-> x = y \/ In x l.
Proof.
  induction l as [|z l IH]; simpl; [intuition congruence|].
  destruct (cmp z y <=? 0)%Z; simpl; [rewrite IH|]; intuition congruence.
Qed.

Lemma In_sort {A} (cmp : A -> A -> Z) (x : A) (l : list A) :
  In x (sort cmp l) <-> In x l.
Proof.
  unfold sort. assert (forall acc,
    In x (fold_left (fun acc y => insert_sorted cmp y acc) l acc) <-> In x acc \/ In x l) as H.
  { induction l as [|y l IH]; intros acc; simpl; [tauto|].
    rewrite IH, In_insert_sorted. intuition congruence. }
  rewrite H. simpl. tauto.
Qed.

Lemma In_skipn {A} (n : nat) (x : A) (l : list A) : In x (skipn n l) -> In x l.
Proof. intros H. rewrite <- (firstn_skipn n l). apply in_or_app. by right. Qed.

(** What is not among the doomed names stays as it is. *)
Lemma unlink_each_other (fs : FileSystem) (tmp p : string) (doomed : list (string * Z)) :
  (forall ft, In ft doomed -> join tmp (fst ft) <> p) ->
  unlink_each fs tmp doomed !! p = fs !! p.
Proof.
  unfold unlink_each. revert fs. induction doomed as [|ft doomed IH]; intros fs H; [done|].
  simpl. rewrite IH by (intros; apply H; by right).
  unfold unlink. destruct (fs !! join tmp (fst ft)) as [[]|]; try done.
  apply lookup_delete_ne, H. by left.
Qed.

Lemma slashes_append (a b : string) : slashes (a +:+ b) = slashes a + slashes b.
Proof. induction a as [|c a IH]; simpl; [done|]. rewrite IH. lia. Qed.

Lemma slashes_plain (f : string) : Str.includes "/" f = false -> slashes f = 0.
Proof.
  induction f as [|c f IH]; [done|]. intros Hf. cbn [slashes].
  case_bool_decide as Hc.
  - subst c. by vm_compute in Hf.
  - cbn [Str.includes] in Hf. apply orb_false_iff in Hf as [_ Hf]. by rewrite IH.
Qed.

(** Both directories [ensureTmpDir] can give lie below the root. *)
Lemma ensureTmpDir_deep (usable : string -> bool) (cwd base : string) :
  Login.ensureTmpDir usable cwd = Ok base -> 2 <= slashes base.
Proof.
  unfold Login.ensureTmpDir. rewrite !filter_cons, filter_nil.
  destruct (decide (Is_true (usable "/tmp/pwc"))).
  - intros [= <-]. simpl. lia.
  - destruct (decide (Is_true (usable (cwd +:+ "/tmp/pwc")))); [|done].
    intros [= <-]. rewrite slashes_append. simpl. lia.
Qed.

(** A session file lies deeper than anything [rotateSessions] names. *)
Lemma session_path_is_deeper (base sid f : string) :
  2 <= slashes base -> Str.includes "/" f = false ->
  join "/tmp" f <> Login.getSessionPath base sid.
Proof.
  intros Hbase Hf E. apply (f_equal slashes) in E.
  unfold join, Login.getSessionPath in E.
  rewrite !slashes_append, (slashes_plain f Hf) in E. simpl in E. lia.
Qed.

(** C5, where the code departs from it.  [rotateSessions] lists [/tmp];
    the session files are written one directory below, in the
    directory [ensureTmpDir] gives ([/tmp/pwc], or [tmp/pwc] under the
    working directory).  Whatever their number and age it leaves every
    one of them in place: of five session files with distinct
    modification times all five remain, not the three newest. *)
Theorem C5_session_files_are_never_rotated :
  (forall (fs : FileSystem) (usable : string -> bool) (cwd base sid : string),
     Login.ensureTmpDir usable cwd = Ok base ->
     snd (rotateSessions fs) !! Login.getSessionPath base sid
     = fs !! Login.getSessionPath base sid) /\
  rotateSessions five_sessions = (Ok [], five_sessions).
Proof.
  split; [|vm_compute; reflexivity].
  intros fs usable cwd base sid Hbase. apply ensureTmpDir_deep in Hbase.
  unfold rotateSessions.
  set (names := match readdir fs "/tmp" with Ok names => names | Err _ => [] end).
  set (files := filter _ names).
  destruct (stat_all fs "/tmp" files) as [stats|] eqn:Hstats; [|done].
  cbn [snd]. apply unlink_each_other. intros ft Hin.
  apply session_path_is_deeper; [done|].
  apply In_skipn, In_sort in Hin.
  assert (fst ft ∈ files) as Hfile.
  { rewrite <- (stat_all_names _ _ _ _ Hstats). apply list_elem_of_In. by apply in_map. }
  apply list_elem_of_filter in Hfile as [_ Hname]. subst names.
  destruct (readdir fs "/tmp") as [names|] eqn:Hread.
  - by apply (readdir_plain fs "/tmp" names).
  - by apply elem_of_nil in Hname.
Qed.

Lemma C5_session_files_are_never_rotated_witness :
  snd (rotateSessions five_sessions) !! Login.getSessionPath "/tmp/pwc" "s1"
  = Some (File 1000%Z).
Proof.
  destruct C5_session_files_are_never_rotated as [H _].
  rewrite (H five_sessions (fun _ => true) "/home/runner/app" "/tmp/pwc" "s1" eq_refl).
  vm_compute. reflexivity.
Defined.

(** *** The sort and the cut *)

Lemma insert_sorted_perm {A} (cmp : A -> A -> Z) (x : A) (l : list A) :
  Permutation (insert_sorted cmp x l) (x :: l).
Proof.
  induction l as [|y l IH]; simpl; [done|].
  destruct (cmp y x <=? 0)%Z; [|done].
  rewrite IH. apply perm_swap.
Qed.

Lemma sort_perm {A} (cmp : A -> A -> Z) (l : list A) : Permutation (sort cmp l) l.
Proof.
  unfold sort. assert (forall acc,
    Permutation (fold_left (fun acc y => insert_sorted cmp y acc) l acc) (acc ++ l)) as H.
  { induction l as [|y l IH]; intros acc; simpl; [by rewrite app_nil_r|].
    rewrite IH, insert_sorted_perm. simpl. apply Permutation_middle. }
  apply (H []).
Qed.

Lemma insert_newer_first (x : string * Z) (l : list (string * Z)) :
  StronglySorted newer_first l ->
  StronglySorted newer_first (insert_sorted (fun a b => (snd b - snd a)%Z) x l).
Proof.
  induction 1 as [|y l Hl IH Hy]; simpl; [repeat constructor|].
  destruct (snd x - snd y <=? 0)%Z eqn:Hcmp.
  - apply Z.leb_le in Hcmp. constructor; [done|].
    apply List.Forall_forall. intros z Hz%In_insert_sorted.
    destruct Hz as [-> |Hz]; [unfold newer_first; lia|].
    by apply (proj1 (List.Forall_forall _ _) Hy).
  - apply Z.leb_gt in Hcmp. constructor; [by constructor|].
    constructor; [unfold newer_first; lia|].
    apply List.Forall_forall. intros z Hz.
    pose proof (proj1 (List.Forall_forall _ _) Hy z Hz) as Hzy.
    unfold newer_first in *. lia.
Qed.

(** [sorted.sort((a, b) => b.t - a.t)] lists the files newest first. *)
Lemma sort_newer_first (stats : list (string * Z)) :
  StronglySorted newer_first (sort (fun a b => (snd b - snd a)%Z) stats).
Proof.
  unfold sort. assert (forall acc, StronglySorted newer_first acc ->
    StronglySorted newer_first
      (fold_left (fun acc y => insert_sorted (fun a b => (snd b - snd a)%Z) y acc) stats acc)) as H.
  { induction stats as [|y l IH]; intros acc Hacc; simpl; [done|].
    by apply IH, insert_newer_first. }
  apply H. constructor.
Qed.

Lemma sorted_app_order {A} (R : A -> A -> Prop) (l1 l2 : list A) (x y : A) :
  StronglySorted R (l1 ++ l2) -> In x l1 -> In y l2 -> R x y.
Proof.
  induction l1 as [|z l1 IH]; simpl; [done|].
  intros Hs [-> |Hx] Hy; apply StronglySorted_inv in Hs as [Hs Hz].
  - apply (proj1 (List.Forall_forall _ _) Hz). apply in_or_app. by right.
  - by apply IH.
Qed.

(** What [rotateSessions] unlinks is no newer than any of the three
    files it keeps, and it unlinks only when it keeps three. *)
Lemma kept_are_newest (stats : list (string * Z)) (kept doomed : string * Z) :
  let sorted := sort (fun a b => (snd b - snd a)%Z) stats in
  In doomed (skipn 3 sorted) ->
  length (firstn 3 sorted) = 3 /\
  (In kept (firstn 3 sorted) -> (snd doomed <= snd kept)%Z).
Proof.
  intros sorted Hd. split.
  - apply firstn_length_le.
    destruct (le_lt_dec 3 (length sorted)) as [|Hlt]; [done|].
    rewrite skipn_all2 in Hd by lia. done.
  - intros Hk.
    apply (sorted_app_order newer_first (firstn 3 sorted) (skipn 3 sorted) kept doomed);
      [|done..].
    rewrite firstn_skipn. apply sort_newer_first.
Qed.

(** The sort and the cut themselves do what is meant, on files that
    lie in [/tmp] itself: the three newest are kept. *)
Example five_in_tmp_three_stay :
  rotateSessions five_in_tmp
  = (Ok ["e.json"; "d.json"; "c.json"],
     list_to_map
       [ ("/tmp", Dir 6000%Z);
         ("/tmp/c.json", File 3000%Z);
         ("/tmp/e.json", File 5000%Z);
         ("/tmp/d.json", File 4000%Z);
         ("/tmp/notes.txt", File 500%Z) ]).
Proof. vm_compute. reflexivity. Qed.

(** * Further properties *)

(** ** Paths *)

Lemma append_empty_r (s : string) : s +:+ EmptyString = s.
Proof. induction s as [|c s IH]; [done|]. simpl. by rewrite IH. Qed.

Lemma append_cancel_l (p a b : string) : p +:+ a = p +:+ b -> a = b.
Proof. induction p as [|c p IH]; [done|]. simpl. intros [= H]. by apply IH. Qed.

Lemma includes_slash_cons (c : ascii) (s : string) :
  Str.includes "/" (String c s) = Path.is_slash c || Str.includes "/" s.
Proof.
  cbn [Str.includes Str.startsWith]. unfold Path.is_slash.
  destruct (ascii_dec "/" c) as [<-|Hc]; [done|].
  destruct (Ascii.eqb_spec c "/") as [->|_]; done.
Qed.

Lemma includes_slash_append (a b : string) :
  Str.includes "/" (a +:+ b) = Str.includes "/" a || Str.includes "/" b.
Proof.
  induction a as [|c a IH]; [done|].
  change (String c a +:+ b) with (String c (a +:+ b)).
  by rewrite !includes_slash_cons, IH, orb_assoc.
Qed.

Lemma split_not_nil (path : string) : Path.split path <> [].
Proof.
  induction path as [|c path IH]; [done|]. simpl.
  destruct (Path.is_slash c); [done|]. by destruct (Path.split path).
Qed.

Lemma split_plain (segment : string) :
  Str.includes "/" segment = false -> Path.split segment = [segment].
Proof.
  induction segment as [|c s IH]; [done|].
  rewrite includes_slash_cons. intros [Hc Hs]%orb_false_elim.
  simpl. by rewrite Hc, (IH Hs).
Qed.

Lemma split_append (a b : string) :
  Path.split (a +:+ "/" +:+ b) = Path.split a ++ Path.split b.
Proof.
  induction a as [|c a IH]; [done|].
  change (String c a +:+ "/" +:+ b) with (String c (a +:+ "/" +:+ b)).
  cbn [Path.split]. rewrite IH.
  destruct (Path.is_slash c); [done|].
  pose proof (split_not_nil a). by destruct (Path.split a).
Qed.

Lemma step_file_name (allowAboveRoot : bool) (res : list string) (segment : string) :
  file_name segment -> Path.step allowAboveRoot res segment = segment :: res.
Proof.
  intros (H1 & H2 & H3 & _). unfold Path.step.
  rewrite bool_decide_eq_false_2 by tauto. by rewrite bool_decide_eq_false_2.
Qed.

Lemma join_snoc (parts : list string) (segment : string) :
  Str.join "/" (parts ++ [segment])
  = match parts with
    | [] => segment
    | _ => Str.join "/" parts +:+ "/" +:+ segment
    end.
Proof.
  induction parts as [|p parts IH]; [done|].
  destruct parts as [|q parts]; [done|].
  change ((p :: q :: parts) ++ [segment]) with (p :: ((q :: parts) ++ [segment])).
  cbn [Str.join app] in *. rewrite IH. by rewrite !append_assoc.
Qed.

Lemma endsWith_slash_append (a b : string) :
  b <> EmptyString -> Str.endsWith "/" (a +:+ b) = Str.endsWith "/" b.
Proof.
  intros Hb. induction a as [|c a IH]; [done|].
  change (String c a +:+ b) with (String c (a +:+ b)). cbn [Str.endsWith].
  destruct (string_dec (String c (a +:+ b)) "/") as [E|_]; [|done].
  injection E as _ E. destruct a; [|done]. by destruct b.
Qed.

Lemma endsWith_slash_plain (s : string) :
  Str.includes "/" s = false -> Str.endsWith "/" s = false.
Proof.
  induction s as [|c s IH]; [done|].
  rewrite includes_slash_cons. intros [Hc Hs]%orb_false_elim.
  cbn [Str.endsWith]. destruct (string_dec (String c s) "/") as [[= -> _]|_]; [done|].
  by apply IH.
Qed.

Lemma startsWith_slash_plain (s : string) :
  Str.includes "/" s = false -> Str.startsWith "/" s = false.
Proof. destruct s; [done|]. cbn [Str.includes]. by intros [? _]%orb_false_elim. Qed.

Lemma append_not_empty_r (a b : string) : b <> EmptyString -> a +:+ b <> EmptyString.
Proof. intros Hb. destruct a; [done|]. done. Qed.

(** [path.join] of a directory and a file name: the directory
    normalized, and the name after it. *)
Lemma join_file (dir segment : string) :
  file_name segment -> Path.join [dir; segment] = in_directory dir +:+ segment.
Proof.
  intros Hfile. pose proof Hfile as (Hne & _ & _ & Hplain).
  unfold Path.join. cbn [List.filter].
  replace (String.eqb segment EmptyString) with false by (by destruct segment).
  cbn [negb]. destruct dir as [|c dir].
  - cbn [String.eqb negb Str.join]. unfold Path.normalize.
    rewrite bool_decide_eq_false_2 by done.
    rewrite (startsWith_slash_plain _ Hplain), (endsWith_slash_plain _ Hplain).
    unfold Path.normalizeString. rewrite (split_plain _ Hplain).
    cbn [fold_left negb]. rewrite (step_file_name _ _ _ Hfile). cbn [rev app Str.join].
    rewrite bool_decide_eq_false_2 by done.
    by rewrite append_empty_r.
  - cbn [String.eqb negb]. change (Str.join "/" [String c dir; segment])
      with (String c dir +:+ "/" +:+ segment).
    unfold Path.normalize, in_directory.
    rewrite bool_decide_eq_false_2 by done.
    change (Str.startsWith "/" (String c dir +:+ "/" +:+ segment))
      with (Str.startsWith "/" (String c dir)).
    set (isAbsolute := Str.startsWith "/" (String c dir)).
    rewrite <- append_assoc, endsWith_slash_append by done.
    rewrite (endsWith_slash_plain _ Hplain). rewrite append_assoc.
    unfold Path.normalizeString. rewrite split_append, (split_plain _ Hplain).
    rewrite fold_left_app. cbn [fold_left].
    set (res := fold_left _ (Path.split (String c dir)) []).
    rewrite (step_file_name _ _ _ Hfile). cbn [rev]. rewrite join_snoc.
    assert (forall l : list string, rev l = [] -> l = []) as Hrev.
    { intros l H. apply (f_equal (@rev string)) in H. by rewrite rev_involutive in H. }
    destruct res as [|r res'] eqn:Hres.
    + cbn [rev]. rewrite bool_decide_eq_false_2 by done.
      by rewrite !append_empty_r.
    + destruct (rev (r :: res')) as [|r0 rest] eqn:Hr; [by apply Hrev in Hr|].
      rewrite bool_decide_eq_false_2.
      * by rewrite append_empty_r, !append_assoc.
      * rewrite <- append_assoc. by apply append_not_empty_r.
Qed.

(** For a directory written the normal way that is the directory and
    a slash. *)
Lemma in_directory_normal (dir : string) :
  normal_directory dir -> in_directory dir = dir +:+ "/".
Proof.
  intros (Hnorm & Hdot & Hend). unfold in_directory. unfold Path.normalize in Hnorm.
  case_bool_decide as Hempty; [by subst dir|].
  rewrite Hend in Hnorm. unfold Path.normalizeString in Hnorm.
  set (isAbsolute := Str.startsWith "/" dir) in *.
  set (res := fold_left _ (Path.split dir) []) in *.
  case_bool_decide as Hres.
  - destruct isAbsolute; [|done]. subst dir. done.
  - destruct res as [|r res'] eqn:Hr; [done|].
    rewrite append_empty_r in Hnorm. rewrite <- append_assoc. by rewrite Hnorm.
Qed.

Lemma file_name_json (name : string) :
  Str.includes "/" name = false -> file_name (name +:+ ".json").
Proof.
  intros Hplain.
  assert (5 <= String.length (name +:+ ".json")) as Hlen
    by (rewrite length_append; simpl; lia).
  repeat split.
  - intros E. rewrite E in Hlen. simpl in Hlen. lia.
  - intros E. rewrite E in Hlen. simpl in Hlen. lia.
  - intros E. rewrite E in Hlen. simpl in Hlen. lia.
  - by rewrite includes_slash_append, Hplain.
Qed.

(** For a session id without a slash and a directory written the
    normal way, [path.join(baseDir, `${sessionId}.json`)] is the
    concatenation [getSessionPath], and likewise the path of the API
    map. *)
Lemma getSessionPath_is_join (baseDir sessionId : string) :
  normal_directory baseDir -> Str.includes "/" sessionId = false ->
  Path.join [baseDir; sessionId +:+ ".json"] = Login.getSessionPath baseDir sessionId.
Proof.
  intros Hdir Hid. rewrite join_file by (by apply file_name_json).
  rewrite (in_directory_normal _ Hdir). unfold Login.getSessionPath.
  by rewrite !append_assoc.
Qed.

Lemma api_map_path_plain (outDir sessionId : string) :
  normal_directory outDir -> Str.includes "/" sessionId = false ->
  DiscoverApi.api_map_path outDir sessionId
  = outDir +:+ "/pwc_api_map_" +:+ sessionId +:+ ".json".
Proof.
  intros Hdir Hid. unfold DiscoverApi.api_map_path.
  rewrite <- append_assoc.
  rewrite join_file.
  - rewrite (in_directory_normal _ Hdir). by rewrite !append_assoc.
  - apply file_name_json. by rewrite includes_slash_append, Hid.
Qed.

Lemma both_tmp_directories_are_normal :
  normal_directory "/tmp/pwc" /\ normal_directory "/home/runner/app/tmp/pwc".
Proof. by vm_compute. Qed.

(** ** The endpoint map, group by group *)

Lemma classify_entries (g : Group) (c : Collector) (info : EndpointInfo) (k : string) :
  entries g (apiMap (classify c info)) !! k
  = later (goes_to g k) (entries g (apiMap c) !! k) info.
Proof.
  unfold classify, later, goes_to, key_of, group_of.
  destruct (is_export _); [|destruct (is_candidate _); [|destruct (is_document _)]];
    destruct g; cbn -[export_key];
    rewrite ?lookup_insert, ?lookup_empty; try done;
    case_decide; rewrite ?bool_decide_eq_true_2, ?bool_decide_eq_false_2 by done; try done.
Qed.

Lemma with_requests_entries (g : Group) (c : Collector) (set : list string) :
  entries g (apiMap (with_requests c set)) = entries g (apiMap c).
Proof. by destruct g. Qed.

(** A group after more requests: for each key, the last record sent
    there, or what was there before. *)
Lemma observe_entries (URL : string -> option Location) (g : Group) (c : Collector)
    (requests : list Request) (k : string) :
  entries g (apiMap (observe URL c requests)) !! k
  = fold_left (later (goes_to g k)) (records URL requests) (entries g (apiMap c) !! k).
Proof.
  revert c. induction requests as [|r rs IH]; intros c; [done|].
  change (observe URL c (r :: rs)) with (observe URL (on_request URL c r) rs).
  rewrite IH. unfold records. cbn [omap list_omap]. unfold on_request.
  destruct (info_of URL r) as [info|]; [|done]. cbn [fold_left].
  by rewrite classify_entries, with_requests_entries.
Qed.

Lemma fold_later_result {A} (p : A -> bool) (l : list A) (acc : option A) (x : A) :
  fold_left (later p) l acc = Some x ->
  (In x l /\ p x = true) \/ acc = Some x.
Proof.
  revert acc. induction l as [|y l IH]; intros acc H; [by right|].
  simpl in H. apply IH in H as [[Hin Hp]|H]; [left; split; [by right|done]|].
  unfold later in H. destruct (p y) eqn:Hy; [|by right].
  injection H as ->. left. split; [by left|done].
Qed.

Lemma attach_entries (g : Group) (sessionId now k : string) :
  entries g (apiMap (attach sessionId now)) !! k = None.
Proof. destruct g; apply lookup_empty. Qed.

(** X1. Last writer wins, key by key.  After a session, what a group
    holds under a key is the record of the last request that the
    handler sent to that group under that key; the key is absent when
    there was no such request. *)
Theorem group_holds_last_record_per_key
    (URL : string -> option Location) (sessionId now : string)
    (requests : list Request) (g : Group) (k : string) :
  entries g (apiMap (observe URL (attach sessionId now) requests)) !! k
  = last_such (goes_to g k) (records URL requests).
Proof. unfold last_such. by rewrite observe_entries, attach_entries. Qed.

(** With the same tab in two paths, the second request replaces the first. *)
Example later_export_replaces_earlier :
  let first := {| request_url := "https://portal.example/api/export/Draft?fmt=xlsx";
                  request_method := "GET" |} in
  let second := {| request_url := "https://portal.example/api/v2/draft/download";
                   request_method := "POST" |} in
  exportEndpoints (apiMap (observe serialised_URL (attach "s1" "t0") [first; second])) !! "draft"
  = Some (Info "https://portal.example/api/v2/draft/download" "POST" "/api/v2/draft/download" "").
Proof. vm_compute. reflexivity. Qed.

(** X2. Every entry of a group is a record that belongs there, stored
    under its own key: an export record under its tab word or path, a
    candidate or document record under its path.  Hence no record is
    ever in two groups. *)
Theorem groups_are_well_keyed_and_disjoint
    (URL : string -> option Location) (sessionId now : string) (requests : list Request) :
  let m := apiMap (observe URL (attach sessionId now) requests) in
  (forall g k info, entries g m !! k = Some info -> group_of info = Some g /\ key_of info = k) /\
  (forall g1 g2 k1 k2 info,
     entries g1 m !! k1 = Some info -> entries g2 m !! k2 = Some info ->
     g1 = g2 /\ k1 = k2).
Proof.
  intros m.
  assert (forall g k info, entries g m !! k = Some info ->
            group_of info = Some g /\ key_of info = k) as Hkeyed.
  { intros g k info H. subst m. rewrite observe_entries, attach_entries in H.
    apply fold_later_result in H as [[_ Hp]|H]; [|done].
    unfold goes_to in Hp. apply andb_true_iff in Hp as [H1 H2].
    by apply bool_decide_eq_true in H1, H2. }
  split; [exact Hkeyed|].
  intros g1 g2 k1 k2 info H1 H2.
  apply Hkeyed in H1 as [H1 <-]. apply Hkeyed in H2 as [H2 <-].
  split; [congruence|done].
Qed.

(** X3. In the document [saveApiMap] hands to [writeFile], whatever a
    group holds is in the [endpoints] list as well. *)
Theorem grouped_records_are_listed
    (URL : string -> option Location) (writeFile : string -> ApiMap -> Result unit)
    (outDir sessionId now : string) (requests : list Request) :
  let m := apiMap (fst (saveApiMap writeFile outDir
                          (observe URL (attach sessionId now) requests))) in
  forall g k info, entries g m !! k = Some info -> info ∈ endpoints m.
Proof.
  intros m g k info H. subst m. rewrite saveApiMap_observe in *. cbn [fst apiMap] in *.
  assert (entries g (apiMap (observe URL (attach sessionId now) requests)) !! k = Some info)
    as H' by (by destruct g).
  rewrite observe_entries, attach_entries in H'.
  apply fold_later_result in H' as [[Hin _]|H']; [|done].
  cbn [with_endpoints endpoints]. apply first_seen_elem. by apply list_elem_of_In.
Qed.

Lemma grouped_records_are_listed_witness :
  let request := {| request_url := "https://portal.example/api/export/draft";
                    request_method := "POST" |} in
  let info := Info "https://portal.example/api/export/draft" "POST" "/api/export/draft" "" in
  let m := apiMap (fst (saveApiMap (fun _ _ => Err "ENOSPC") "/tmp/pwc"
                          (observe serialised_URL (attach "s1" "t0") [request]))) in
  info ∈ endpoints m.
Proof.
  intros request info m.
  apply (grouped_records_are_listed serialised_URL (fun _ _ => Err "ENOSPC")
           "/tmp/pwc" "s1" "t0" [request] Export "draft" info).
  vm_compute. reflexivity.
Defined.

(** X4. Traffic without an API marker leaves no trace: a session
    observed with it and the same session without it end in the same
    collector. *)
Theorem other_traffic_is_ignored
    (URL : string -> option Location) (c : Collector) (requests : list Request) :
  observe URL c (filter (fun r => Is_true (is_api (request_url r))) requests)
  = observe URL c requests.
Proof.
  revert c. induction requests as [|r rs IH]; intros c; [done|].
  rewrite filter_cons.
  change (observe URL c (r :: rs)) with (observe URL (on_request URL c r) rs).
  destruct (decide (Is_true (is_api (request_url r)))) as [Hapi|Hapi].
  - change (observe URL c (r :: filter _ rs))
      with (observe URL (on_request URL c r) (filter (fun r => Is_true (is_api (request_url r))) rs)).
    apply IH.
  - rewrite IH. f_equal. unfold on_request, info_of.
    apply Is_true_false in Hapi. rewrite Hapi. by case_bool_decide.
Qed.

Lemma classify_timestamp (c : Collector) (info : EndpointInfo) :
  timestamp (apiMap (classify c info)) = timestamp (apiMap c).
Proof.
  unfold classify. destruct (is_export _); [done|].
  destruct (is_candidate _); [done|]. by destruct (is_document _).
Qed.

Lemma observe_timestamp (URL : string -> option Location) (c : Collector)
    (requests : list Request) :
  timestamp (apiMap (observe URL c requests)) = timestamp (apiMap c).
Proof.
  revert c. induction requests as [|r rs IH]; intros c; [done|].
  change (observe URL c (r :: rs)) with (observe URL (on_request URL c r) rs).
  rewrite IH. unfold on_request.
  destruct (info_of URL r); [|done]. by rewrite classify_timestamp.
Qed.

(** X5. [saveApiMap] fails only when the write does.  Every member of
    the [Set] parses back, so the [JSON.parse] step cannot throw on
    what the handler collected; the promise resolves to the path when
    [writeFile] resolves and rejects with its error otherwise.  The
    path is [path.join(outDir, `pwc_api_map_${sessionId}.json`)]: for
    a session id without a slash and a directory written the normal
    way, [<outDir>/pwc_api_map_<sessionId>.json].  The document handed
    to [writeFile] has the session id and the time of attachment, the
    three groups as collected, and as [endpoints] the records of the
    API requests in the order in which each was first seen. *)
Theorem saveApiMap_settles_as_the_write
    (URL : string -> option Location) (writeFile : string -> ApiMap -> Result unit)
    (outDir sessionId now : string) (requests : list Request) :
  let c := observe URL (attach sessionId now) requests in
  let file := Path.join [outDir; "pwc_api_map_" +:+ sessionId +:+ ".json"] in
  let m := apiMap (fst (saveApiMap writeFile outDir c)) in
  mapM JSON_parse (apiRequests c) = Some (endpoints m) /\
  snd (saveApiMap writeFile outDir c)
  = match writeFile file m with Ok _ => Ok file | Err e => Err e end /\
  (normal_directory outDir -> Str.includes "/" sessionId = false ->
   file = outDir +:+ "/pwc_api_map_" +:+ sessionId +:+ ".json") /\
  session_id m = sessionId /\
  timestamp m = now /\
  (forall g, entries g m = entries g (apiMap c)) /\
  endpoints m = first_seen (records URL requests).
Proof.
  intros c file m. subst c file m. rewrite saveApiMap_observe. cbn [fst snd apiMap].
  cbn [with_endpoints session_id timestamp endpoints].
  rewrite observe_session, observe_timestamp.
  split.
  { rewrite (observe_requests URL (attach sessionId now) requests []); [|done].
    apply mapM_fmap_Some, JSON_round_trip. }
  split; [done|]. split; [apply api_map_path_plain|].
  split; [done|]. split; [done|]. split; [by intros []|done].
Qed.

Lemma saveApiMap_settles_as_the_write_witness :
  Path.join ["/tmp/pwc"; "pwc_api_map_" +:+ "3f0c9a52-7b1e-4c0d-9a57-2f6c1d0e8b11" +:+ ".json"]
  = "/tmp/pwc" +:+ "/pwc_api_map_" +:+ "3f0c9a52-7b1e-4c0d-9a57-2f6c1d0e8b11" +:+ ".json".
Proof.
  destruct (saveApiMap_settles_as_the_write serialised_URL (fun _ _ => Ok tt)
              "/tmp/pwc" "3f0c9a52-7b1e-4c0d-9a57-2f6c1d0e8b11" "t0" [])
    as (_ & _ & H & _).
  apply H; [by vm_compute|vm_compute; reflexivity].
Defined.

(** The path is normalized: a session id with dot segments names a
    file elsewhere, and a write that fails rejects the promise. *)
Example api_map_of_a_dotted_session :
  api_map_path "/no/such/dir" "a/../b" = "/no/such/dir/b.json" /\
  snd (saveApiMap (fun _ _ => Err "ENOENT") "/no/such/dir" (attach "a/../b" "t0"))
  = Err "ENOENT".
Proof. vm_compute. done. Qed.

(** ** File names of a session *)

Lemma append_cancel_r (a b t : string) : a +:+ t = b +:+ t -> a = b.
Proof.
  revert b. induction a as [|x a IH]; intros b H.
  - destruct b as [|y b]; [done|]. apply (f_equal String.length) in H.
    simpl in H. rewrite length_append in H. lia.
  - destruct b as [|y b].
    + apply (f_equal String.length) in H. simpl in H. rewrite length_append in H. lia.
    + simpl in H. injection H as -> H. by rewrite (IH b H).
Qed.

(** X6. For session ids without a slash, as [uuidv4()] makes them:
    within one directory, however it is written, distinct ids give
    distinct session-state files and distinct API-map files, and the
    session file of an id without underscore is no API-map file.  In a
    directory written the normal way the session file is
    [<dir>/<id>.json]. *)
Theorem session_files_do_not_collide (dir s1 s2 : string) :
  Str.includes "/" s1 = false -> Str.includes "/" s2 = false ->
  (Path.join [dir; s1 +:+ ".json"] = Path.join [dir; s2 +:+ ".json"] -> s1 = s2) /\
  (api_map_path dir s1 = api_map_path dir s2 -> s1 = s2) /\
  (Str.includes "_" s1 = false ->
   Path.join [dir; s1 +:+ ".json"] <> api_map_path dir s2) /\
  (normal_directory dir ->
   Path.join [dir; s1 +:+ ".json"] = Login.getSessionPath dir s1).
Proof.
  intros Hs1 Hs2.
  assert (forall s, Str.includes "/" s = false ->
            api_map_path dir s = in_directory dir +:+ ("pwc_api_map_" +:+ s) +:+ ".json")
    as Hmap.
  { intros s Hs. unfold api_map_path. rewrite <- append_assoc. apply join_file.
    apply file_name_json. by rewrite includes_slash_append, Hs. }
  rewrite (Hmap s1 Hs1), (Hmap s2 Hs2), !join_file by (by apply file_name_json).
  split; [|split; [|split]].
  - intros H%append_cancel_l. by apply append_cancel_r in H.
  - intros H%append_cancel_l. apply append_cancel_r, String.app_inj in H. exact H.
  - intros Hs H%append_cancel_l. apply append_cancel_r in H. subst s1.
    pose proof (includes_append "_" "pwc" ("api_map_" +:+ s2)) as Hin.
    cbn [String.append] in Hin, Hs. congruence.
  - intros Hdir. rewrite (in_directory_normal _ Hdir). unfold Login.getSessionPath.
    by rewrite !append_assoc.
Qed.

Lemma session_files_do_not_collide_witness :
  Path.join ["/tmp/pwc"; "3f0c9a52-7b1e-4c0d-9a57-2f6c1d0e8b11" +:+ ".json"]
  <> api_map_path "/tmp/pwc" "3f0c9a52-7b1e-4c0d-9a57-2f6c1d0e8b11".
Proof.
  destruct (session_files_do_not_collide "/tmp/pwc" "3f0c9a52-7b1e-4c0d-9a57-2f6c1d0e8b11"
              "3f0c9a52-7b1e-4c0d-9a57-2f6c1d0e8b11") as (_ & _ & H & _);
    [vm_compute; reflexivity..|].
  apply H. vm_compute. reflexivity.
Defined.

(** With a slash in the id the files do collide: [path.join]
    normalizes. *)
Example dotted_ids_collide :
  Path.join ["/tmp/pwc"; "./x" +:+ ".json"] = Path.join ["/tmp/pwc"; "x" +:+ ".json"] /\
  api_map_path "/tmp/pwc" "a/../b" = Path.join ["/tmp/pwc"; "b" +:+ ".json"].
Proof. vm_compute. done. Qed.

(** ** The one-time code, part by part *)

Import Login.

(** X7. Whatever [getGmailOtp] returns is a text of exactly six decimal
    digits. *)
Theorem otp_is_six_digits (box : Mailbox) (otp : string) :
  getGmailOtp box = Ok otp ->
  String.length otp = 6 /\ Str.all Str.is_digit otp = true.
Proof. apply getGmailOtp_six_digits. Qed.

Lemma otp_is_six_digits_witness :
  String.length "482913" = 6 /\ Str.all Str.is_digit "482913" = true.
Proof.
  apply (otp_is_six_digits (mailbox_with "" "Your code is 482913 today")).
  vm_compute. reflexivity.
Defined.

(** X8. The loop over the payload ends for every message, and the text
    searched is the snippet, then the body of each part before those of
    its sub-parts, the later sub-parts before the earlier ones, all
    joined by line feeds. *)
Theorem message_text_order (full : Message) :
  message_text full
  = Some (Str.join newline (default EmptyString (snippet full) :: texts_of (payload full))).
Proof. apply message_text_spec. Qed.

(** With a plain and an HTML alternative the HTML body is read first. *)
Example html_part_is_read_first :
  message_text {| snippet := Some "S";
                  payload := Some (Part None [Part (Some "plain") []; Part (Some "html") []]) |}
  = Some ("S" +:+ newline +:+ "html" +:+ newline +:+ "plain").
Proof. reflexivity. Qed.

Lemma search_as_scan (s : string) (prev : option ascii) (i : nat) :
  (fun m => nth 0 (Regex.groups m) EmptyString) <$> Regex.search false otp_pattern prev s i
  = scan prev s.
Proof.
  revert prev i. induction s as [|c s IH]; intros prev i;
    cbn [Regex.search scan]; rewrite otp_pattern_here;
    by destruct (six_digits_here prev _).
Qed.

Lemma extract_otp_as_scan (text : string) :
  extract_otp text =
  match scan None text with
  | Some d => Ok d
  | None => Err "OTP code not found in email body (expected 6-digit code)"
  end.
Proof.
  unfold extract_otp, Regex.exec. rewrite <- (search_as_scan text None 0).
  by destruct (Regex.search false otp_pattern None text 0).
Qed.

Lemma scan_wordy (prev prev' : option ascii) (s : string) :
  Regex.wordy prev = Regex.wordy prev' -> scan prev s = scan prev' s.
Proof.
  intros H. destruct s; cbn [scan]; unfold six_digits_here; by rewrite H.
Qed.

(** A line feed after a text hides what follows it from a match that
    starts in the text. *)
Lemma six_digits_before_line_feed (prev : option ascii) (s t : string) :
  six_digits_here prev (s +:+ String (ascii_of_nat 10) t) = six_digits_here prev s /\
  (six_digits_here prev s = true ->
   Str.take 6 (s +:+ String (ascii_of_nat 10) t) = Str.take 6 s).
Proof.
  unfold six_digits_here.
  destruct s as [|c1 [|c2 [|c3 [|c4 [|c5 [|c6 [|c7 r]]]]]]];
    cbn -[Str.is_digit Str.is_word Nat.eqb]; rewrite ?andb_false_r;
    try (split; [reflexivity|discriminate]);
    try (split; [|reflexivity]).
  all: try reflexivity.
  all: change (Str.is_digit (ascii_of_nat 10)) with false;
       rewrite ?andb_false_r; try reflexivity.
  all: destruct t; cbn -[Str.is_digit]; rewrite ?andb_false_r; reflexivity.
Qed.

Lemma scan_line_feed (prev : option ascii) (s t : string) :
  scan prev (s +:+ String (ascii_of_nat 10) t) =
  match scan prev s with
  | Some d => Some d
  | None => scan None t
  end.
Proof.
  revert prev. induction s as [|c s IH]; intros prev.
  - destruct (six_digits_before_line_feed prev EmptyString t) as [Hsame _].
    cbn [String.append] in *. cbn [scan]. rewrite Hsame.
    assert (six_digits_here prev EmptyString = false) as ->.
    { unfold six_digits_here. simpl. by rewrite andb_false_r. }
    by apply scan_wordy.
  - destruct (six_digits_before_line_feed prev (String c s) t) as [Hsame Htake].
    cbn [String.append] in *. cbn [scan]. rewrite Hsame.
    destruct (six_digits_here prev (String c s)); [by rewrite Htake|apply IH].
Qed.

Lemma extract_otp_joined (parts : list string) :
  extract_otp (Str.join newline parts) = first_code parts.
Proof.
  induction parts as [|p [|q parts] IH].
  - reflexivity.
  - cbn [Str.join first_code]. rewrite extract_otp_as_scan. by destruct (scan None p).
  - change (Str.join newline (p :: q :: parts))
      with (p +:+ String (ascii_of_nat 10) (Str.join newline (q :: parts))).
    cbn [first_code] in *. rewrite <- IH, !extract_otp_as_scan, scan_line_feed.
    by destruct (scan None p).
Qed.

(** X9. The line feeds between the texts of a message neither make nor
    break a code: [getGmailOtp] returns the first six-digit number of
    the first text that has one -- the snippet before any body -- and
    throws when no text has one. *)
Theorem otp_comes_from_first_part_with_code
    (box : Mailbox) (id : string) (ids : list string) (full : Message) :
  credentials box = true ->
  listed box = Ok (Some (id :: ids)) ->
  fetched box id = Ok full ->
  getGmailOtp box = first_code (default EmptyString (snippet full) :: texts_of (payload full)).
Proof.
  intros Hc Hl Hf. unfold getGmailOtp. rewrite Hc, Hl. simpl. rewrite Hf. simpl.
  rewrite message_text_spec. apply extract_otp_joined.
Qed.

Lemma otp_comes_from_first_part_with_code_witness :
  getGmailOtp (mailbox_with "Ref 20251103 sent" "123 456 or 482913")
  = first_code ["Ref 20251103 sent"; "123 456 or 482913"].
Proof.
  apply (otp_comes_from_first_part_with_code _ "m1" ["m0"]
           {| snippet := Some "Ref 20251103 sent";
              payload := Some (Part None [Part (Some "123 456 or 482913") []]) |});
    reflexivity.
Defined.

(** Digits that end one text and digits that begin the next are not
    read as one number. *)
Example digits_across_parts :
  getGmailOtp (mailbox_with "code 482" "913 is half of it") 
  = Err "OTP code not found in email body (expected 6-digit code)".
Proof. vm_compute. reflexivity. Qed.

(** ** Trying selectors in turn *)

Lemma tryFill_spec (page : Page) (selectors : list string) (value : string) :
  fst (tryFill page selectors value) = existsb (works page) selectors /\
  completed page (snd (tryFill page selectors value))
  = match find (works page) selectors with Some sel => [sel] | None => [] end /\
  (fst (tryFill page selectors value) = false ->
   omap (fun a => match a with WaitFor sel => Some sel | _ => None end)
        (snd (tryFill page selectors value)) = selectors).
Proof.
  induction selectors as [|sel rest (IH1 & IH2 & IH3)]; [done|].
  cbn [tryFill existsb find].
  assert (works page sel = appears page sel && accepts page sel) as Hw by done.
  destruct (appears page sel), (accepts page sel); simpl in Hw;
    destruct (tryFill page rest value) as [r acts]; unfold completed in *;
    cbn -[works] in *; rewrite ?Hw; cbn -[works]; rewrite ?Hw;
    (split; [done|]); (split; [done|]); try done;
    intros Hr; by rewrite IH3.
Qed.

Lemma tryClick_spec (page : Page) (selectors : list string) :
  fst (tryClick page selectors) = existsb (works page) selectors /\
  completed page (snd (tryClick page selectors))
  = match find (works page) selectors with Some sel => [sel] | None => [] end /\
  (fst (tryClick page selectors) = false ->
   omap (fun a => match a with WaitFor sel => Some sel | _ => None end)
        (snd (tryClick page selectors)) = selectors).
Proof.
  induction selectors as [|sel rest (IH1 & IH2 & IH3)]; [done|].
  cbn [tryClick existsb find].
  assert (works page sel = appears page sel && accepts page sel) as Hw by done.
  destruct (appears page sel), (accepts page sel); simpl in Hw;
    destruct (tryClick page rest) as [r acts]; unfold completed in *;
    cbn -[works] in *; rewrite ?Hw; cbn -[works]; rewrite ?Hw;
    (split; [done|]); (split; [done|]); try done;
    intros Hr; by rewrite IH3.
Qed.

(** X12. [tryFill] and [tryClick] act on one element at most: the
    first selector of the list that appears and takes the action; they
    return [true] exactly when there is one, and [false] only after
    having waited for every selector of the list, in order. *)
Theorem first_working_selector_is_used
    (page : Page) (selectors : list string) (value : string) :
  let first := match find (works page) selectors with Some sel => [sel] | None => [] end in
  (fst (tryFill page selectors value) = existsb (works page) selectors /\
   completed page (snd (tryFill page selectors value)) = first /\
   (fst (tryFill page selectors value) = false ->
    omap (fun a => match a with WaitFor sel => Some sel | _ => None end)
         (snd (tryFill page selectors value)) = selectors)) /\
  (fst (tryClick page selectors) = existsb (works page) selectors /\
   completed page (snd (tryClick page selectors)) = first /\
   (fst (tryClick page selectors) = false ->
    omap (fun a => match a with WaitFor sel => Some sel | _ => None end)
         (snd (tryClick page selectors)) = selectors)).
Proof. split; [apply tryFill_spec|apply tryClick_spec]. Qed.

(** The password field of a page that only has the generic one. *)
Example tryFill_password :
  tryFill {| appears := fun sel => bool_decide (sel = "input#password") ||
                                   bool_decide (sel = "input[type=password]");
             accepts := fun sel => bool_decide (sel = "input[type=password]") |}
          ["input[name=callback_1]"; "input#password"; "input[type=password]"; "input[name=pw]"]
          "secret"
  = (true, [WaitFor "input[name=callback_1]";
            WaitFor "input#password"; FillIn "input#password" "secret";
            WaitFor "input[type=password]"; FillIn "input[type=password]" "secret"]).
Proof. vm_compute. reflexivity. Qed.

(** ** Rotation, file by file *)

Import Scheduler.

Lemma unlink_each_step (fs : FileSystem) (tmp p : string) (doomed : list (string * Z)) :
  unlink_each fs tmp doomed !! p = fs !! p \/
  (unlink_each fs tmp doomed !! p = None /\
   exists ft t, In ft doomed /\ p = join tmp (fst ft) /\ fs !! p = Some (File t)).
Proof.
  unfold unlink_each. revert fs. induction doomed as [|ft doomed IH]; intros fs; [by left|].
  cbn [fold_left]. destruct (unlink fs (join tmp (fst ft))) as [fs1|e] eqn:Hu.
  - assert (exists t, fs !! join tmp (fst ft) = Some (File t) /\
                      fs1 = delete (join tmp (fst ft)) fs) as (t & Hq & ->).
    { unfold unlink in Hu. destruct (fs !! join tmp (fst ft)) as [[t|]|]; try done.
      injection Hu as <-. by exists t. }
    destruct (decide (p = join tmp (fst ft))) as [->|Hne].
    + right. split; [|exists ft, t; split; [by left|by split]].
      destruct (IH (delete (join tmp (fst ft)) fs)) as [H|[H _]]; [|done].
      by rewrite H, lookup_delete_eq.
    + destruct (IH (delete (join tmp (fst ft)) fs)) as [H|(H & ft' & t' & Hin & Hp & Hf)].
      * left. by rewrite H, lookup_delete_ne.
      * right. split; [done|]. exists ft', t'. split; [by right|]. split; [done|].
        by rewrite lookup_delete_ne in Hf.
  - destruct (IH fs) as [H|(H & ft' & t' & Hin & Hp & Hf)]; [by left|].
    right. split; [done|]. exists ft', t'. split; [by right|done].
Qed.

Lemma stat_all_members (fs : FileSystem) (files : list string) (stats : list (string * Z))
    (ft : string * Z) :
  stat_all fs "/tmp" files = Ok stats -> In ft stats ->
  In (fst ft) files /\ snd ft = mtime_of fs (fst ft).
Proof.
  revert stats. induction files as [|f files IH]; intros stats; simpl.
  - by intros [= <-].
  - unfold stat at 1. destruct (fs !! join "/tmp" f) as [n|] eqn:Hn; [|done]. simpl.
    destruct (stat_all fs "/tmp" files) as [rest|]; [|done]. simpl.
    intros [= <-] [<-|Hin].
    + split; [by left|]. unfold mtime_of. simpl. by rewrite Hn.
    + destruct (IH rest eq_refl Hin). split; [by right|done].
Qed.

Lemma json_entry_shape (fs : FileSystem) (f : string) :
  f ∈ json_entries fs ->
  Str.endsWith ".json" f = true /\ Str.includes "/" f = false /\
  is_Some (fs !! join "/tmp" f).
Proof.
  unfold json_entries. intros [Hjson Hin]%list_elem_of_filter.
  apply Is_true_true in Hjson. split; [done|].
  destruct (readdir fs "/tmp") as [names|] eqn:Hread; [|by apply elem_of_nil in Hin].
  split; [by apply (readdir_plain fs "/tmp" names)|].
  unfold readdir in Hread. destruct (fs !! "/tmp") as [[]|]; try done.
  injection Hread as <-. apply list_elem_of_omap in Hin as ([p n] & Hpn & He).
  apply elem_of_map_to_list in Hpn. simpl in He. unfold entry_of in He.
  destruct (Str.startsWith ("/tmp" +:+ "/") p) eqn:Hs; [|done].
  destruct (_ || _); [done|]. injection He as <-.
  apply startsWith_spec in Hs as [post ->]. unfold join.
  cbn in *. by rewrite Hpn.
Qed.

(** X13. [rotateSessions] only ever removes, and only regular files
    that lie in [/tmp] itself and whose name ends in [.json]: every
    other path of the file system -- other names, deeper paths,
    directories -- is left as it was. *)
Theorem rotation_only_unlinks_json_files_of_tmp (fs : FileSystem) (p : string) :
  snd (rotateSessions fs) !! p = fs !! p \/
  (snd (rotateSessions fs) !! p = None /\
   exists f t, p = "/tmp/" +:+ f /\ Str.endsWith ".json" f = true /\
               Str.includes "/" f = false /\ fs !! p = Some (File t)).
Proof.
  unfold rotateSessions. fold (json_entries fs).
  destruct (stat_all fs "/tmp" (json_entries fs)) as [stats|] eqn:Hstats; [|by left].
  cbn [snd].
  destruct (unlink_each_step fs "/tmp" p
              (skipn 3 (sort (fun a b => (snd b - snd a)%Z) stats)))
    as [H|(H & ft & t & Hin & Hp & Hf)]; [by left|].
  right. split; [done|]. exists (fst ft), t.
  apply In_skipn, In_sort in Hin.
  destruct (stat_all_members fs _ _ ft Hstats Hin) as [Hfile _].
  apply list_elem_of_In, json_entry_shape in Hfile as (Hj & Hplain & _).
  by repeat split.
Qed.

Lemma sort_length {A} (cmp : A -> A -> Z) (l : list A) : length (sort cmp l) = length l.
Proof. apply Permutation_length, sort_perm. Qed.

Lemma stat_all_length (fs : FileSystem) (tmp : string) (files : list string)
    (stats : list (string * Z)) :
  stat_all fs tmp files = Ok stats -> length stats = length files.
Proof. intros H. by rewrite <- (stat_all_names _ _ _ _ H), length_map. Qed.

(** X14. Nothing is removed when there is nothing to rotate: with three
    [.json] entries in [/tmp] or fewer the file system is left as it
    was, and when [/tmp] cannot be listed the error is swallowed and
    the function returns with nothing kept and nothing removed. *)
Theorem rotation_leaves_small_directories_alone (fs : FileSystem) :
  (length (json_entries fs) <= 3 -> snd (rotateSessions fs) = fs) /\
  ((forall names, readdir fs "/tmp" <> Ok names) -> rotateSessions fs = (Ok [], fs)).
Proof.
  split.
  - intros Hlen. unfold rotateSessions. fold (json_entries fs).
    destruct (stat_all fs "/tmp" (json_entries fs)) as [stats|] eqn:Hstats; [|done].
    cbn [snd]. rewrite skipn_all2; [done|].
    rewrite sort_length, (stat_all_length _ _ _ _ Hstats). done.
  - intros Hno. unfold rotateSessions.
    destruct (readdir fs "/tmp") as [names|]; [by destruct (Hno names)|].
    by rewrite filter_nil.
Qed.

Lemma rotation_leaves_small_directories_alone_witness :
  snd (rotateSessions five_sessions) = five_sessions.
Proof.
  apply (rotation_leaves_small_directories_alone five_sessions).
  vm_compute. lia.
Defined.

(** *** The three newest *)

Lemma entry_of_join (dir p f : string) : entry_of dir p = Some f -> p = join dir f.
Proof.
  unfold entry_of. destruct (Str.startsWith (dir +:+ "/") p) eqn:Hs; [|done].
  destruct (_ || _); [done|]. intros [= <-].
  apply startsWith_spec in Hs as [post ->].
  replace (String.length dir + 1) with (String.length (dir +:+ "/"))
    by (rewrite length_append; simpl; lia).
  rewrite drop_append. unfold join. by rewrite append_assoc.
Qed.

Lemma NoDup_omap_inj {A B} (f : A -> option B) (l : list A) :
  NoDup l ->
  (forall x y z, x ∈ l -> y ∈ l -> f x = Some z -> f y = Some z -> x = y) ->
  NoDup (omap f l).
Proof.
  induction 1 as [|x l Hx Hl IH]; intros Hinj; [constructor|].
  cbn [omap list_omap]. destruct (f x) as [z|] eqn:Hz.
  - constructor.
    + intros (y & Hy & Hfy)%list_elem_of_omap. destruct Hx.
      rewrite (Hinj x y z); [done|by left|by right|done..].
    + apply IH. intros a b c Ha Hb. apply Hinj; by right.
  - apply IH. intros a b c Ha Hb. apply Hinj; by right.
Qed.

Lemma json_entries_NoDup (fs : FileSystem) : NoDup (json_entries fs).
Proof.
  unfold json_entries. apply NoDup_filter.
  unfold readdir. destruct (fs !! "/tmp") as [[]|]; try apply NoDup_nil_2.
  apply NoDup_omap_inj; [apply NoDup_map_to_list|].
  intros [p1 n1] [p2 n2] f H1 H2 E1 E2. simpl in E1, E2.
  apply entry_of_join in E1, E2. subst p1 p2.
  apply elem_of_map_to_list in H1, H2. congruence.
Qed.

Lemma stat_all_stamps (fs : FileSystem) (files : list string) :
  (forall f, In f files -> is_Some (fs !! join "/tmp" f)) ->
  stat_all fs "/tmp" files = Ok (map (fun f => (f, mtime_of fs f)) files).
Proof.
  induction files as [|f files IH]; intros H; [done|].
  cbn [stat_all map]. unfold stat at 1, mtime_of at 1.
  destruct (H f) as [n Hn]; [by left|]. rewrite Hn. cbn [bindR].
  rewrite IH by (intros; apply H; by right). done.
Qed.

Lemma join_inj (dir a b : string) : join dir a = join dir b -> a = b.
Proof. unfold join. intros H. by do 2 apply String.app_inj in H. Qed.

(** What is doomed and is a regular file (or already gone) is gone
    after the loop. *)
Lemma unlink_each_gone (fs : FileSystem) (tmp : string) (doomed : list (string * Z))
    (ft : string * Z) :
  (forall ft', In ft' doomed ->
     fs !! join tmp (fst ft') = None \/ exists t, fs !! join tmp (fst ft') = Some (File t)) ->
  In ft doomed ->
  unlink_each fs tmp doomed !! join tmp (fst ft) = None.
Proof.
  revert fs. induction doomed as [|d doomed IH]; intros fs Hreg Hin; [done|].
  assert (exists fs1,
    unlink_each fs tmp (d :: doomed) = unlink_each fs1 tmp doomed /\
    fs1 !! join tmp (fst d) = None /\
    (forall p, fs1 !! p = fs !! p \/ fs1 !! p = None)) as (fs1 & -> & Hd & Hsub).
  { unfold unlink_each at 1. cbn [fold_left]. fold (unlink_each).
    destruct (Hreg d) as [Hnone|[t Ht]]; [by left| |]; unfold unlink.
    - rewrite Hnone. exists fs. split; [done|]. split; [done|]. by left.
    - rewrite Ht. exists (delete (join tmp (fst d)) fs).
      split; [done|]. split; [apply lookup_delete_eq|].
      intros p. destruct (decide (p = join tmp (fst d))) as [->|Hne].
      + right. apply lookup_delete_eq.
      + left. by apply lookup_delete_ne. }
  destruct Hin as [->|Hin].
  - destruct (unlink_each_step fs1 tmp (join tmp (fst ft)) doomed) as [H|[H _]]; [|done].
    by rewrite H.
  - apply IH; [|done]. intros ft' Hft'.
    destruct (Hsub (join tmp (fst ft'))) as [H|H]; rewrite H; [|by left].
    apply Hreg. by right.
Qed.

(** X15. Rotation properly said.  When the [.json] entries of [/tmp]
    are regular files, [rotateSessions] keeps three of them (all of
    them when there are fewer), removes every other one, and no file
    it removes is newer than a file it keeps; the names it logs as
    kept are exactly the [.json] files left. *)
Theorem rotation_keeps_the_three_newest (fs : FileSystem) :
  (forall f, f ∈ json_entries fs -> regular fs f) ->
  exists kept,
    rotateSessions fs = (Ok kept, snd (rotateSessions fs)) /\
    NoDup kept /\
    length kept = Nat.min 3 (length (json_entries fs)) /\
    (forall f, f ∈ kept -> f ∈ json_entries fs) /\
    (forall f, f ∈ json_entries fs ->
       snd (rotateSessions fs) !! join "/tmp" f
       = if bool_decide (f ∈ kept) then fs !! join "/tmp" f else None) /\
    (forall f k, f ∈ json_entries fs -> f ∉ kept -> k ∈ kept ->
       (mtime_of fs f <= mtime_of fs k)%Z).
Proof.
  intros Hreg. unfold rotateSessions. fold (json_entries fs).
  set (files := json_entries fs) in *.
  rewrite stat_all_stamps; cycle 1.
  { intros f Hf%list_elem_of_In. by apply json_entry_shape in Hf as (_ & _ & ?). }
  set (stats := map (fun f => (f, mtime_of fs f)) files).
  set (sorted := sort (fun a b => (snd b - snd a)%Z) stats).
  assert (forall ft, In ft sorted <-> In (fst ft) files /\ snd ft = mtime_of fs (fst ft))
    as Hsorted.
  { intros ft. unfold sorted. rewrite In_sort. unfold stats. rewrite in_map_iff. split.
    - by intros (f & <- & Hf).
    - intros [Hf Ht]. exists (fst ft). split; [|done]. destruct ft. simpl in *. by subst. }
  assert (map fst stats = files) as Hnames.
  { unfold stats. rewrite map_map. simpl. apply map_id. }
  assert (NoDup (map fst (firstn 3 sorted) ++ map fst (skipn 3 sorted))) as Hnd.
  { rewrite <- map_app, firstn_skipn. apply NoDup_ListNoDup.
    eapply Permutation_NoDup; [symmetry; apply Permutation_map, sort_perm|].
    fold stats. rewrite Hnames. apply NoDup_ListNoDup, json_entries_NoDup. }
  apply NoDup_app in Hnd as (Hkept & Hdisj & _).
  exists (map fst (firstn 3 sorted)). cbn [snd].
  split; [done|]. split; [done|]. split.
  { rewrite length_map, length_firstn. unfold sorted. rewrite sort_length.
    unfold stats. by rewrite length_map. }
  split.
  { intros f (ft & <- & Hft)%list_elem_of_In%in_map_iff. apply list_elem_of_In.
    apply Hsorted. apply (In_skipn 0). simpl.
    rewrite <- (firstn_skipn 3 sorted). apply in_or_app. by left. }
  assert (forall f, f ∈ files -> f ∉ map fst (firstn 3 sorted) ->
            In (f, mtime_of fs f) (skipn 3 sorted)) as Hdoomed.
  { intros f Hf Hnot.
    assert (In (f, mtime_of fs f) sorted) as Hin
      by (apply Hsorted; split; [by apply list_elem_of_In|done]).
    rewrite <- (firstn_skipn 3 sorted) in Hin. apply in_app_or in Hin as [Hin|Hin]; [|done].
    destruct Hnot. apply list_elem_of_In, in_map_iff. by exists (f, mtime_of fs f). }
  split.
  - intros f Hf. case_bool_decide as Hk.
    + apply unlink_each_other. intros ft Hft Heq. apply join_inj in Heq. subst f.
      apply (Hdisj (fst ft) Hk). apply list_elem_of_In, in_map_iff. by exists ft.
    + apply (unlink_each_gone fs "/tmp" _ (f, mtime_of fs f)); [|by apply Hdoomed].
      intros ft' Hft'. right. apply Hreg, list_elem_of_In, Hsorted. by apply In_skipn in Hft'.
  - intros f k Hf Hnot (kt & <- & Hkt)%list_elem_of_In%in_map_iff.
    pose proof (Hdoomed f Hf Hnot) as Hd.
    destruct (kept_are_newest stats kt (f, mtime_of fs f) Hd) as [_ Hle].
    specialize (Hle Hkt). simpl in Hle.
    assert (snd kt = mtime_of fs (fst kt)) as <-; [|done].
    apply Hsorted. rewrite <- (firstn_skipn 3 sorted). apply in_or_app. by left.
Qed.

Lemma rotation_keeps_the_three_newest_witness :
  exists kept,
    rotateSessions five_in_tmp = (Ok kept, snd (rotateSessions five_in_tmp)) /\
    length kept = 3.
Proof.
  destruct (rotation_keeps_the_three_newest five_in_tmp) as (kept & H1 & _ & H3 & _).
  - assert (json_entries five_in_tmp = ["c.json"; "e.json"; "a.json"; "b.json"; "d.json"])
      as He by (vm_compute; reflexivity).
    intros f Hf. unfold regular. apply list_elem_of_In in Hf. rewrite He in Hf.
    exists (mtime_of five_in_tmp f).
    repeat destruct Hf as [<-|Hf]; [vm_compute; reflexivity..|destruct Hf].
  - exists kept. split; [done|]. rewrite H3. vm_compute. reflexivity.
Defined.

(** ** The calls of doRun *)

Lemma move_call_one (id : nat) (a a' : Await) :
  move_call id a' [(id, a)] = [(id, a')].
Proof. unfold move_call. cbn. by rewrite bool_decide_eq_true_2. Qed.

Lemma drop_call_one (id : nat) (a : Await) : drop_call id [(id, a)] = [].
Proof. unfold drop_call. cbn. rewrite decide_False; [done|]. by intros []. Qed.

(** What a step of the only suspended call leaves behind. *)
Lemma continue_shape (p : Process) (id : nat) (a : Await) (s : Settled) :
  suspended p = [(id, a)] ->
  let p' := continue p id a s in
  (exists a', awaits_left a' < awaits_left a /\ suspended p' = [(id, a')] /\
     replies p' = replies p /\ runLock p' = runLock p) \/
  (exists r, suspended p' = [] /\ replies p' = replies p ++ [(id, r)] /\ runLock p' = false).
Proof.
  intros Hs p'. subst p'.
  destruct a, s; cbn [continue]; try destruct (negb res_ok);
    unfold proceed, finish; cbn [runLock suspended replies];
    rewrite Hs, ?move_call_one, ?drop_call_one;
    first [ left; eexists; split; [|by repeat split]; simpl; lia
          | right; eexists; by repeat split ].
Qed.

Lemma continue_accounted (p : Process) (id : nat) (a : Await) (s : Settled) :
  suspended p = [(id, a)] ->
  accounted (continue p id a s) = accounted p /\
  calls (continue p id a s) = calls p.
Proof.
  intros Hs. split; [|apply continue_calls]. unfold accounted.
  destruct (continue_shape p id a s Hs) as [(a' & _ & -> & -> & _)|(r & -> & -> & _)];
    rewrite Hs; [done|].
  rewrite map_app. cbn. by rewrite app_nil_r.
Qed.

Lemma resume_accounted (p : Process) (id : nat) (s : Settled) :
  lock_held_by_one p ->
  accounted (resume p id s) = accounted p /\ calls (resume p id s) = calls p.
Proof.
  intros [(Hl & id0 & a & Hs & Hid)|(Hl & Hs)]; unfold resume.
  - rewrite (where_is_one p id0 a id Hs). case_bool_decide as Heq; [subst id0|done].
    by apply continue_accounted.
  - unfold where_is. by rewrite Hs.
Qed.

Lemma doRun_accounted (p : Process) (source : Source) :
  Permutation (accounted (doRun p source)) (accounted p ++ [calls p]) /\
  calls (doRun p source) = S (calls p).
Proof.
  unfold doRun, accounted. destruct (runLock p); cbn [replies suspended calls];
    rewrite map_app; cbn [map fst]; split; try done.
  - rewrite <- !List.app_assoc. apply Permutation_app_head, Permutation_app_comm.
  - by rewrite List.app_assoc.
Qed.

(** X16. No call of [doRun] is lost or answered twice: at any moment
    the calls that have returned, each once, together with the call
    that is suspended, are exactly the calls made so far, one per
    trigger. *)
Theorem every_call_is_answered_once (ticks : list Tick) :
  Permutation (accounted (run ticks)) (seq 0 (calls (run ticks))) /\
  calls (run ticks) = triggers ticks.
Proof.
  unfold run, triggers.
  assert (forall p n, lock_held_by_one p ->
            Permutation (accounted p) (seq 0 (calls p)) -> calls p = n ->
            Permutation (accounted (fold_left tick ticks p))
                        (seq 0 (calls (fold_left tick ticks p))) /\
            calls (fold_left tick ticks p)
            = n + length (List.filter is_trigger ticks))
    as H.
  { induction ticks as [|t ticks IH]; intros p n Hlock Hperm Hn; [split; [done|simpl; lia]|].
    cbn [fold_left List.filter].
    destruct t as [source|id s]; cbn [tick is_trigger].
    - destruct (doRun_accounted p source) as [Hp Hc].
      destruct (IH (doRun p source) (S n)) as [H1 H2].
      + by apply doRun_lock.
      + rewrite Hp, Hc, seq_S. simpl. by apply Permutation_app_tail.
      + lia.
      + split; [done|]. rewrite H2. simpl. lia.
    - destruct (resume_accounted p id s Hlock) as [Hp Hc].
      destruct (IH (resume p id s) n) as [H1 H2].
      + by apply resume_lock.
      + by rewrite Hp, Hc.
      + lia.
      + by split. }
  apply (H boot 0); [apply boot_lock|done..].
Qed.

Lemma resume_idle (p : Process) (id : nat) (s : Settled) :
  suspended p = [] -> resume p id s = p.
Proof. intros Hs. unfold resume, where_is. by rewrite Hs. Qed.

Lemma settle_all_idle (results : list Settled) (p : Process) (id : nat) :
  suspended p = [] -> settle_all p id results = p.
Proof.
  intros Hs. induction results as [|s results IH]; [done|].
  unfold settle_all in *. cbn [fold_left]. by rewrite resume_idle.
Qed.

Lemma settle_all_ends (results : list Settled) (p : Process) (id : nat) (a : Await) :
  suspended p = [(id, a)] -> runLock p = true ->
  awaits_left a <= length results ->
  runLock (settle_all p id results) = false /\ suspended (settle_all p id results) = [].
Proof.
  revert p a. induction results as [|s results IH]; intros p a Hs Hl Hlen.
  - destruct a; simpl in Hlen; lia.
  - unfold settle_all. cbn [fold_left]. fold (settle_all (resume p id s) id results).
    unfold resume. rewrite (where_is_one p id a id Hs), bool_decide_eq_true_2 by done.
    destruct (continue_shape p id a s Hs) as [(a' & Hlt & Hs' & _ & Hl')|(r & Hs' & _ & Hl')].
    + apply (IH _ a'); [done|congruence|]. simpl in Hlen. lia.
    + by rewrite settle_all_idle.
Qed.

(** X17. A run cannot hold the lock for ever by itself: [doRun] has no
    loop, and a call that is suspended in its [try] has returned, and
    released the lock, once at most six of the results it awaits have
    arrived, whatever they are. *)
Theorem run_ends_within_six_results
    (ticks : list Tick) (id : nat) (at_ : Await) (results : list Settled) :
  where_is (run ticks) id = Some at_ ->
  6 <= length results ->
  let p' := settle_all (run ticks) id results in
  runLock p' = false /\ suspended p' = [] /\ In id (map fst (replies p')).
Proof.
  intros Hw Hlen p'. destruct (run_lock ticks) as [(Hl & id0 & a & Hs & Hid)|(Hl & Hs)].
  - rewrite (where_is_one _ id0 a id Hs) in Hw.
    case_bool_decide as Heq; [|done]. injection Hw as ->. subst id0.
    destruct (settle_all_ends results (run ticks) id at_ Hs Hl) as [H1 H2].
    { destruct at_; simpl; lia. }
    split; [done|]. split; [done|].
    assert (lock_held_by_one p' /\ accounted p' = accounted (run ticks)) as [_ Hacc].
    { subst p'. generalize (run_lock ticks). generalize (run ticks).
      clear. induction results as [|s results IH]; intros p Hp; [done|].
      unfold settle_all. cbn [fold_left]. fold (settle_all (resume p id s) id results).
      destruct (IH (resume p id s)) as [H1 H2]; [by apply resume_lock|].
      split; [done|]. rewrite H2. by apply resume_accounted. }
    unfold accounted in Hacc. fold p' in H2. rewrite H2, Hs, app_nil_r in Hacc. cbn in Hacc.
    rewrite Hacc. apply in_or_app. right. by left.
  - unfold where_is in Hw. by rewrite Hs in Hw.
Qed.

Lemma run_ends_within_six_results_witness :
  let p' := settle_all (run [Call Startup; Settle 0 (Resolved true)]) 0
              [Resolved true; Rejected "ENOENT"; Rejected "ECONNREFUSED";
               Resolved false; Rejected "Unexpected token"; Resolved true] in
  runLock p' = false /\ suspended p' = [] /\ In 0 (map fst (replies p')).
Proof.
  apply (run_ends_within_six_results [Call Startup; Settle 0 (Resolved true)] 0 AwaitLogin);
    [reflexivity|simpl; lia].
Defined.

Lemma continue_honest (p : Process) (id : nat) (a : Await) (s : Settled) :
  Forall (fun ir => honest (snd ir)) (replies p) ->
  Forall (fun ir => honest (snd ir)) (replies (continue p id a s)).
Proof.
  intros H.
  destruct a, s; cbn [continue]; try destruct (negb res_ok);
    unfold proceed, finish; cbn [replies]; try done;
    apply Forall_app; (split; [done|]); by repeat constructor.
Qed.

Lemma run_honest (ticks : list Tick) :
  Forall (fun ir => honest (snd ir)) (replies (run ticks)).
Proof.
  unfold run. assert (Forall (fun ir => honest (snd ir)) (replies boot)) as H by constructor.
  revert H. generalize boot. induction ticks as [|t ticks IH]; intros p Hp; [done|].
  cbn [fold_left]. apply IH. destruct t as [source|id s]; cbn [tick].
  - unfold doRun. destruct (runLock p); cbn [replies]; [|done].
    apply Forall_app. split; [done|]. by repeat constructor.
  - unfold resume. destruct (where_is p id); [by apply continue_honest|done].
Qed.

(** X18. Only the answer of the export service decides success.  A
    reply with [ok: true] is always "Run started", given after the POST
    to [/trigger-fetch] came back with an ok status; an API map that
    cannot be read and a health check that fails do not end the run,
    which goes on with the lock held. *)
Theorem only_the_trigger_decides_success (ticks : list Tick) (id : nat) (s : Settled) :
  let p := run ticks in
  (forall r, In (id, r) (replies p) -> ok r = true -> message r = "Run started") /\
  (where_is p id = Some AwaitReadMap ->
   where_is (resume p id s) id = Some AwaitHealth /\
   runLock (resume p id s) = true /\ replies (resume p id s) = replies p) /\
  (where_is p id = Some AwaitHealth ->
   where_is (resume p id s) id = Some AwaitTrigger /\
   runLock (resume p id s) = true /\ replies (resume p id s) = replies p) /\
  (forall res_ok, where_is p id = Some (AwaitJson res_ok) ->
   replies (resume p id s)
   = replies p ++ [(id, {| ok := res_ok;
                           message := if res_ok then "Run started"
                                      else "Export trigger failed" |})]).
Proof.
  intros p. split.
  { intros r Hin. pose proof (run_honest ticks) as H.
    apply (proj1 (List.Forall_forall _ _) H (id, r) Hin). }
  destruct (run_lock ticks) as [(Hl & id0 & a & Hs & Hid)|(Hl & Hs)]; fold p in Hl, Hs.
  - rewrite (where_is_one p id0 a id Hs). case_bool_decide as Heq; [subst id0|by repeat split].
    unfold resume. rewrite (where_is_one p id a id Hs), bool_decide_eq_true_2 by done.
    split; [|split].
    + intros [= ->]. cbn [continue]. rewrite (where_is_one _ id AwaitHealth id).
      * by rewrite bool_decide_eq_true_2.
      * cbn [proceed suspended]. by rewrite Hs, move_call_one.
    + intros [= ->]. cbn [continue]. rewrite (where_is_one _ id AwaitTrigger id).
      * by rewrite bool_decide_eq_true_2.
      * cbn [proceed suspended]. by rewrite Hs, move_call_one.
    + intros res_ok [= ->]. by destruct res_ok, s.
  - unfold where_is. rewrite Hs. by repeat split.
Qed.

Lemma only_the_trigger_decides_success_witness :
  let p := run [Call Startup; Settle 0 (Resolved true); Settle 0 (Resolved true)] in
  where_is (resume p 0 (Rejected "ENOENT")) 0 = Some AwaitHealth /\
  runLock (resume p 0 (Rejected "ENOENT")) = true /\
  replies (resume p 0 (Rejected "ENOENT")) = replies p.
Proof.
  destruct (only_the_trigger_decides_success
              [Call Startup; Settle 0 (Resolved true); Settle 0 (Resolved true)] 0
              (Rejected "ENOENT")) as (_ & H & _).
  apply H. reflexivity.
Defined.

(** * chromiumLaunchOptions *)

Lemma trimStart_head (s : string) :
  match trimStart s with
  | EmptyString => True
  | String c _ => is_space c = false
  end.
Proof.
  induction s as [|c s IH]; [done|]. simpl. by destruct (is_space c) eqn:Hc; [|rewrite Hc].
Qed.

Lemma trimEnd_head (s : string) (c : ascii) :
  is_space c = false -> exists rest, trimEnd (String c s) = String c rest.
Proof. intros Hc. simpl. destruct (trimEnd s); rewrite ?Hc; eauto. Qed.

Lemma trimEnd_idem (s : string) : trimEnd (trimEnd s) = trimEnd s.
Proof.
  induction s as [|c s IH]; [done|]. simpl.
  destruct (trimEnd s) as [|d kept] eqn:Hk.
  - destruct (is_space c) eqn:Hc; [done|]. simpl. by rewrite Hc.
  - cbn [trimEnd] in *. fold trimEnd in *. by rewrite IH.
Qed.

Lemma trimStart_fixed (s : string) :
  match s with EmptyString => True | String c _ => is_space c = false end ->
  trimStart s = s.
Proof. destruct s as [|c s]; [done|]. simpl. by intros ->. Qed.

Lemma trim_idem (s : string) : trim (trim s) = trim s.
Proof.
  unfold trim. pose proof (trimStart_head s) as Hh.
  destruct (trimStart s) as [|c rest] eqn:Hs; [done|].
  destruct (trimEnd_head rest c Hh) as [kept Hk].
  rewrite trimStart_fixed; [apply trimEnd_idem|]. by rewrite Hk.
Qed.

Lemma truthy_spec (v : option string) :
  truthy v = true <-> exists s, v = Some s /\ s <> EmptyString.
Proof.
  split.
  - destruct v as [[|c s]|]; try done. by exists (String c s).
  - intros (s & -> & Hs). by destruct s.
Qed.

Lemma eqb_empty (s : string) : String.eqb s EmptyString = false <-> s <> EmptyString.
Proof. by destruct s. Qed.

Lemma use_path_spec (o : LaunchOptions) (env : Env) (v : string) :
  env !! "CHROMIUM_PATH" = Some v -> v <> EmptyString ->
  use_path o env
  = if String.eqb (trim v) EmptyString then o else with_executablePath o (trim v).
Proof.
  intros Hv Hne. unfold use_path. rewrite Hv.
  replace (truthy (Some v)) with true by (by destruct v).
  by destruct (String.eqb (trim v) EmptyString).
Qed.

Lemma skip_validate_kept (env : Env) :
  (if negb (truthy (env !! "PLAYWRIGHT_SKIP_VALIDATE_HOST_REQUIREMENTS"))
   then <["PLAYWRIGHT_SKIP_VALIDATE_HOST_REQUIREMENTS" := "1"]> env
   else env) !! "CHROMIUM_PATH" = env !! "CHROMIUM_PATH".
Proof.
  destruct (negb _); [|done]. by rewrite lookup_insert_ne.
Qed.

(** X19. A browser configured in [CHROMIUM_PATH] wins: when the
    variable is set and not empty, [chromiumLaunchOptions] runs no
    shell command (the result is the same whatever the command would
    print or throw), leaves the variable as it is, and launches the
    configured path with the white space around it removed, or the
    bundled browser when the value is blank. *)
Theorem configured_chromium_path_wins (execSync : Result string) (env : Env) (v : string) :
  env !! "CHROMIUM_PATH" = Some v -> v <> EmptyString ->
  fst (chromiumLaunchOptions execSync env)
  = {| headless := true;
       args := ["--no-sandbox"; "--disable-setuid-sandbox"];
       executablePath := if String.eqb (trim v) EmptyString then None else Some (trim v) |} /\
  snd (chromiumLaunchOptions execSync env) !! "CHROMIUM_PATH" = Some v.
Proof.
  intros Hv Hne. unfold chromiumLaunchOptions.
  set (env1 := if negb (truthy (env !! "PLAYWRIGHT_SKIP_VALIDATE_HOST_REQUIREMENTS")) then _ else _).
  assert (env1 !! "CHROMIUM_PATH" = Some v) as Hv1 by (unfold env1; by rewrite skip_validate_kept).
  rewrite Hv1. replace (truthy (Some v)) with true by (by destruct v).
  cbn [negb fst snd]. split; [|done].
  rewrite (use_path_spec _ env1 v Hv1 Hne). by destruct (String.eqb (trim v) EmptyString).
Qed.

Lemma configured_chromium_path_wins_witness :
  fst (chromiumLaunchOptions (Err "spawn /bin/sh ENOENT") configured_env)
  = {| headless := true;
       args := ["--no-sandbox"; "--disable-setuid-sandbox"];
       executablePath := Some "/usr/bin/chromium" |} /\
  snd (chromiumLaunchOptions (Err "spawn /bin/sh ENOENT") configured_env) !! "CHROMIUM_PATH"
  = Some " /usr/bin/chromium ".
Proof.
  apply (configured_chromium_path_wins (Err "spawn /bin/sh ENOENT") configured_env
           " /usr/bin/chromium "); [vm_compute; reflexivity|done].
Defined.

Lemma use_path_shape (o : LaunchOptions) (env : Env) :
  executablePath o = None ->
  headless (use_path o env) = headless o /\ args (use_path o env) = args o /\
  forall p, executablePath (use_path o env) = Some p ->
    p <> EmptyString /\ trim p = p /\
    exists v, env !! "CHROMIUM_PATH" = Some v /\ v <> EmptyString /\ p = trim v.
Proof.
  intros Ho. unfold use_path. destruct (env !! "CHROMIUM_PATH") as [v|] eqn:Hv.
  - destruct (truthy (Some v)) eqn:Ht; cbn [andb]; [|by rewrite Ho].
    destruct (String.eqb (trim v) EmptyString) eqn:He; cbn [negb]; [by rewrite Ho|].
    cbn. repeat split; try done; injection H as <-.
    + by apply eqb_empty.
    + apply trim_idem.
    + exists v. repeat split; try done. by destruct v.
  - by rewrite Ho.
Qed.

(** X20. What [chromiumLaunchOptions] returns and leaves behind, in
    every case, also when the shell command throws: the browser is
    headless with the two sandbox flags; an [executablePath], when
    there is one, is the trimmed value of [CHROMIUM_PATH] afterwards,
    is not blank and has no white space around it; and
    [PLAYWRIGHT_SKIP_VALIDATE_HOST_REQUIREMENTS] is set afterwards, to
    the value it had when it had one and to [1] otherwise. *)
Theorem launch_options_in_every_case (execSync : Result string) (env : Env) :
  let o := fst (chromiumLaunchOptions execSync env) in
  let env' := snd (chromiumLaunchOptions execSync env) in
  headless o = true /\
  args o = ["--no-sandbox"; "--disable-setuid-sandbox"] /\
  (forall p, executablePath o = Some p ->
     p <> EmptyString /\ trim p = p /\
     exists v, env' !! "CHROMIUM_PATH" = Some v /\ p = trim v) /\
  env' !! "PLAYWRIGHT_SKIP_VALIDATE_HOST_REQUIREMENTS"
  = (if truthy (env !! "PLAYWRIGHT_SKIP_VALIDATE_HOST_REQUIREMENTS")
     then env !! "PLAYWRIGHT_SKIP_VALIDATE_HOST_REQUIREMENTS"
     else Some "1").
Proof.
  intros o env'. subst o env'. unfold chromiumLaunchOptions.
  set (o := {| headless := true; args := _; executablePath := None |}).
  set (env1 := if negb (truthy (env !! "PLAYWRIGHT_SKIP_VALIDATE_HOST_REQUIREMENTS")) then _ else _).
  assert (env1 !! "PLAYWRIGHT_SKIP_VALIDATE_HOST_REQUIREMENTS"
          = if truthy (env !! "PLAYWRIGHT_SKIP_VALIDATE_HOST_REQUIREMENTS")
            then env !! "PLAYWRIGHT_SKIP_VALIDATE_HOST_REQUIREMENTS"
            else Some "1") as Hskip.
  { unfold env1. destruct (truthy _); cbn [negb]; [done|]. by rewrite lookup_insert_eq. }
  assert (forall env2, env2 !! "PLAYWRIGHT_SKIP_VALIDATE_HOST_REQUIREMENTS"
                       = env1 !! "PLAYWRIGHT_SKIP_VALIDATE_HOST_REQUIREMENTS" ->
            headless (use_path o env2) = true /\
            args (use_path o env2) = ["--no-sandbox"; "--disable-setuid-sandbox"] /\
            (forall p, executablePath (use_path o env2) = Some p ->
               p <> EmptyString /\ trim p = p /\
               exists v, env2 !! "CHROMIUM_PATH" = Some v /\ p = trim v) /\
            env2 !! "PLAYWRIGHT_SKIP_VALIDATE_HOST_REQUIREMENTS"
            = (if truthy (env !! "PLAYWRIGHT_SKIP_VALIDATE_HOST_REQUIREMENTS")
               then env !! "PLAYWRIGHT_SKIP_VALIDATE_HOST_REQUIREMENTS"
               else Some "1")) as Hcase.
  { intros env2 H2. destruct (use_path_shape o env2 eq_refl) as (H1 & H3 & H4).
    split; [done|]. split; [done|]. split; [|by rewrite H2].
    intros p Hp. destruct (H4 p Hp) as (? & ? & v & ? & _ & ?). eauto. }
  destruct (negb (truthy (env1 !! "CHROMIUM_PATH"))); [|by apply Hcase].
  cbn [require fst snd]. by repeat split.
Qed.

(** X21. The search for a browser never runs.  With [CHROMIUM_PATH]
    unset or empty the function reaches [require], which an ES module
    does not have; the [ReferenceError] is swallowed by the [catch], so
    no shell command is run, [CHROMIUM_PATH] is never set by the
    function and the options carry no [executablePath]: the bundled
    browser is launched.  A second call returns the same options and
    changes nothing more. *)
Theorem browser_search_never_runs (execSync again : Result string) (env : Env) :
  let first := chromiumLaunchOptions execSync env in
  snd first !! "CHROMIUM_PATH" = env !! "CHROMIUM_PATH" /\
  (truthy (env !! "CHROMIUM_PATH") = false ->
   first = chromiumLaunchOptions (Err "not run") env /\
   executablePath (fst first) = None) /\
  chromiumLaunchOptions again (snd first) = first.
Proof.
  intros first. subst first. unfold chromiumLaunchOptions. cbn [require].
  set (o := {| headless := true; args := _; executablePath := None |}).
  set (env1 := if negb (truthy (env !! "PLAYWRIGHT_SKIP_VALIDATE_HOST_REQUIREMENTS")) then _ else _).
  assert (env1 !! "CHROMIUM_PATH" = env !! "CHROMIUM_PATH") as Hcp
    by apply skip_validate_kept.
  assert (truthy (env1 !! "PLAYWRIGHT_SKIP_VALIDATE_HOST_REQUIREMENTS") = true) as Hskip.
  { unfold env1. destruct (truthy _) eqn:Ht; cbn [negb]; [done|]. by rewrite lookup_insert_eq. }
  rewrite Hcp.
  destruct (truthy (env !! "CHROMIUM_PATH")) eqn:Ht; cbn [negb fst snd].
  - rewrite Hskip. cbn [negb]. rewrite Hcp, Ht. cbn [negb]. by repeat split.
  - rewrite Hskip. cbn [negb]. rewrite Hcp, Ht. cbn [negb]. by repeat split.
Qed.

Lemma browser_search_never_runs_witness :
  chromiumLaunchOptions (Ok which_output) clean_env
  = chromiumLaunchOptions (Err "not run") clean_env /\
  executablePath (fst (chromiumLaunchOptions (Ok which_output) clean_env)) = None.
Proof.
  destruct (browser_search_never_runs (Ok which_output) (Err "not run") clean_env)
    as (_ & H & _).
  apply H. vm_compute. reflexivity.
Defined.
